(** * plugin-update: the atomic extractor (src/tar.ts) and the updater
    (Updater.runUpdate and its helpers), as a shallow embedding.

    The TypeScript code is asynchronous and effectful.  Every [await]ed
    call is modelled as a step of a state-and-exception monad [M] over a
    [World]: the file system, the wall clock, the random source behind
    [Math.random], and a chronological trace of the calls the code makes
    into its environment (terminal output, network, hooks, file-system
    mutations). *)

From Stdlib Require Import String Ascii List ZArith Lia Bool Sorted.
From Equations Require Import Equations.
From Equations.Prop Require Import Logic.
Import ListNotations.

Local Open Scope string_scope.
Local Open Scope list_scope.
Local Open Scope Z_scope.
Set Warnings "-register-all".

Notation "a +++ b" := (String.append a b) (at level 60, right associativity).

(** ** Strings

    A string holds text as its UTF-8 bytes, the form in which the file
    system stores it and [readFile(p, 'utf8')] and [writeFile] exchange
    it. *)

Definition dq : string := String (ascii_of_nat 34) EmptyString.
Definition nl : string := String (ascii_of_nat 10) EmptyString.
Definition bs : string := String (ascii_of_nat 92) EmptyString.

(** [s.split(sep)] for a one-character separator. *)
Fixpoint split_on (sep : ascii) (s : string) : list string :=
  match s with
  | EmptyString => [EmptyString]
  | String c s' =>
      if Ascii.eqb c sep then EmptyString :: split_on sep s'
      else match split_on sep s' with
           | [] => [String c EmptyString]
           | h :: t => String c h :: t
           end
  end.

(** [l.includes(x)] on an array of strings. *)
Definition includes (l : list string) (x : string) : bool :=
  existsb (String.eqb x) l.

(** [s.startsWith(p)]. *)
Definition startsWith (s p : string) : bool := String.prefix p s.

(** [s.includes(p)]: substring search. *)
Definition str_includes (s p : string) : bool :=
  match String.index 0 p s with Some _ => true | None => false end.

(** [s.replace(p, "")] with a string pattern: the first occurrence only. *)
Definition remove_first (s p : string) : string :=
  match String.index 0 p s with
  | Some i =>
      String.substring 0 i s
      +++ String.substring (i + String.length p)
                           (String.length s - i - String.length p) s
  | None => s
  end.

(** The white space and the line terminators of ECMAScript, by the
    length of their encoding.  One byte: TAB, LF, VT, FF, CR and the
    space. *)
Definition is_space (c : ascii) : bool :=
  let n := nat_of_ascii c in
  ((9 <=? n) && (n <=? 13))%nat || (n =? 32)%nat.

(** Two bytes: U+00A0. *)
Definition is_space2 (a b : ascii) : bool :=
  ((nat_of_ascii a =? 194) && (nat_of_ascii b =? 160))%nat.

(** Three bytes: U+1680, U+2000 to U+200A, U+2028, U+2029, U+202F,
    U+205F, U+3000 and U+FEFF. *)
Definition is_space3 (a b c : ascii) : bool :=
  let x := nat_of_ascii a in
  let y := nat_of_ascii b in
  let z := nat_of_ascii c in
  ((x =? 225) && (y =? 154) && (z =? 128)
   || (x =? 226) && (y =? 128)
      && ((128 <=? z) && (z <=? 138) || (z =? 168) || (z =? 169) || (z =? 175))
   || (x =? 226) && (y =? 129) && (z =? 159)
   || (x =? 227) && (y =? 128) && (z =? 128)
   || (x =? 239) && (y =? 187) && (z =? 191))%nat.

(** [strip fwd s] drops the white space at the head of [s]; with [fwd]
    unset, [s] is a text whose bytes come last first. *)
Fixpoint strip (fwd : bool) (s : string) : string :=
  match s with
  | EmptyString => EmptyString
  | String a s1 =>
      if is_space a then strip fwd s1
      else
        match s1 with
        | EmptyString => s
        | String b s2 =>
            if (if fwd then is_space2 a b else is_space2 b a) then strip fwd s2
            else
              match s2 with
              | EmptyString => s
              | String c s3 =>
                  if (if fwd then is_space3 a b c else is_space3 c b a)
                  then strip fwd s3
                  else s
              end
        end
  end.

Definition string_rev (s : string) : string :=
  string_of_list_ascii (rev (list_ascii_of_string s)).

Definition trim_start (s : string) : string := strip true s.

Definition trim_end (s : string) : string :=
  string_rev (strip false (string_rev s)).

(** [s.trim()]. *)
Definition trim (s : string) : string := trim_end (trim_start s).

(** JavaScript truthiness of a [string | undefined]. *)
Definition truthy (o : option string) : bool :=
  match o with
  | Some s => negb (s =? "")%string
  | None => false
  end.

(** ** Paths

    A path of the file system is the list of its segments below the root;
    [show] prints it.  [join] is [path.join]: the second argument is split
    at the separators and [.], [..] and empty segments are resolved. *)

Definition path := list string.

Definition show (p : path) : string := "/" +++ String.concat "/" p.

Fixpoint resolve (acc : list string) (l : list string) : path :=
  match l with
  | [] => rev acc
  | s :: l' =>
      if (s =? "")%string then resolve acc l'
      else if (s =? ".")%string then resolve acc l'
      else if (s =? "..")%string then resolve (tl acc) l'
      else resolve (s :: acc) l'
  end.

Definition join (p : path) (s : string) : path :=
  resolve (rev p) (split_on "/" s).

Definition basename (p : path) : string := last p "".

Definition dirname (p : path) : path := removelast p.

(** [path.basename] applied to a plain string: the last non-empty
    segment, nothing resolved. *)
Definition str_basename (s : string) : string :=
  last (filter (fun x => negb (x =? "")%string) (split_on "/" s)) "".

(** The template string [`${p}${sfx}`] for a path [p]: the suffix lands on
    the last segment. *)
Definition path_suffix (p : path) (sfx : string) : path :=
  match p with
  | [] => [sfx]
  | _ => removelast p ++ [last p "" +++ sfx]
  end.

(** ** The file system

    A tree of directories.  Directory entries are kept in the order
    they were created; [readdir] reports their names sorted.  Symbolic
    links are leaves: of the calls modelled only [stat] resolves their
    target.  A modification
    time changes only through an explicit write or [utimes]. *)

Inductive node : Type :=
| File (data : string) (mtime : Z)
| Dir (entries : list (string * node)) (mtime : Z)
| Symlink (target : string) (mtime : Z).

Definition node_mtime (n : node) : Z :=
  match n with
  | File _ t | Dir _ t | Symlink _ t => t
  end.

Definition set_mtime (t : Z) (n : node) : node :=
  match n with
  | File d _ => File d t
  | Dir es _ => Dir es t
  | Symlink l _ => Symlink l t
  end.

Definition is_dir (o : option node) : bool :=
  match o with Some (Dir _ _) => true | _ => false end.

Fixpoint child (c : string) (es : list (string * node)) : option node :=
  match es with
  | [] => None
  | (k, v) :: es' => if (k =? c)%string then Some v else child c es'
  end.

Fixpoint put_child (c : string) (n : node) (es : list (string * node))
  : list (string * node) :=
  match es with
  | [] => [(c, n)]
  | (k, v) :: es' =>
      if (k =? c)%string then (c, n) :: es' else (k, v) :: put_child c n es'
  end.

Definition remove_child (c : string) (es : list (string * node))
  : list (string * node) :=
  filter (fun kv => negb (fst kv =? c)%string) es.

Definition set_child (c : string) (v : option node) (es : list (string * node))
  : list (string * node) :=
  match v with
  | Some n => put_child c n es
  | None => remove_child c es
  end.

Fixpoint get (p : path) (o : option node) : option node :=
  match p with
  | [] => o
  | c :: p' =>
      match o with
      | Some (Dir es _) => get p' (child c es)
      | _ => None
      end
  end.

(** [alter f p] rewrites what sits at [p] (nothing, or a node) by [f];
    it changes nothing when the parent of [p] is not a directory. *)
Fixpoint alter (f : option node -> option node) (p : path) (o : option node)
  : option node :=
  match p with
  | [] => f o
  | c :: p' =>
      match o with
      | Some (Dir es t) => Some (Dir (set_child c (alter f p' (child c es)) es) t)
      | _ => o
      end
  end.

Definition lookup (p : path) (root : node) : option node := get p (Some root).

Definition update (f : option node -> option node) (p : path) (root : node)
  : node :=
  match alter f p (Some root) with
  | Some r => r
  | None => root
  end.

Definition remove (p : path) (root : node) : node :=
  update (fun _ => None) p root.

Definition place (p : path) (n : node) (root : node) : node :=
  update (fun _ => Some n) p root.

(** A chain of fresh directories [c1/c2/...], as [mkdir -p] creates it. *)
Fixpoint mkdirs (t : Z) (p : path) : node :=
  Dir (match p with [] => [] | c :: p' => [(c, mkdirs t p')] end) t.

(** [mkdir -p]: [inl code] when a segment on the way is not a directory. *)
Fixpoint mkdirp (t : Z) (p : path) (n : node) : string + node :=
  match n with
  | Dir es m =>
      match p with
      | [] => inr n
      | c :: p' =>
          match child c es with
          | Some k =>
              match mkdirp t p' k with
              | inr k' => inr (Dir (put_child c k' es) m)
              | inl e => inl e
              end
          | None => inr (Dir (put_child c (mkdirs t p') es) m)
          end
      end
  | _ => inl (match p with [] => "EEXIST" | _ => "ENOTDIR" end)
  end.

(** ** Errors, events, world *)

(** What a promise that does not fulfil ends with: an error of
    JavaScript or of a system call, with which it is rejected; or
    [Pending], which is no error at all: the promise never settles, the
    code behind its [await] never runs, and no [catch] sees anything. *)
Inductive Error : Type :=
| JsError (message : string)
| SysError (code : string) (syscall : string) (target : path)
| Pending.

Inductive result (A : Type) : Type :=
| Ok (a : A)
| Err (e : Error).
Arguments Ok {A} a.
Arguments Err {A} e.

(** The header of a tar entry, as tar-stream hands it to [ignore]. *)
Record Headers : Type := mkHeaders {
  name : string;
  type : string;
  linkname : string
}.

(** What the piped stream delivers to the tar extractor: the entries of
    the archive in order, or an error event that ends the stream. *)
Inductive Chunk : Type :=
| Entry (h : Headers) (body : string)
| Broken (e : Error).

(** The fields of the oclif [Config] the updater reads. *)
Module Config.
Record t : Type := mk {
  name : string;
  version : string;
  bin : string;
  windows : bool;
  dataDir : path;
  cacheDir : path;
  binPath : option string;
  npmRegistry : option string;
  pjson_name : string;
  scopedEnvVar : string -> option string;
  scopedEnvVarKey : string -> string
}.
End Config.

(** The external collaborators: what the network answers, how the hooks
    of the host end, what [Config.load] finds below a root, how the
    runtime prints a date, and the time zone of the host: [tza t true] is
    the offset of local time from UTC, in milliseconds, at the instant
    [t], and [tza t false] the offset in force at the local time [t]. *)
Record Env : Type := mkEnv {
  releases : result (list string);
  latest : result string;
  dist_tags : string -> result (list (string * string));
  download : result (list Chunk);
  hook_outcome : string -> string -> string -> option Error;
  load : path -> node -> result Config.t;
  toISOString : Z -> string;
  tza : Z -> bool -> Z
}.

Inductive FsOp : Type :=
| OpMkdir (p : path)
| OpWriteFile (p : path) (data : string)
| OpRm (p : path)
| OpRename (src dst : path)
| OpCp (src dst : path)
| OpUtimes (p : path) (t : Z)
| OpSymlink (target : string) (p : path)
| OpUnlink (p : path)
| OpLink (src p : path).

Inductive Event : Type :=
| EDebug (msg : string)
| EDebugError (e : Error)
| EWarning (e : Error)
| EUxLog (msg : string)
| EUxDebug (args : list string)
| EUxWarn (e : Error)
| EUxWarnMsg (msg : string)
| EActionStart (msg : string)
| EActionStop (msg : option string)
| EConsoleLog (args : list string)
| EHttpGet (url : string)
| EHttpStream (url : string)
| EHook (name channel version : string)
| EConfigLoad (root : path)
| EWait (ms : Z)
| EFs (op : FsOp).

(** [log] holds the trace with the most recent event first. *)
Record World : Type := mkWorld {
  fs : node;
  clock : Z;
  rand : nat -> string;
  rand_ix : nat;
  debug_files : bool;
  env : Env;
  log : list Event
}.

Definition with_fs (r : node) (w : World) : World :=
  mkWorld r (clock w) (rand w) (rand_ix w) (debug_files w) (env w) (log w).

Definition with_clock (t : Z) (w : World) : World :=
  mkWorld (fs w) t (rand w) (rand_ix w) (debug_files w) (env w) (log w).

Definition with_rand_ix (i : nat) (w : World) : World :=
  mkWorld (fs w) (clock w) (rand w) i (debug_files w) (env w) (log w).

Definition with_log (l : list Event) (w : World) : World :=
  mkWorld (fs w) (clock w) (rand w) (rand_ix w) (debug_files w) (env w) l.

(** ** The monad of asynchronous steps *)

Definition M (A : Type) : Type := World -> result A * World.

Definition ret {A} (a : A) : M A := fun w => (Ok a, w).

Definition bind {A B} (m : M A) (k : A -> M B) : M B :=
  fun w =>
    match m w with
    | (Ok a, w') => k a w'
    | (Err e, w') => (Err e, w')
    end.

Definition throw {A} (e : Error) : M A := fun w => (Err e, w).

(** [try { m } catch (error) { h error }]. *)
Definition try_catch {A} (m : M A) (h : Error -> M A) : M A :=
  fun w =>
    match m w with
    | (Ok a, w') => (Ok a, w')
    | (Err Pending, w') => (Err Pending, w')
    | (Err e, w') => h e w'
    end.

Declare Scope monad_scope.
Delimit Scope monad_scope with monad.
Notation "x <- m ;; k" := (bind m (fun x => k))
  (at level 100, m at next level, right associativity) : monad_scope.
Notation "m ;; k" := (bind m (fun _ => k))
  (at level 100, right associativity) : monad_scope.
Local Open Scope monad_scope.

Definition emit (e : Event) : M unit :=
  fun w => (Ok tt, with_log (e :: log w) w).

Definition now : M Z := fun w => (Ok (clock w), w).

(** The environment of the running process. *)
Definition host : M Env := fun w => (Ok (env w), w).

(** ** Dates

    A [Date] is its time value, the milliseconds since the epoch.
    [LocalTZA] is the abstract operation of that name in ECMAScript; the
    offset of a time zone stays within a day.  [addHours e n t] is
    [d.setHours(d.getHours() + n)] on a date [d] of time value [t]: the
    date is taken to local time, moved by [n] hours on the wall clock,
    and taken back to UTC with the offset in force at the local time it
    lands on. *)
Definition hour : Z := 3600000.

Definition LocalTZA (e : Env) (t : Z) (isUTC : bool) : Z :=
  Z.max (- (24 * hour)) (Z.min (24 * hour) (tza e t isUTC)).

Definition addHours (e : Env) (n : Z) (t : Z) : Z :=
  let local := t + LocalTZA e t true + n * hour in
  local - LocalTZA e local false.

(** [promise.catch(h)] on a promise of no value. *)
Definition catch_with (h : Error -> Event) (m : M unit) : M unit :=
  try_catch m (fun e => emit (h e)).

(** ** File-system calls of [node:fs] *)

Definition existsSync (p : path) : M bool :=
  fun w => (Ok (match lookup p (fs w) with Some _ => true | None => false end), w).

Definition fs_step (op : FsOp) (f : node -> Z -> result node) : M unit :=
  fun w =>
    let w1 := with_log (EFs op :: log w) w in
    match f (fs w) (clock w) with
    | Ok r => (Ok tt, with_fs r w1)
    | Err e => (Err e, w1)
    end.

(** [rm(p, {force: true, recursive: true})]. *)
Definition rm (p : path) : M unit :=
  fs_step (OpRm p) (fun r _ => Ok (remove p r)).

(** [mkdir(p, {recursive: true})]. *)
Definition mkdir (p : path) : M unit :=
  fs_step (OpMkdir p) (fun r t =>
    match mkdirp t p r with
    | inr r' => Ok r'
    | inl code => Err (SysError code "mkdir" p)
    end).

(** [writeFile(p, data)]. *)
Definition writeFile (p : path) (data : string) : M unit :=
  fs_step (OpWriteFile p data) (fun r t =>
    match p with
    | [] => Err (SysError "EISDIR" "open" p)
    | _ =>
        match lookup (dirname p) r with
        | Some (Dir _ _) =>
            match lookup p r with
            | Some (Dir _ _) => Err (SysError "EISDIR" "open" p)
            | _ => Ok (place p (File data t) r)
            end
        | Some _ => Err (SysError "ENOTDIR" "open" p)
        | None => Err (SysError "ENOENT" "open" p)
        end
    end).

(** [readFile(p, 'utf8')]. *)
Definition readFile (p : path) : M string :=
  fun w =>
    match lookup p (fs w) with
    | Some (File d _) => (Ok d, w)
    | Some (Dir _ _) => (Err (SysError "EISDIR" "read" p), w)
    | _ => (Err (SysError "ENOENT" "open" p), w)
    end.

(** The names of a directory scan come back sorted: libuv, below
    [readdir], orders them with [strcmp], byte by byte. *)
Fixpoint insert_name (x : string) (l : list string) : list string :=
  match l with
  | [] => [x]
  | y :: l' => if String.leb x y then x :: l else y :: insert_name x l'
  end.

Definition sort_names (l : list string) : list string :=
  fold_right insert_name [] l.

Definition listing (es : list (string * node)) : list string :=
  sort_names (map fst es).

(** [readdir(p)]. *)
Definition readdir (p : path) : M (list string) :=
  fun w =>
    match lookup p (fs w) with
    | Some (Dir es _) => (Ok (listing es), w)
    | Some _ => (Err (SysError "ENOTDIR" "scandir" p), w)
    | None => (Err (SysError "ENOENT" "scandir" p), w)
    end.

(** What a path leads to once symbolic links are followed, a relative
    target being read from the directory of the link; nothing when the
    chain breaks or is longer than [fuel]. *)
Fixpoint follow (fuel : nat) (p : path) (r : node) : option node :=
  match lookup p r with
  | Some (Symlink target _) =>
      match fuel with
      | O => None
      | S k =>
          follow k (if String.prefix "/" target then join [] target
                    else join (dirname p) target) r
      end
  | o => o
  end.

Definition stat_at (p : path) (r : node) : option Z :=
  option_map node_mtime (follow 40 p r).

(** [stat(p)], of which the code reads [mtime] only. *)
Definition stat (p : path) : M Z :=
  fun w =>
    match stat_at p (fs w) with
    | Some t => (Ok t, w)
    | None => (Err (SysError "ENOENT" "stat" p), w)
    end.

(** [utimes(p, t, t)]. *)
Definition utimes (p : path) (t : Z) : M unit :=
  fs_step (OpUtimes p t) (fun r _ =>
    match lookup p r with
    | Some _ => Ok (update (option_map (set_mtime t)) p r)
    | None => Err (SysError "ENOENT" "utime" p)
    end).

(** [symlink(target, p)]. *)
Definition symlink (target : string) (p : path) : M unit :=
  fs_step (OpSymlink target p) (fun r t =>
    match lookup p r with
    | Some _ => Err (SysError "EEXIST" "symlink" p)
    | None =>
        match p, lookup (dirname p) r with
        | _ :: _, Some (Dir _ _) => Ok (place p (Symlink target t) r)
        | _, _ => Err (SysError "ENOENT" "symlink" p)
        end
    end).

(** [unlink(p)]. *)
Definition unlink (p : path) : M unit :=
  fs_step (OpUnlink p) (fun r _ =>
    match lookup p r with
    | Some (Dir _ _) => Err (SysError "EISDIR" "unlink" p)
    | Some _ => Ok (remove p r)
    | None => Err (SysError "ENOENT" "unlink" p)
    end).

(** [link(src, p)]: a second name for the file [src].  The model keeps
    the data of a file with each of its names. *)
Definition link (src p : path) : M unit :=
  fs_step (OpLink src p) (fun r _ =>
    match lookup src r with
    | Some (File d t) =>
        match lookup p r with
        | Some _ => Err (SysError "EEXIST" "link" p)
        | None =>
            match p, lookup (dirname p) r with
            | _ :: _, Some (Dir _ _) => Ok (place p (File d t) r)
            | _, _ => Err (SysError "ENOENT" "link" p)
            end
        end
    | Some _ => Err (SysError "EPERM" "link" src)
    | None => Err (SysError "ENOENT" "link" src)
    end).

Fixpoint is_prefix (p q : path) : bool :=
  match p, q with
  | [], _ => true
  | c :: p', d :: q' => (c =? d)%string && is_prefix p' q'
  | _ :: _, [] => false
  end.

(** [rename(src, dst)], after rename(2): the source must exist, a
    directory replaces only an empty directory, a non-directory never
    replaces a directory, and nothing moves below itself. *)
Definition rename_fs (src dst : path) (r : node) : result node :=
  match lookup src r with
  | None => Err (SysError "ENOENT" "rename" src)
  | Some n =>
      if is_prefix src dst then
        if is_prefix dst src then Ok r
        else Err (SysError "EINVAL" "rename" src)
      else
        match dst, lookup (dirname dst) r with
        | [], _ => Err (SysError "EBUSY" "rename" src)
        | _, Some (Dir _ _) =>
            match n, lookup dst r with
            | Dir _ _, Some (Dir (_ :: _) _) =>
                Err (SysError "ENOTEMPTY" "rename" src)
            | Dir _ _, Some (Dir [] _) => Ok (place dst n (remove src r))
            | Dir _ _, Some _ => Err (SysError "ENOTDIR" "rename" src)
            | _, Some (Dir _ _) => Err (SysError "EISDIR" "rename" src)
            | _, _ => Ok (place dst n (remove src r))
            end
        | _, Some _ => Err (SysError "ENOTDIR" "rename" src)
        | _, None => Err (SysError "ENOENT" "rename" src)
        end
  end.

Definition rename (src dst : path) : M unit :=
  fs_step (OpRename src dst) (fun r _ => rename_fs src dst r).

(** [cp(src, dst)] without [recursive]: a directory is refused, anything
    else is copied over [dst] unless [dst] is a directory. *)
Definition cp (src dst : path) : M unit :=
  fs_step (OpCp src dst) (fun r t =>
    match lookup src r with
    | None => Err (SysError "ENOENT" "cp" src)
    | Some (Dir _ _) => Err (SysError "ERR_FS_EISDIR" "cp" src)
    | Some n =>
        match lookup dst r with
        | Some (Dir _ _) => Err (SysError "ERR_FS_CP_NON_DIR_TO_DIR" "cp" dst)
        | _ =>
            match mkdirp t (dirname dst) r with
            | inr r' => Ok (place dst (set_mtime t n) r')
            | inl code => Err (SysError code "mkdir" (dirname dst))
            end
        end
    end).

(** ** src/tar.ts *)

Definition debug (msg : string) : M unit := emit (EDebug msg).

Definition ignore (_name : string) (header : option Headers) : M bool :=
  match header with
  | Some h =>
      if ((type h =? "directory") || (type h =? "file"))%string then
        (fun w => if debug_files w then debug (name h) w else (Ok tt, w)) ;;
        ret false
      else if (type h =? "symlink")%string then ret true
      else throw (JsError (type h))
  | None => throw (JsError "")
  end.

Definition path_eqb (p q : path) : bool := is_prefix p q && is_prefix q p.

(** An exception thrown by a listener of the tar stream is caught by
    nobody: the stream stops short of [finish] without an [error]
    event, and the promise that waits for one of the two never
    settles. *)
Definition in_listener {A} (m : M A) : M A :=
  fun w =>
    match m w with
    | (Ok a, w') => (Ok a, w')
    | (Err _, w') => (Err Pending, w')
    end.

(** What tar-fs does with an entry that is not ignored, at [cwd] joined
    with the name of the entry resolved below the root: a directory is
    created with its parents; for anything else the parent directory is
    created first, and then a file is written, a hard link or a symbolic
    link is made in place of what may sit there, and any other type is
    refused.  An error here is handed to the stream, which emits it as
    its [error] event. *)
Definition onentry (cwd : path) (h : Headers) (body : string) : M unit :=
  let dst := cwd ++ join [] (name h) in
  if (type h =? "directory")%string then mkdir dst
  else
    mkdir (if path_eqb dst cwd then cwd else dirname dst) ;;
    if (type h =? "file")%string then writeFile dst body
    else if (type h =? "link")%string then
      try_catch (unlink dst) (fun _ => ret tt) ;;
      link (cwd ++ join [] (linkname h)) dst
    else if (type h =? "symlink")%string then
      try_catch (unlink dst) (fun _ => ret tt) ;;
      symlink (linkname h) dst
    else
      throw (JsError ("unsupported type for " +++ show dst
                      +++ " (" +++ type h +++ ")")).

(** [tarExtract(cwd, {ignore})] of tar-fs with the stream piped into
    it, as the promise of [extract] sees it: fulfilled by [finish] once
    the last entry is done, rejected by an [error] event of the
    extractor.  [ignore] runs inside the listener of the entries.  An
    error of the source stream is not passed on by [pipe]: the extractor
    is left waiting, and so is the promise. *)
Fixpoint tarExtract (cwd : path) (ign : string -> option Headers -> M bool)
  (s : list Chunk) : M unit :=
  match s with
  | [] => ret tt
  | Broken _ :: _ => throw Pending
  | Entry h body :: rest =>
      let dst := cwd ++ join [] (name h) in
      skip <- in_listener (ign (show dst) (Some h)) ;;
      (if skip then ret tt else onentry cwd h body) ;;
      tarExtract cwd ign rest
  end.

(** [Math.random().toString().split('.')[1].slice(0, 5)]: the next draw of
    the random source, already cut to its leading decimals. *)
Definition random_digits : M string :=
  fun w => (Ok (rand w (rand_ix w)), with_rand_ix (S (rand_ix w)) w).

Definition getTmp (output : path) : M path :=
  r <- random_digits ;;
  ret (path_suffix output (".partial." +++ r)).

(** Modelled from the spec: util.js is not part of the sources at hand.
    [touch] refreshes the modification time of its argument, [wait]
    suspends for the given number of milliseconds, and [ls] lists a
    directory with the path and the modification time of each entry. *)
Module Util.
Definition touch (p : path) : M unit :=
  t <- now ;;
  utimes p t.

Definition wait (ms : Z) : M unit :=
  fun w => (Ok tt, with_clock (clock w + ms) (with_log (EWait ms :: log w) w)).

Fixpoint stats (dir : path) (names : list string) : M (list (path * Z)) :=
  match names with
  | [] => ret []
  | f :: rest =>
      let p := join dir f in
      t <- stat p ;;
      l <- stats dir rest ;;
      ret ((p, t) :: l)
  end.

Definition ls (dir : path) : M (list (path * Z)) :=
  names <- readdir dir ;;
  stats dir names.
End Util.

(** The staging directory [extract] settles on: one draw, and a second
    one when the first name is taken. *)
Definition pick_tmp (output : path) : M path :=
  tmp <- getTmp output ;;
  taken <- existsSync tmp ;;
  if taken then getTmp output else ret tmp.

(** The inner [try] of [extract], run when [output] exists.  Its [tmp]
    is declared inside the [try] block: the [tmp] of the [catch] block is
    the one of the enclosing function, the staging directory. *)
Definition backup (output tmp : path) : M unit :=
  try_catch
    (tmp' <- getTmp output ;;
     cp output tmp' ;;
     catch_with EDebugError (rm tmp'))
    (fun error =>
       emit (EDebugError error) ;;
       catch_with EDebugError (rm tmp)).

(** The body of the outer [try] of [extract]. *)
Definition commit (stream : list Chunk) (basename : string) (output tmp : path)
  : M unit :=
  tarExtract tmp ignore stream ;;
  present <- existsSync output ;;
  (if present then backup output tmp else ret tt) ;;
  let from := join tmp basename in
  debug ("moving " +++ show from +++ " to " +++ show output) ;;
  rename from output ;;
  catch_with EDebugError (rm tmp) ;;
  Util.touch output ;;
  debug "done extracting".

(** The staging directory of a call and the world at the moment the
    outer [try] is entered. *)
Definition staging (output : path) (w : World) : path * World :=
  match pick_tmp output w with
  | (Ok tmp, w1) =>
      (tmp, with_log (EDebug ("extracting to " +++ show tmp) :: log w1) w1)
  | (Err _, w1) => ([], w1)
  end.

Definition extract (stream : list Chunk) (basename : string) (output : path)
  : M unit :=
  tmp <- pick_tmp output ;;
  debug ("extracting to " +++ show tmp) ;;
  try_catch
    (commit stream basename output tmp)
    (fun error =>
       catch_with EWarning (rm tmp) ;;
       throw error).

(** ** The updater: terminal, network and host *)

Definition ux_log (msg : string) : M unit := emit (EUxLog msg).
Definition ux_debug (args : list string) : M unit := emit (EUxDebug args).
Definition ux_warn (e : Error) : M unit := emit (EUxWarn e).
Definition ux_warn_msg (msg : string) : M unit := emit (EUxWarnMsg msg).
Definition ux_action_start (msg : string) : M unit := emit (EActionStart msg).
Definition ux_action_stop (msg : option string) : M unit := emit (EActionStop msg).

(** A request over the network: the call is traced, the answer is the one
    the environment holds. *)
Definition request {A} (ev : Event) (answer : Env -> result A) : M A :=
  fun w =>
    let w1 := with_log (ev :: log w) w in
    (answer (env w1), w1).

Definition runHook (hook channel version : string) : M unit :=
  fun w =>
    let w1 := with_log (EHook hook channel version :: log w) w in
    match hook_outcome (env w1) hook channel version with
    | Some e => (Err e, w1)
    | None => (Ok tt, w1)
    end.

(** [Config.load({root})]. *)
Definition Config_load (root : path) : M Config.t :=
  fun w =>
    let w1 := with_log (EConfigLoad root :: log w) w in
    (load (env w1) root (fs w1), w1).

(** [chalk.green] and [chalk.yellow], colours off. *)
Definition chalk (s : string) : string := s.

(** A JavaScript object with string values, used as a dictionary: its
    own properties in the order [Object.keys] lists them, which is the
    array indices in ascending order and then the other keys in the
    order of their creation. *)
Definition Dict := list (string * string).

(** The own property [k]. *)
Fixpoint dict_get (k : string) (d : Dict) : option string :=
  match d with
  | [] => None
  | (k', v) :: d' => if (k' =? k)%string then Some v else dict_get k d'
  end.

Definition dict_keys (d : Dict) : list string := map fst d.

Definition digit (c : ascii) : option N :=
  let n := N_of_ascii c in
  if ((48 <=? n) && (n <=? 57))%N then Some (n - 48)%N else None.

Fixpoint digits_value (acc : N) (s : string) : option N :=
  match s with
  | EmptyString => Some acc
  | String c s' =>
      match digit c with
      | Some d => digits_value (10 * acc + d) s'
      | None => None
      end
  end.

(** The array index a property key stands for: a decimal numeral
    without leading zero whose value is below 2^32 - 1. *)
Definition array_index (k : string) : option N :=
  if (k =? "")%string then None
  else if (k =? "0")%string then Some 0%N
  else if String.prefix "0" k then None
  else match digits_value 0 k with
       | Some n => if (n <? 4294967295)%N then Some n else None
       | None => None
       end.

(** Whether a new key [k] is listed before the present key [k']. *)
Definition key_before (k k' : string) : bool :=
  match array_index k, array_index k' with
  | Some i, Some j => (i <? j)%N
  | Some _, None => true
  | None, _ => false
  end.

Fixpoint dict_replace (k v : string) (d : Dict) : Dict :=
  match d with
  | [] => []
  | (k', v') :: d' =>
      if (k' =? k)%string then (k, v) :: d' else (k', v') :: dict_replace k v d'
  end.

Fixpoint dict_insert (k v : string) (d : Dict) : Dict :=
  match d with
  | [] => [(k, v)]
  | (k', v') :: d' =>
      if key_before k k' then (k, v) :: d else (k', v') :: dict_insert k v d'
  end.

(** The assignment [d[k] = v] of a string on an object created by [{}]:
    a present property is overwritten in place, a new one takes its
    place in the order of the keys; and the key [__proto__] names the
    accessor of [Object.prototype], whose setter leaves the object as it
    is when handed a string. *)
Definition dict_set (k v : string) (d : Dict) : Dict :=
  if (k =? "__proto__")%string then d
  else match dict_get k d with
       | Some _ => dict_replace k v d
       | None => dict_insert k v d
       end.

(** What every object created by [{}] inherits from [Object.prototype]:
    its methods, and the accessor [__proto__]. *)
Definition object_prototype : list string :=
  ["constructor"; "__defineGetter__"; "__defineSetter__"; "hasOwnProperty";
   "__lookupGetter__"; "__lookupSetter__"; "isPrototypeOf";
   "propertyIsEnumerable"; "toString"; "valueOf"; "__proto__";
   "toLocaleString"].

(** The value of a property read [d[k]]: a string of the object's own,
    or else the function or object inherited under that name. *)
Inductive JsValue : Type :=
| JsString (s : string)
| JsInherited.

Definition prop_get (k : string) (d : Dict) : option JsValue :=
  match dict_get k d with
  | Some v => Some (JsString v)
  | None => if includes object_prototype k then Some JsInherited else None
  end.

(** JavaScript truthiness of what a property read gives. *)
Definition js_truthy (o : option JsValue) : bool :=
  match o with
  | Some (JsString s) => negb (s =? "")%string
  | Some JsInherited => true
  | None => false
  end.

Definition opt_eqb (a b : option string) : bool :=
  match a, b with
  | Some x, Some y => (x =? y)%string
  | None, None => true
  | _, _ => false
  end.

Definition error_code (e : Error) : option string :=
  match e with
  | SysError code _ _ => Some code
  | _ => None
  end.

(** [Promise.all] over promises of no value: all of them run, the first
    rejection is the one reported, and the whole stays pending when one
    of them does and none is rejected. *)
Fixpoint promise_all (ms : list (M unit)) : M unit :=
  match ms with
  | [] => ret tt
  | m :: rest =>
      fun w =>
        match m w with
        | (Ok _, w1) => promise_all rest w1
        | (Err e, w1) =>
            let (r, w2) := promise_all rest w1 in
            (Err (match e, r with
                  | Pending, Err e' => e'
                  | _, _ => e
                  end), w2)
        end
  end.

(** Runs [m] and hands its outcome over as a value. *)
Definition settle {A} (m : M A) : M (result A) :=
  fun w => let (r, w1) := m w in (Ok r, w1).

Definition unsettle {A} (r : result A) : M A :=
  match r with
  | Ok a => ret a
  | Err e => throw e
  end.

(** ** The updater: module-level functions *)

Definition alreadyOnVersion (current : string) (updated : option string) : bool :=
  match updated with
  | Some u => (current =? u)%string
  | None => false
  end.

Definition ensureClientDir (clientRoot : path) : M unit :=
  try_catch
    (mkdir clientRoot)
    (fun error =>
       if opt_eqb (error_code error) (Some "EEXIST") then
         rm clientRoot ;;
         mkdir clientRoot
       else throw error).

Definition mtime (f : path) : M Z := stat f.

Definition notUpdatable (config : Config.t) : M bool :=
  if negb (truthy (Config.binPath config)) then
    let instructions := Config.scopedEnvVar config "UPDATE_INSTRUCTIONS" in
    (match instructions with
     | Some i => if truthy instructions then ux_warn_msg i ;; ux_log "" else ret tt
     | None => ret tt
     end) ;;
    ret true
  else ret false.

(** How many one-minute waits separate the world from the instant the
    gate compares the clock with: the modification time of the marker,
    moved one hour ahead on the local wall clock. *)
Definition waits_left (lastrunfile : path) (w : World) : nat :=
  match stat_at lastrunfile (fs w) with
  | Some m => Z.to_nat ((addHours (env w) 1 m - clock w + 59999) / 60000)
  | None => O
  end.

(** When autoupdating, wait until the CLI is not active.  The flag
    [output] of the source is local to each call and false when it is
    read, so every round reports through [ux.log].  The gate waits in a
    world where nobody else rewrites the marker meanwhile, so each round
    brings the instant one minute closer. *)
Equations? debounce (cacheDir : path) (w : World) : result unit * World
  by wf (waits_left (join cacheDir "lastrun") w) lt :=
  debounce cacheDir w with inspect (mtime (join cacheDir "lastrun") w) := {
    | exist _ (Err e, w1) _ => (Err e, w1)
    | exist _ (Ok m0, w1) Hm with inspect (addHours (env w1) 1 m0 >? clock w1) := {
        | exist _ true Hgt =>
            let msg := "waiting until "
                       +++ toISOString (env w1) (addHours (env w1) 1 m0)
                       +++ " to update" in
            debounce cacheDir
              (snd (Util.wait (60 * 1000) (snd (ux_log msg w1))))
        | exist _ false _ => ux_log "time to update" w1 } }.
Proof.
  unfold mtime, stat in Hm.
  destruct (stat_at (join cacheDir "lastrun") (fs w)) as [m|] eqn:Hl;
    [|discriminate].
  injection Hm as <- <-. apply Z.gtb_lt in Hgt.
  unfold waits_left, Util.wait, ux_log, emit.
  cbn [snd fs clock env with_clock with_log]. rewrite Hl.
  set (u := addHours (env w) 1 m) in *.
  apply Z2Nat.inj_lt; [apply Z.div_pos; lia | apply Z.div_pos; lia |].
  match goal with
  | |- ?A / _ < ?B / _ => replace B with (A + 1 * 60000) by lia
  end.
  rewrite Z.div_add by lia. lia.
Qed.

Definition setChannel (channel : string) (dataDir : path) : M unit :=
  writeFile (join dataDir "channel") channel.

(** The status line of the spinner, which [downloadAndExtract] refreshes
    while data arrives, is terminal decoration and is left out. *)
Definition downloadAndExtract (output : path) (baseDir channel : string)
  (config : Config.t) : M unit :=
  emit (EConsoleLog ["downlaoding......"; show output; baseDir; channel;
                     Config.version config]) ;;
  try_catch
    (stream <- request (EHttpStream "https://www.dwsamplefiles.com/?dl_id=553")
                       download ;;
     extract stream baseDir output)
    (fun _ => throw (JsError "unabel to extract")).

(** [`${config.npmRegistry ?? 'https://registry.npmjs.org'}/${config.pjson.name}`]. *)
Definition registry_url (config : Config.t) : string :=
  match Config.npmRegistry config with
  | Some r => r
  | None => "https://registry.npmjs.org"
  end +++ "/" +++ Config.pjson_name config.

Definition determineChannel (config : Config.t) (version : option string)
  : M string :=
  let channelPath := join (Config.dataDir config) "channel" in
  present <- existsSync channelPath ;;
  channel <- (if present
              then s <- readFile channelPath ;; ret (trim s)
              else ret "stable") ;;
  try_catch
    (tags <- request (EHttpGet (registry_url config))
                     (fun e => dist_tags e (registry_url config)) ;;
     let tag :=
       match find (fun v => opt_eqb (dict_get v tags) version) (dict_keys tags) with
       | Some t => t
       | None => channel
       end in
     if (tag =? "latest")%string then ret "stable"
     else if (tag =? "latest-rc")%string then ret "stable-rc"
     else ret tag)
    (fun _ => ret channel).

(** The regular expression [/\.\.[/\\|](.+)[/\\|]bin/]. *)
Definition is_sep (c : ascii) : bool :=
  (Ascii.eqb c "/" || Ascii.eqb c "\" || Ascii.eqb c "|")%char.

(** The line terminators, which [.] does not match: LF and CR, and
    U+2028 and U+2029, three bytes each. *)
Definition is_line_end (c : ascii) : bool :=
  let n := nat_of_ascii c in ((n =? 10) || (n =? 13))%nat.

Definition line_end_at (s : string) : bool :=
  match s with
  | EmptyString => false
  | String c s' =>
      is_line_end c
      || match s' with
         | String b (String a _) =>
             ((nat_of_ascii c =? 226) && (nat_of_ascii b =? 128)
              && ((nat_of_ascii a =? 168) || (nat_of_ascii a =? 169)))%nat
         | _ => false
         end
  end.

Definition sep_bin (s : string) : bool :=
  match s with
  | String c s' => is_sep c && String.prefix "bin" s'
  | EmptyString => false
  end.

(** The greedy group [(.+)] followed by a separator and [bin]: the
    longest run on the line that such a tail follows. *)
Fixpoint capture (s : string) : option string :=
  match s with
  | EmptyString => None
  | String c s' =>
      if line_end_at s then None
      else match capture s' with
           | Some m => Some (String c m)
           | None => if sep_bin s' then Some (String c EmptyString) else None
           end
  end.

Definition capture_here (s : string) : option string :=
  match s with
  | String "." (String "." (String c s')) =>
      if is_sep c then capture s' else None
  | _ => None
  end.

(** [s.match(re)], reduced to the first group of the leftmost match. *)
Fixpoint match_version (s : string) : option string :=
  match capture_here s with
  | Some m => Some m
  | None =>
      match s with
      | String _ s' => match_version s'
      | EmptyString => None
      end
  end.

Definition determineCurrentVersion (clientBin : path) (version : string)
  : M string :=
  try_catch
    (currentVersion <- readFile clientBin ;;
     ret (match match_version currentVersion with
          | Some m => m
          | None => version
          end))
    (fun error => ux_warn error ;; ret version).

(** ** The updater: the class *)

Module Options.
Record t : Type := mk {
  autoUpdate : bool;
  channel : option string;
  force : option bool;
  version : option string
}.
End Options.

Module Updater.
Record t : Type := mk {
  config : Config.t;
  clientRoot : path;
  clientBin : path
}.

(** The constructor. *)
Definition new (config : Config.t) : t :=
  let clientRoot :=
    match Config.scopedEnvVar config "OCLIF_CLIENT_HOME" with
    | Some home => join [] home
    | None => join (Config.dataDir config) "client"
    end in
  mk config clientRoot
     (join (join clientRoot "bin")
           (if Config.windows config then Config.bin config +++ ".cmd"
            else Config.bin config)).

Definition with_config (c : Config.t) (this : t) : t :=
  mk c (clientRoot this) (clientBin this).

(** The [reduce] of [fetchVersionIndex] over the tag names of the
    releases. *)
Definition index_of (body : list string) : Dict :=
  fold_left
    (fun acc version =>
       if str_includes version "@xata.io/cli@" then
         dict_set (remove_first version "@xata.io/cli@")
                  "LINK_TO_DOWNLOAD_BINARY" acc
       else acc)
    body [].

Definition fetchVersionIndex (this : t) : M Dict :=
  try_catch
    (body <- request
               (EHttpGet "https://api.github.com/repos/xataio/client-ts/releases")
               releases ;;
     ret (index_of body))
    (fun _ =>
       throw (JsError ("No version indices exist for "
                       +++ Config.name (config this) +++ "."))).

Definition findLocalVersions (this : t) : M (list path) :=
  ensureClientDir (clientRoot this) ;;
  dirOrFiles <- readdir (clientRoot this) ;;
  ret (map (fun f => join (clientRoot this) f)
           (filter (fun dirOrFile =>
                      negb (dirOrFile =? "bin")%string
                      && negb (dirOrFile =? "current")%string)
                   dirOrFiles)).

Definition findLocalVersion (this : t) (version : string) : M (option string) :=
  versions <- findLocalVersions this ;;
  ret (find (fun file => startsWith file version) (map basename versions)).

Definition refreshConfig (this : t) (version : string) : M t :=
  c <- Config_load (join (clientRoot this) version) ;;
  ret (with_config c this).

Definition shim_windows (bin binPathEnvVar redirectedEnvVar version : string)
  : string :=
  "@echo off" +++ nl
  +++ "setlocal enableextensions" +++ nl
  +++ "set " +++ redirectedEnvVar +++ "=1" +++ nl
  +++ "set " +++ binPathEnvVar +++ "=%~dp0" +++ bin +++ nl
  +++ dq +++ "%~dp0.." +++ bs +++ version +++ bs +++ "bin" +++ bs +++ bin
  +++ ".cmd" +++ dq +++ " %*" +++ nl.

Definition shim_posix (bin binPathEnvVar redirectedEnvVar version : string)
  : string :=
  "#!/usr/bin/env bash" +++ nl
  +++ "set -e" +++ nl
  +++ "get_script_dir () {" +++ nl
  +++ "  SOURCE=" +++ dq +++ "${BASH_SOURCE[0]}" +++ dq +++ nl
  +++ "  # While $SOURCE is a symlink, resolve it" +++ nl
  +++ "  while [ -h " +++ dq +++ "$SOURCE" +++ dq +++ " ]; do" +++ nl
  +++ "    DIR=" +++ dq +++ "$( cd -P " +++ dq +++ "$( dirname " +++ dq
  +++ "$SOURCE" +++ dq +++ " )" +++ dq +++ " && pwd )" +++ dq +++ nl
  +++ "    SOURCE=" +++ dq +++ "$( readlink " +++ dq +++ "$SOURCE" +++ dq
  +++ " )" +++ dq +++ nl
  +++ "    # If $SOURCE was a relative symlink (so no " +++ dq +++ "/" +++ dq
  +++ " as prefix, need to resolve it relative to the symlink base directory"
  +++ nl
  +++ "    [[ $SOURCE != /* ]] && SOURCE=" +++ dq +++ "$DIR/$SOURCE" +++ dq +++ nl
  +++ "  done" +++ nl
  +++ "  DIR=" +++ dq +++ "$( cd -P " +++ dq +++ "$( dirname " +++ dq
  +++ "$SOURCE" +++ dq +++ " )" +++ dq +++ " && pwd )" +++ dq +++ nl
  +++ "  echo " +++ dq +++ "$DIR" +++ dq +++ nl
  +++ "}" +++ nl
  +++ "DIR=$(get_script_dir)" +++ nl
  +++ binPathEnvVar +++ "=" +++ dq +++ "$DIR/" +++ bin +++ dq +++ " "
  +++ redirectedEnvVar +++ "=1 " +++ dq +++ "$DIR/../" +++ version +++ "/bin/"
  +++ bin +++ dq +++ " " +++ dq +++ "$@" +++ dq +++ nl.

(** The [body] that [createBin] writes for a configuration. *)
Definition shim (c : Config.t) (version : string) : string :=
  let bin := Config.bin c in
  let binPathEnvVar := Config.scopedEnvVarKey c "BINPATH" in
  let redirectedEnvVar := Config.scopedEnvVarKey c "REDIRECTED" in
  if Config.windows c
  then shim_windows bin binPathEnvVar redirectedEnvVar version
  else shim_posix bin binPathEnvVar redirectedEnvVar version.

Definition createBin (this : t) (version : string) : M unit :=
  let dst := clientBin this in
  mkdir (dirname dst) ;;
  if Config.windows (config this) then
    writeFile dst (shim (config this) version)
  else
    writeFile dst (shim (config this) version) ;;
    rm (join (clientRoot this) "current") ;;
    symlink ("./" +++ version) (join (clientRoot this) "current").

Definition isNotSpecial (fPath version : string) : bool :=
  negb (includes ["bin"; "current"; version] (str_basename fPath)).

(** [mtime.setHours(mtime.getHours() + 42 * 24)] moves the date by that
    many hours on the local wall clock. *)
Definition isOld (e : Env) (fStat : Z) (today : Z) : bool :=
  addHours e (42 * 24) fStat <? today.

(** Removes any unused CLIs.  The call site passes [this.config.version]
    for [fPath] and the path of the entry for [version]. *)
Definition tidy (this : t) : M unit :=
  ux_debug ["tidy"] ;;
  try_catch
    (let root := clientRoot this in
     present <- existsSync root ;;
     if negb present then ret tt
     else
       files <- Util.ls root ;;
       e <- host ;;
       today <- now ;;
       promise_all
         (map (fun f => rm (fst f))
              (filter (fun f =>
                         isNotSpecial (Config.version (config this)) (show (fst f))
                         && isOld e (snd f) today)
                      files)))
    (fun error => ux_warn error).

(** Touch the client so it will not be tidied up right away.  The
    promise of [utimes] is returned without [await]: the [catch] block
    does not cover it. *)
Definition touch (this : t) : M unit :=
  target <- try_catch
              (let p := join (clientRoot this) (Config.version (config this)) in
               ux_debug ["touching client at"; show p] ;;
               present <- existsSync p ;;
               ret (if negb present then None else Some p))
              (fun error => ux_warn error ;; ret None) ;;
  match target with
  | Some p => today <- now ;; utimes p today
  | None => ret tt
  end.

Definition update (this : t) (current updated : string) (force : bool)
  (channel : string) : M t :=
  ux_action_start
    (Config.name (config this) +++ ": Updating CLI from " +++ chalk current
     +++ " to " +++ chalk updated
     +++ (if (channel =? "stable")%string then ""
          else " (" +++ chalk channel +++ ")")) ;;
  ensureClientDir (clientRoot this) ;;
  let output := join (clientRoot this) updated in
  present <- existsSync output ;;
  (if force || negb present
   then downloadAndExtract output "" channel (config this)
   else ret tt) ;;
  this' <- refreshConfig this updated ;;
  setChannel channel (Config.dataDir (config this')) ;;
  createBin this' updated ;;
  ret this'.

Definition updateToExistingVersion (this : t) (current updated : string) : M t :=
  ux_action_start
    (Config.name (config this) +++ ": Updating CLI from " +++ chalk current
     +++ " to " +++ chalk updated) ;;
  ensureClientDir (clientRoot this) ;;
  this' <- refreshConfig this updated ;;
  createBin this' updated ;;
  ret this'.

Definition already_message (this : t) (current : string) : option string :=
  Some (if truthy (Config.scopedEnvVar (config this) "HIDE_UPDATED_MESSAGE")
        then "done" else "already on version " +++ current).

(** The branch [if (version)] of [runUpdate]: [None] stands for the
    [return] of the branch, a value for falling through to the end of
    the method with the updater as the branch leaves it. *)
Definition requested (this : t) (force : bool) (channel current version : string)
  : M (option t) :=
  found <- (if force then ret None else findLocalVersion this version) ;;
  let localVersion := if truthy found then found else None in
  if alreadyOnVersion current localVersion then
    ux_action_stop (already_message this current) ;;
    ret None
  else
    runHook "preupdate" channel version ;;
    this' <- match localVersion with
             | Some l => updateToExistingVersion this current l
             | None =>
                 index <- fetchVersionIndex this ;;
                 let url := prop_get version index in
                 if negb (js_truthy url) then
                   throw (JsError (version +++ " not found in index:" +++ nl
                                   +++ String.concat ", " (dict_keys index)))
                 else update this current version force channel
             end ;;
    runHook "update" channel version ;;
    ux_action_stop None ;;
    ux_log "" ;;
    ux_log ("Updating to a specific version will not update the channel. "
            +++ "If autoupdate is enabled, the CLI will eventually be updated back to "
            +++ channel +++ ".") ;;
    ret (Some this').

(** The [else] branch of [runUpdate]. *)
Definition newest (this : t) (force : bool) (channel current : string)
  : M (option t) :=
  latestVersion <- request (EHttpGet "https://registry.npmjs.org/@xata.io/cli/latest")
                           latest ;;
  let updated := latestVersion in
  this' <- (if negb force && alreadyOnVersion current (Some updated) then
              ux_action_stop (already_message this current) ;;
              ret this
            else
              runHook "preupdate" channel updated ;;
              update this current updated force channel) ;;
  runHook "update" channel updated ;;
  ux_action_stop None ;;
  ret (Some this').

(** [Promise.all] of the channel and the current version: both lookups
    run, the channel first, and a rejection of the channel lookup is
    reported once both have settled. *)
Definition resolve_both (this : t) (options : Options.t) : M (string * string) :=
  c <- settle (match Options.channel options with
               | Some c => ret c
               | None => determineChannel (config this) (Options.version options)
               end) ;;
  current <- determineCurrentVersion (clientBin this)
                                     (Config.version (config this)) ;;
  channel <- unsettle c ;;
  ret (channel, current).

(** The head of [runUpdate], up to the decision: the debounce gate, the
    banner, the updatable test, the channel and the current version.
    [None] stands for the [return] of a CLI that is not updatable. *)
Definition resolve (this : t) (options : Options.t)
  : M (option (string * string)) :=
  (if Options.autoUpdate options
   then debounce (Config.cacheDir (config this))
   else ret tt) ;;
  ux_action_start (Config.name (config this) +++ ": Updating CLI") ;;
  stuck <- notUpdatable (config this) ;;
  if stuck then
    ux_action_stop (Some "not updatable") ;;
    ret None
  else
    cc <- resolve_both this options ;;
    ret (Some cc).

Definition forced (options : Options.t) : bool :=
  match Options.force options with
  | Some b => b
  | None => false
  end.

(** The decision: [if (version) { ... } else { ... }]. *)
Definition decide (this : t) (options : Options.t) (channel current : string)
  : M (option t) :=
  match Options.version options with
  | Some v =>
      if truthy (Options.version options)
      then requested this (forced options) channel current v
      else newest this (forced options) channel current
  | None => newest this (forced options) channel current
  end.

(** The tail of [runUpdate]. *)
Definition finish (this : t) : M unit :=
  touch this ;;
  tidy this ;;
  ux_debug ["done"].

Definition runUpdate (this : t) (options : Options.t) : M unit :=
  r <- resolve this options ;;
  match r with
  | None => ret tt
  | Some (channel, current) =>
      outcome <- decide this options channel current ;;
      match outcome with
      | None => ret tt
      | Some this' => finish this'
      end
  end.
End Updater.

(** ** Scenarios

    A small installation used to run the model on concrete inputs: the
    CLI [xata] at version 1.0.0, whose client root holds the shim
    directory [bin] and the version directory [1.0.0], and a registry
    that knows the versions 1.0.0 and 2.0.0. *)
Module Demo.
Definition config_at (version : string) : Config.t :=
  Config.mk "xata" version "xata" false ["data"] ["cache"]
    (Some "/usr/local/bin/xata") None "@xata.io/cli"
    (fun _ => None) (fun k => "XATA_" +++ k).

Definition archive : list Chunk :=
  [Entry (mkHeaders "bin" "directory" "") "";
   Entry (mkHeaders "bin/xata" "file" "") "#!/bin/sh"].

Definition env_of (newest : string) : Env :=
  mkEnv (Ok ["@xata.io/cli@1.0.0"; "@xata.io/cli@2.0.0"; "@xata.io/client@0.30.0"])
        (Ok newest)
        (fun _ => Ok [("latest", newest); ("next", "3.0.0")])
        (Ok archive)
        (fun _ _ _ => None)
        (fun root _ => Ok (config_at (basename root)))
        (fun _ => "1970-01-01T00:00:00.000Z")
        (fun _ _ => 0).

Definition env : Env := env_of "2.0.0".

Definition day : Z := 24 * hour.

(** The client root on day 0, with an installed 1.0.0. *)
Definition disk : node :=
  Dir [("data",
        Dir [("client",
              Dir [("bin", Dir [] 0);
                   ("current", Symlink "./1.0.0" 0);
                   ("1.0.0", Dir [("bin", Dir [("xata", File "#!/bin/sh" 0)] 0)] 0)]
                  0)] 0);
       ("cache", Dir [] 0)] 0.

Definition world_in (e : Env) (t : Z) : World :=
  mkWorld disk t (fun n => String (ascii_of_nat (48 + n)) "1234") 0 false e [].

Definition world_at (t : Z) : World := world_in env t.

Definition updater : Updater.t := Updater.new (config_at "1.0.0").


(** A root whose shim refers to 2.0.0 and that holds the directories
    1.0.0-beta, 1.0.0 and 2.0.0. *)
Definition disk_with_beta : node :=
  Dir [("data",
        Dir [("client",
              Dir [("bin",
                    Dir [("xata", File (Updater.shim (config_at "2.0.0") "2.0.0") 0)] 0);
                   ("current", Symlink "./2.0.0" 0);
                   ("1.0.0-beta", Dir [] 0);
                   ("1.0.0", Dir [] 0);
                   ("2.0.0", Dir [] 0)]
                  0)] 0);
       ("cache", Dir [] 0)] 0.

Definition installed : path := ["data"; "client"; "1.0.0"].
End Demo.

(** ** Vocabulary of the statements *)

(** [keeps q m]: running [m] leaves what sits at [q] as it is, whether
    [m] returns or throws. *)
Definition keeps {A} (q : path) (m : M A) : Prop :=
  forall w, lookup q (fs (snd (m w))) = lookup q (fs w).

(** Two paths diverge when they part at some segment: neither lies at or
    below the other. *)
Inductive diverge : path -> path -> Prop :=
| diverge_here c d p q : c <> d -> diverge (c :: p) (d :: q)
| diverge_next c p q : diverge p q -> diverge (c :: p) (c :: q).

(** What the extraction does with an entry that [ignore] lets
    through, a directory or a file. *)
Definition accepted (cwd : path) (h : Headers) (body : string) : M unit :=
  let dst := cwd ++ join [] (name h) in
  (fun w => if debug_files w then debug (name h) w else (Ok tt, w)) ;;
  if (type h =? "directory")%string then mkdir dst
  else
    mkdir (if path_eqb dst cwd then cwd else dirname dst) ;;
    writeFile dst body.

(** One entry of the stream under the filter of tar.ts, [k] being the
    extraction of the entries after it. *)
Definition filtered (cwd : path) (h : Headers) (body : string) (k : M unit)
  : M unit :=
  if ((type h =? "directory") || (type h =? "file"))%string then
    accepted cwd h body ;; k
  else if (type h =? "symlink")%string then k
  else throw Pending.

(** The entry types that [ignore] has a case for. *)
Definition supported (ty : string) : bool :=
  ((ty =? "directory") || (ty =? "file") || (ty =? "symlink"))%string.

(** A chunk of a stream that arrives whole and holds nothing but
    entries of those types. *)
Definition sound_chunk (c : Chunk) : bool :=
  match c with
  | Entry h _ => supported (type h)
  | Broken _ => false
  end.

Definition is_symlink_entry (c : Chunk) : bool :=
  match c with
  | Entry h _ => (type h =? "symlink")%string
  | Broken _ => false
  end.

(** The archive of the scenarios followed by a named pipe. *)
Definition fifo_archive : list Chunk :=
  Demo.archive ++ [Entry (mkHeaders "pipe" "fifo" "") ""].

(** The world one round of waiting later. *)
Definition a_minute_later (w : World) (until : Z) : World :=
  snd (Util.wait (60 * 1000)
         (snd (ux_log ("waiting until " +++ toISOString (env w) until
                       +++ " to update") w))).

(** A marker written at 1000 ms, read at 3500000 ms: the hour ends at
    3601000 ms, two rounds of waiting away. *)
Definition waiting_world : World :=
  mkWorld (Dir [("cache", Dir [("lastrun", File "" 1000)] 0)] 0)
          3500000 (fun _ => "0") 0 false Demo.env [].

(** A host without network whose channel file holds [beta] between a
    no-break space (U+00A0) and a line feed. *)
Definition offline_world : World :=
  mkWorld (place ["data"; "channel"]
                 (File (String (ascii_of_nat 194) (String (ascii_of_nat 160) "beta")
                        +++ nl) 0)
                 Demo.disk)
          0 (fun _ => "0") 0 false
          (mkEnv (Err (JsError "offline")) (Err (JsError "offline"))
                 (fun _ => Err (JsError "offline")) (Err (JsError "offline"))
                 (fun _ _ _ => None)
                 (fun root _ => Ok (Demo.config_at (basename root)))
                 (fun _ => "1970-01-01T00:00:00.000Z")
                 (fun _ _ => 0))
          [].

Definition with_tza (z : Z -> bool -> Z) (e : Env) : Env :=
  mkEnv (releases e) (latest e) (dist_tags e) (download e) (hook_outcome e)
        (load e) (toISOString e) z.

(** The offsets of America/New_York around the end of daylight saving
    time on 1 November 2026 at 06:00 UTC (1793512800000 ms): four hours
    behind UTC before it, five hours behind after it; a local time that
    occurs twice counts as its first occurrence. *)
Definition new_york (t : Z) (isUTC : bool) : Z :=
  if isUTC then (if t <? 1793512800000 then -4 * hour else -5 * hour)
  else (if t <? 1793512800000 - 4 * hour then -4 * hour else -5 * hour).

(** A host in that zone whose marker was written at 05:30 UTC of that
    day (01:30 local time) and whose clock shows 06:30 UTC, one hour
    later. *)
Definition fall_back_world : World :=
  mkWorld (Dir [("cache", Dir [("lastrun", File "" 1793511000000)] 0)] 0)
          (1793511000000 + hour) (fun _ => "0") 0 false
          (with_tza new_york Demo.env) [].

Fixpoint has_char (c : ascii) (s : string) : bool :=
  match s with
  | EmptyString => false
  | String c' s' => Ascii.eqb c' c || has_char c s'
  end.

(** The channel the data directory holds: the trimmed content of the
    channel file, [stable] when there is none; nothing when the path is
    not a file that can be read. *)
Definition persisted_channel (config : Config.t) (w : World) : option string :=
  match lookup (join (Config.dataDir config) "channel") (fs w) with
  | None => Some "stable"
  | Some (File s _) => Some (trim s)
  | Some _ => None
  end.

(** The first tag of the remote mapping whose version is the target. *)
Definition matching_tag (tags : Dict) (version : option string) : option string :=
  find (fun v => opt_eqb (dict_get v tags) version) (dict_keys tags).

(** [steady ro P m]: running [m] leaves the environment alone, adds to
    the trace only events that satisfy [P], and, when [ro] is set, leaves
    the file system as it is. *)
Definition steady {A} (ro : bool) (P : Event -> Prop) (m : M A) : Prop :=
  forall w,
    env (snd (m w)) = env w
    /\ (ro = true -> fs (snd (m w)) = fs w)
    /\ exists evs, log (snd (m w)) = evs ++ log w /\ Forall P evs.

(** [settles m]: the promise of [m] never stays pending. *)
Definition settles {A} (m : M A) : Prop :=
  forall w w', m w <> (Err Pending, w').

(** Everything but the download of an archive. *)
Definition quiet (e : Event) : Prop :=
  match e with
  | EHttpStream _ => False
  | _ => True
  end.

(** What [tidy] may add to the trace after its announcement. *)
Definition tidy_event (e : Event) : Prop :=
  match e with
  | EFs (OpRm _) | EUxWarn _ => True
  | _ => False
  end.

(** What [touch] adds after its announcement: nothing when the client
    directory [p] does not exist, else the [utimes] call on it. *)
Definition touch_of (p : path) (touched : list Event) : Prop :=
  touched = [] \/ exists t, touched = [EFs (OpUtimes p t)].

(** The shape of a trace that ends with the clean-up steps: the touch
    of a client directory, then the garbage collection, then [done]. *)
Definition ends_with_cleanup (l : list Event) : Prop :=
  exists p touched tidied before,
    l = EUxDebug ["done"]
        :: tidied ++ EUxDebug ["tidy"]
        :: touched ++ EUxDebug ["touching client at"; show p]
        :: before
    /\ touch_of p touched
    /\ Forall tidy_event tidied.

Definition is_fs_event (e : Event) : Prop :=
  match e with
  | EFs _ => True
  | _ => False
  end.


(** Names in ascending byte order. *)
Definition sorted_names (l : list string) : Prop :=
  StronglySorted (fun a b => String.leb a b = true) l.

(** Keys in the order of [Object.keys]: no key comes after one that it
    would be listed before. *)
Definition key_ordered (l : list string) : Prop :=
  StronglySorted (fun a b => key_before b a = false) l.

(** What [findLocalVersion] returns over the names of a directory
    listing. *)
Definition local_match (this : Updater.t) (names : list string) (version : string)
  : option string :=
  find (fun file => startsWith file version)
       (map basename
            (map (fun f => join (Updater.clientRoot this) f)
                 (filter (fun dirOrFile =>
                            negb (dirOrFile =? "bin")%string
                            && negb (dirOrFile =? "current")%string)
                         names))).

(** The path of [requested] taken when the lookup, not forced, finds
    [l] in a client root that exists: the [mkdir] of the lookup changes
    nothing and is left in the trace. *)
Definition switch_local (this : Updater.t) (channel current version l : string)
  : M (option Updater.t) :=
  emit (EFs (OpMkdir (Updater.clientRoot this))) ;;
  if alreadyOnVersion current (Some l) then
    ux_action_stop (Updater.already_message this current) ;;
    ret None
  else
    runHook "preupdate" channel version ;;
    this' <- Updater.updateToExistingVersion this current l ;;
    runHook "update" channel version ;;
    ux_action_stop None ;;
    ux_log "" ;;
    ux_log ("Updating to a specific version will not update the channel. "
            +++ "If autoupdate is enabled, the CLI will eventually be updated back to "
            +++ channel +++ ".") ;;
    ret (Some this').

(** The calls [extract] may make for a destination [output]: debug
    output and warnings; directories and files created by the tar
    extraction; a copy of [output] to a path beside it; removals beside
    it; a rename onto it; the refresh of its modification time. *)
Definition footprint (output : path) (e : Event) : Prop :=
  match e with
  | EDebug _ | EDebugError _ | EWarning _ => True
  | EFs (OpMkdir _) | EFs (OpWriteFile _ _) => True
  | EFs (OpCp src dst) => src = output /\ diverge dst output
  | EFs (OpRm p) => diverge p output
  | EFs (OpRename _ dst) => dst = output
  | EFs (OpUtimes p _) => p = output
  | _ => False
  end.

(** ** Vocabulary of the further properties *)

(** The tag of a release of the CLI that the index lists under [k]. *)
Definition cli_release (k tag : string) : bool :=
  str_includes tag "@xata.io/cli@"
  && (remove_first tag "@xata.io/cli@" =? k)%string.

(** The names that [findLocalVersions] passes on. *)
Definition not_reserved (dirOrFile : string) : bool :=
  negb (dirOrFile =? "bin")%string && negb (dirOrFile =? "current")%string.

Fixpoint all_chars (f : ascii -> bool) (s : string) : bool :=
  match s with
  | EmptyString => true
  | String c s' => f c && all_chars f s'
  end.

Definition no_dots (s : string) : bool :=
  all_chars (fun c => negb (Ascii.eqb c ".")) s.

Definition no_seps (s : string) : bool :=
  all_chars (fun c => negb (is_sep c)) s.

(** A text that surely holds no line terminator: no LF, no CR, and no
    byte 226, with which the characters U+2000 to U+2FFF begin, the line
    and paragraph separators among them. *)
Definition one_line (s : string) : bool :=
  all_chars (fun c => negb (is_line_end c)
                      && negb (nat_of_ascii c =? 226)%nat) s.

(** A text in which no line terminator begins. *)
Fixpoint unbroken (s : string) : bool :=
  match s with
  | EmptyString => true
  | String _ s' => negb (line_end_at s) && unbroken s'
  end.

(** A configuration whose names are plain: no dot in the name of the
    binary and in the two environment keys of the shim, and a name of
    the binary without separator that does not start with [bin]. *)
Definition plain_names (c : Config.t) : bool :=
  no_dots (Config.bin c) && no_seps (Config.bin c)
  && negb (startsWith (Config.bin c) "bin")
  && no_dots (Config.scopedEnvVarKey c "BINPATH")
  && no_dots (Config.scopedEnvVarKey c "REDIRECTED").

(** The separator the shim of a platform puts around the version. *)
Definition shim_sep (windows : bool) : ascii :=
  if windows then ascii_of_nat 92 else "/"%char.

(** A name as a directory listing reports it: one segment, neither
    empty nor [.] nor [..]. *)
Definition segment (s : string) : bool :=
  negb (has_char "/" s) && negb (s =? "")%string
  && negb (s =? ".")%string && negb (s =? "..")%string.

(** The version a run aims at: the one asked for, else the latest one
    the registry reports. *)
Definition target_version (options : Options.t) (e : Env) : option string :=
  if truthy (Options.version options) then Options.version options
  else match latest e with
       | Ok v => Some v
       | Err _ => None
       end.

(** The events that install nothing: everything but the download of an
    archive, the reload of the configuration, and the calls that write,
    link, rename or copy.  Terminal output, requests that read, hooks,
    the creation of a directory, removals and changes of a modification
    time are inert. *)
Definition inert (e : Event) : Prop :=
  match e with
  | EHttpStream _ | EConfigLoad _ => False
  | EFs (OpWriteFile _ _) | EFs (OpSymlink _ _) | EFs (OpLink _ _) => False
  | EFs (OpRename _ _) | EFs (OpCp _ _) => False
  | _ => True
  end.

Definition anything (e : Event) : Prop := True.

(** A computation is guarded when its trace is inert throughout, or
    else holds a [preupdate] hook that the host accepted with only
    inert events before it. *)
Definition guarded {A} (m : M A) : Prop :=
  forall w,
    env (snd (m w)) = env w
    /\ exists evs,
         log (snd (m w)) = evs ++ log w
         /\ (Forall inert evs
             \/ exists later channel version earlier,
                  evs = later ++ EHook "preupdate" channel version :: earlier
                  /\ Forall inert earlier
                  /\ hook_outcome (env w) "preupdate" channel version = None).

(** What the clean-up steps add to the trace. *)
Definition cleanup_event (e : Event) : Prop :=
  match e with
  | EUxDebug _ | EUxWarn _ => True
  | EFs (OpUtimes _ _) | EFs (OpRm _) => True
  | _ => False
  end.

(** Everything but the lines of [ux.debug], which only the clean-up
    steps print. *)
Definition no_cleanup (e : Event) : Prop :=
  match e with
  | EUxDebug _ => False
  | _ => True
  end.

(** What the head of [runUpdate] may add to the trace: terminal
    output, waits, and requests that only read. *)
Definition head_event (e : Event) : Prop :=
  match e with
  | EUxLog _ | EUxWarn _ | EUxWarnMsg _ => True
  | EActionStart _ | EActionStop _ => True
  | EWait _ | EHttpGet _ => True
  | _ => False
  end.

(** What [extract] may add to the trace: debug output, warnings and
    calls of the file system. *)
Definition extraction_event (e : Event) : Prop :=
  match e with
  | EDebug _ | EDebugError _ | EWarning _ | EFs _ => True
  | _ => False
  end.

(** * Facts about the file-system model *)

Section ChildFacts.
Variables (c : string) (es : list (string * node)).

Lemma child_put_same n : child c (put_child c n es) = Some n.
Proof.
  induction es as [|[k v] es' IH]; simpl.
  - now rewrite String.eqb_refl.
  - destruct (String.eqb_spec k c); simpl.
    + now rewrite String.eqb_refl.
    + destruct (String.eqb_spec k c); [contradiction | exact IH].
Qed.

Lemma child_put_other d n : c <> d -> child d (put_child c n es) = child d es.
Proof.
  intros Hcd. induction es as [|[k v] es' IH]; simpl.
  - destruct (String.eqb_spec c d); [contradiction | reflexivity].
  - destruct (String.eqb_spec k c) as [->|Hkc]; simpl.
    + destruct (String.eqb_spec c d); [contradiction | reflexivity].
    + now rewrite IH.
Qed.

Lemma child_remove_same : child c (remove_child c es) = None.
Proof.
  induction es as [|[k v] es' IH]; simpl; [reflexivity|].
  destruct (String.eqb_spec k c); simpl; [exact IH|].
  destruct (String.eqb_spec k c); [contradiction | exact IH].
Qed.

Lemma child_remove_other d : c <> d -> child d (remove_child c es) = child d es.
Proof.
  intros Hcd. induction es as [|[k v] es' IH]; simpl; [reflexivity|].
  destruct (String.eqb_spec k c) as [->|Hkc]; simpl.
  - destruct (String.eqb_spec c d); [contradiction | exact IH].
  - now rewrite IH.
Qed.

Lemma child_set_same v : child c (set_child c v es) = v.
Proof. destruct v; simpl; [apply child_put_same | apply child_remove_same]. Qed.

Lemma child_set_other d v : c <> d -> child d (set_child c v es) = child d es.
Proof.
  destruct v; simpl; [apply child_put_other | apply child_remove_other].
Qed.

Lemma put_child_present n : child c es = Some n -> put_child c n es = es.
Proof.
  induction es as [|[k v] es' IH]; simpl; [discriminate|].
  destruct (String.eqb_spec k c) as [->|Hkc].
  - now intros [= ->].
  - intros H. now rewrite IH.
Qed.
End ChildFacts.

Create HintDb fsdb.
#[local] Hint Constructors diverge : fsdb.

Lemma diverge_nonempty p q : diverge p q -> p <> [].
Proof. now destruct 1. Qed.

Lemma diverge_app_l p q x : diverge p q -> diverge (p ++ x) q.
Proof. induction 1; simpl; auto with fsdb. Qed.

Lemma diverge_siblings q a b : a <> b -> diverge (q ++ [a]) (q ++ [b]).
Proof. intros H. induction q; simpl; auto with fsdb. Qed.

Lemma diverge_not_prefix p q : diverge p q -> is_prefix p q = false.
Proof.
  induction 1; simpl.
  - destruct (String.eqb_spec c d); [contradiction | reflexivity].
  - now rewrite IHdiverge, andb_false_r.
Qed.

Lemma append_length a b :
  String.length (a +++ b) = (String.length a + String.length b)%nat.
Proof. induction a; simpl; congruence. Qed.

Lemma append_neq a b : b <> "" -> a +++ b <> a.
Proof.
  intros Hb Heq. apply (f_equal String.length) in Heq.
  rewrite append_length in Heq. destruct b; [congruence | simpl in Heq; lia].
Qed.

Lemma path_suffix_last q a sfx : path_suffix (q ++ [a]) sfx = q ++ [a +++ sfx].
Proof.
  unfold path_suffix. rewrite removelast_last, last_last.
  destruct q; reflexivity.
Qed.

Lemma path_suffix_diverge output sfx :
  output <> [] -> sfx <> "" -> diverge (path_suffix output sfx) output.
Proof.
  intros Ho Hs. destruct (exists_last Ho) as (q & a & ->).
  rewrite path_suffix_last. apply diverge_siblings. now apply append_neq.
Qed.

Lemma get_None p : get p None = None.
Proof. destruct p; reflexivity. Qed.

Lemma get_app p r o : get (p ++ r) o = get r (get p o).
Proof.
  revert o. induction p as [|c p IH]; intros o; simpl; [reflexivity|].
  destruct o as [[| es t |]|]; auto using get_None.
  all: now rewrite get_None.
Qed.

Lemma get_alter_diverge f p q :
  diverge p q -> forall o, get q (alter f p o) = get q o.
Proof.
  induction 1 as [c d p q Hcd | c p q Hd IH]; intros o; simpl.
  - destruct o as [[| es t |]|]; simpl; try reflexivity.
    now rewrite child_set_other.
  - destruct o as [[| es t |]|]; simpl; try reflexivity.
    now rewrite child_set_same, IH.
Qed.

Lemma get_alter_erased p : forall o, get p (alter (fun _ => None) p o) = None.
Proof.
  induction p as [|c p IH]; intros o; simpl; [reflexivity|].
  destruct o as [[| es t |]|]; simpl; try reflexivity.
  now rewrite child_set_same.
Qed.

Lemma get_alter_same f p :
  p <> [] -> forall o,
  is_dir (get (removelast p) o) = true -> get p (alter f p o) = f (get p o).
Proof.
  induction p as [|c p IH]; [congruence|]. intros _ o Hd.
  destruct p as [|c' p].
  - simpl in *. destruct o as [[| es t |]|]; try discriminate.
    simpl. now rewrite child_set_same.
  - change (removelast (c :: c' :: p)) with (c :: removelast (c' :: p)) in Hd.
    cbn [get] in Hd. cbn [get alter].
    destruct o as [[| es t |]|]; try discriminate.
    cbn [get]. rewrite child_set_same. apply IH; [congruence | exact Hd].
Qed.

Lemma is_dir_alter f p :
  forall q o, is_prefix p q = false ->
  is_dir (get q (alter f p o)) = is_dir (get q o).
Proof.
  induction p as [|c p IH]; intros q o Hp; [discriminate|].
  destruct q as [|d q]; simpl.
  - destruct o as [[| es t |]|]; reflexivity.
  - destruct o as [[| es t |]|]; simpl; try reflexivity.
    simpl in Hp. destruct (String.eqb_spec c d) as [->|Hcd].
    + rewrite child_set_same. apply IH. exact Hp.
    + now rewrite child_set_other.
Qed.

Lemma alter_cons_Some f c p root :
  alter f (c :: p) (Some root) = Some (update f (c :: p) root).
Proof. unfold update. simpl. destruct root; reflexivity. Qed.

Lemma lookup_update_diverge f p q root :
  diverge p q -> lookup q (update f p root) = lookup q root.
Proof.
  intros H. unfold lookup. destruct p as [|c p]; [inversion H|].
  rewrite <- alter_cons_Some. now apply get_alter_diverge.
Qed.

Lemma lookup_remove_same p root : p <> [] -> lookup p (remove p root) = None.
Proof.
  intros H. unfold lookup, remove. destruct p as [|c p]; [congruence|].
  rewrite <- alter_cons_Some. apply get_alter_erased.
Qed.

Lemma lookup_place_same p n root :
  p <> [] -> is_dir (lookup (dirname p) root) = true ->
  lookup p (place p n root) = Some n.
Proof.
  intros H Hd. unfold lookup, place. destruct p as [|c p]; [congruence|].
  rewrite <- alter_cons_Some. now rewrite get_alter_same.
Qed.

Lemma is_dir_remove p q root :
  is_prefix p q = false ->
  is_dir (lookup q (remove p root)) = is_dir (lookup q root).
Proof.
  intros H. unfold lookup, remove. destruct p as [|c p]; [discriminate|].
  rewrite <- alter_cons_Some. now apply is_dir_alter.
Qed.

Lemma is_prefix_removelast p : forall q,
  is_prefix p (removelast q) = true -> is_prefix p q = true.
Proof.
  induction p as [|c p IH]; intros q H; [reflexivity|].
  destruct q as [|d q]; [discriminate|].
  destruct q as [|d' q]; [discriminate|].
  change (removelast (d :: d' :: q)) with (d :: removelast (d' :: q)) in H.
  simpl in H. apply andb_true_iff in H as [H1 H2].
  simpl. rewrite H1. simpl. apply (IH (d' :: q)). exact H2.
Qed.

Lemma is_prefix_refl p : is_prefix p p = true.
Proof. induction p; simpl; [reflexivity|]. now rewrite String.eqb_refl. Qed.

Lemma is_prefix_app p x : is_prefix p (p ++ x) = true.
Proof. induction p; simpl; [reflexivity|]. now rewrite String.eqb_refl. Qed.

Lemma get_mkdirs_diverge t p q : diverge p q -> get q (Some (mkdirs t p)) = None.
Proof.
  induction 1 as [c d p q Hcd | c p q Hd IH]; simpl.
  - destruct (String.eqb_spec c d); [contradiction | apply get_None].
  - now rewrite String.eqb_refl.
Qed.

Lemma get_mkdirs_below t p c r : get (p ++ c :: r) (Some (mkdirs t p)) = None.
Proof.
  induction p as [|d p IH]; simpl; [apply get_None|].
  now rewrite String.eqb_refl.
Qed.

Lemma mkdirp_diverge t p q :
  diverge p q -> forall n n',
  mkdirp t p n = inr n' -> get q (Some n') = get q (Some n).
Proof.
  induction 1 as [c d p q Hcd | c p q Hd IH]; intros n n' H;
    destruct n as [| es m |]; simpl in H; try discriminate.
  - destruct (child c es) as [k|] eqn:Hk.
    + destruct (mkdirp t p k); [discriminate|]. injection H as <-.
      simpl. now rewrite child_put_other.
    + injection H as <-. simpl. now rewrite child_put_other.
  - destruct (child c es) as [k|] eqn:Hk.
    + destruct (mkdirp t p k) as [|k'] eqn:Hr; [discriminate|].
      injection H as <-. simpl. rewrite child_put_same, Hk. now apply IH.
    + injection H as <-. simpl. rewrite child_put_same, Hk, get_None.
      now apply get_mkdirs_diverge.
Qed.

Lemma mkdirp_below t p c r :
  forall n n', mkdirp t p n = inr n' ->
  get (p ++ c :: r) (Some n') = get (p ++ c :: r) (Some n).
Proof.
  induction p as [|d p IH]; intros n n' H;
    destruct n as [| es m |]; simpl in H; try discriminate.
  - now injection H as <-.
  - destruct (child d es) as [k|] eqn:Hk.
    + destruct (mkdirp t p k) as [|k'] eqn:Hr; [discriminate|].
      injection H as <-. simpl. rewrite child_put_same, Hk. now apply IH.
    + injection H as <-. simpl. rewrite child_put_same, Hk, get_None.
      apply get_mkdirs_below.
Qed.

(** * Facts about the extractor *)

Section Keeps.
Variable q : path.

Lemma keeps_ret A (a : A) : keeps q (ret a).
Proof. intros w. reflexivity. Qed.

Lemma keeps_throw A e : keeps q (@throw A e).
Proof. intros w. reflexivity. Qed.

Lemma keeps_emit e : keeps q (emit e).
Proof. intros w. reflexivity. Qed.

Lemma keeps_bind A B (m : M A) (k : A -> M B) :
  keeps q m -> (forall a, keeps q (k a)) -> keeps q (bind m k).
Proof.
  intros Hm Hk w. unfold bind. specialize (Hm w).
  destruct (m w) as [[a|e] w1]; simpl in *; [|exact Hm].
  now rewrite Hk.
Qed.

Lemma keeps_try_catch A (m : M A) h :
  keeps q m -> (forall e, keeps q (h e)) -> keeps q (try_catch m h).
Proof.
  intros Hm Hh w. unfold try_catch. specialize (Hm w).
  destruct (m w) as [[a|e] w1]; simpl in *; [exact Hm|].
  destruct e; simpl; [now rewrite Hh | now rewrite Hh | exact Hm].
Qed.

Lemma keeps_fs_step op f :
  (forall r t r', f r t = Ok r' -> lookup q r' = lookup q r) ->
  keeps q (fs_step op f).
Proof.
  intros Hf w. unfold fs_step.
  destruct (f (fs w) (clock w)) eqn:E; simpl; [|reflexivity].
  now apply Hf in E.
Qed.

Lemma keeps_existsSync p : keeps q (existsSync p).
Proof. intros w. reflexivity. Qed.

Lemma keeps_getTmp output : keeps q (getTmp output).
Proof. intros w. reflexivity. Qed.

Lemma keeps_rm p : diverge p q -> keeps q (rm p).
Proof.
  intros H. apply keeps_fs_step. intros r _ r' [= <-].
  now apply lookup_update_diverge.
Qed.

Lemma keeps_mkdir p : diverge p q -> keeps q (mkdir p).
Proof.
  intros H. apply keeps_fs_step. intros r t r' E.
  destruct (mkdirp t p r) eqn:Em; [discriminate|]. injection E as <-.
  eapply mkdirp_diverge; eauto.
Qed.

Lemma keeps_writeFile p data : diverge p q -> keeps q (writeFile p data).
Proof.
  intros H. apply keeps_fs_step. intros r t r' E.
  destruct p; [discriminate|].
  destruct (lookup (dirname (s :: p)) r) as [[]|]; try discriminate.
  destruct (lookup (s :: p) r) as [[]|]; try discriminate;
    injection E as <-; now apply lookup_update_diverge.
Qed.

Lemma keeps_ignore nm h : keeps q (ignore nm h).
Proof.
  intros w. unfold ignore. destruct h as [h|]; [|reflexivity].
  destruct (_ || _)%bool.
  - unfold bind. destruct (debug_files w); reflexivity.
  - destruct (_ =? _)%string; reflexivity.
Qed.

Lemma path_eqb_refl p : path_eqb p p = true.
Proof. unfold path_eqb. now rewrite is_prefix_refl. Qed.

Lemma keeps_ext A (m m' : M A) :
  (forall w, m w = m' w) -> keeps q m' -> keeps q m.
Proof. intros E H w. rewrite E. apply H. Qed.

(** Under the filter of tar.ts an entry is extracted when it is a
    directory or a file, passed over when it is a symbolic link, and
    leaves the extraction pending otherwise: [ignore] throws inside the
    listener. *)
Lemma tarExtract_entry cwd h body rest w :
  tarExtract cwd ignore (Entry h body :: rest) w
  = filtered cwd h body (tarExtract cwd ignore rest) w.
Proof.
  cbn [tarExtract]. set (k := tarExtract cwd ignore rest).
  unfold filtered, bind, in_listener, ignore, accepted, onentry, bind, ret, throw.
  destruct (String.eqb_spec (type h) "directory") as [Ed|Ed]; cbn [orb].
  - destruct (debug_files w); cbn; destruct (mkdir _ _) as [[[]|e] w1]; reflexivity.
  - destruct (String.eqb_spec (type h) "file") as [Ef|Ef]; cbn [orb].
    + destruct (debug_files w); cbn; destruct (mkdir _ _) as [[[]|e] w1];
        try reflexivity.
    + destruct (type h =? "symlink")%string; reflexivity.
Qed.

Lemma keeps_accepted cwd h body : diverge cwd q -> keeps q (accepted cwd h body).
Proof.
  intros H. unfold accepted.
  apply keeps_bind; [intros w; destruct (debug_files w); reflexivity|]. intros _.
  destruct (_ =? _)%string.
  - apply keeps_mkdir. now apply diverge_app_l.
  - apply keeps_bind.
    + apply keeps_mkdir.
      destruct (path_eqb _ _) eqn:E; [exact H|].
      destruct (join [] (name h)) as [|c l] eqn:Ej.
      * rewrite app_nil_r, path_eqb_refl in E. discriminate.
      * unfold dirname. rewrite removelast_app by discriminate.
        now apply diverge_app_l.
    + intros _. apply keeps_writeFile. now apply diverge_app_l.
Qed.

Lemma keeps_tarExtract cwd s : diverge cwd q -> keeps q (tarExtract cwd ignore s).
Proof.
  intros H. induction s as [|[h body|e] rest IH].
  - apply keeps_ret.
  - apply (keeps_ext _ _ _ (tarExtract_entry cwd h body rest)). unfold filtered.
    destruct (_ || _)%bool.
    + apply keeps_bind; [now apply keeps_accepted | intros _; exact IH].
    + destruct (_ =? _)%string; [exact IH | apply keeps_throw].
  - apply keeps_throw.
Qed.
End Keeps.

Lemma keeps_cp_sibling q0 a b src :
  a <> b -> keeps (q0 ++ [a]) (cp src (q0 ++ [b])).
Proof.
  intros Hab. apply keeps_fs_step. intros r t r' E.
  destruct (lookup src r) as [[]|]; try discriminate.
  all: destruct (lookup (q0 ++ [b]) r) as [[]|]; try discriminate.
  all: unfold dirname in E; rewrite removelast_last in E.
  all: destruct (mkdirp t q0 r) as [|r1] eqn:Em; try discriminate.
  all: injection E as <-; unfold place.
  all: rewrite lookup_update_diverge by (apply diverge_siblings; congruence).
  all: unfold lookup; eapply mkdirp_below; eauto.
Qed.

Lemma keeps_backup output tmp :
  output <> [] -> diverge tmp output -> keeps output (backup output tmp).
Proof.
  intros Ho Hd. destruct (exists_last Ho) as (q0 & a & ->).
  apply keeps_try_catch.
  - unfold getTmp. intros w. unfold bind at 1. unfold random_digits at 1.
    cbn [ret]. unfold bind at 1. cbn beta iota.
    set (w1 := with_rand_ix _ w). change (fs w) with (fs w1).
    rewrite path_suffix_last.
    assert (Hne : a <> a +++ ".partial." +++ rand w (rand_ix w)).
    { intros E. symmetry in E. revert E. apply append_neq. discriminate. }
    apply (keeps_bind _ _ _ (cp (q0 ++ [a]) (q0 ++ [a +++ ".partial." +++ rand w (rand_ix w)]))).
    + now apply keeps_cp_sibling.
    + intros _. apply keeps_try_catch; [|intros; apply keeps_emit].
      apply keeps_rm. apply diverge_siblings. congruence.
  - intros e. apply keeps_bind; [apply keeps_emit|]. intros _.
    apply keeps_try_catch; [|intros; apply keeps_emit]. now apply keeps_rm.
Qed.

Lemma is_prefix_antisym p : forall q,
  is_prefix p q = true -> is_prefix q p = true -> p = q.
Proof.
  induction p as [|c p IH]; intros [|d q] H1 H2; try discriminate; auto.
  simpl in *. apply andb_true_iff in H1 as [Hc H1].
  apply andb_true_iff in H2 as [_ H2].
  apply String.eqb_eq in Hc. f_equal; auto.
Qed.

Lemma rename_fs_lands src dst r r' :
  rename_fs src dst r = Ok r' -> exists n, lookup dst r' = Some n.
Proof.
  unfold rename_fs. destruct (lookup src r) as [n|] eqn:Hs; [|discriminate].
  destruct (is_prefix src dst) eqn:Hp.
  - destruct (is_prefix dst src) eqn:Hp'; [|discriminate].
    intros [= <-]. rewrite <- (is_prefix_antisym _ _ Hp Hp'). eauto.
  - destruct dst as [|d dst]; [discriminate|].
    destruct (lookup (dirname (d :: dst)) r) as [[| es t |]|] eqn:Hd;
      try discriminate.
    assert (Hland : lookup (d :: dst) (place (d :: dst) n (remove src r)) = Some n).
    { apply lookup_place_same; [discriminate|].
      rewrite is_dir_remove; [now rewrite Hd|].
      destruct (is_prefix src (dirname (d :: dst))) eqn:E; [|reflexivity].
      apply is_prefix_removelast in E. congruence. }
    intros H. exists n.
    destruct n; destruct (lookup (d :: dst) r) as [[| [|] ? |]|];
      try discriminate; injection H as <-; exact Hland.
Qed.

Lemma pick_tmp_spec output w :
  exists r w1,
    pick_tmp output w = (Ok (path_suffix output (".partial." +++ r)), w1)
    /\ fs w1 = fs w.
Proof.
  unfold pick_tmp, getTmp, bind, random_digits, existsSync, ret. cbn.
  destruct (lookup _ _); eauto.
Qed.

Lemma staging_spec output w :
  output <> [] ->
  diverge (fst (staging output w)) output
  /\ fs (snd (staging output w)) = fs w
  /\ fst (staging output w) <> [].
Proof.
  intros Ho. unfold staging.
  destruct (pick_tmp_spec output w) as (r & w1 & -> & Hfs). cbn.
  assert (Hd : diverge (path_suffix output (".partial." +++ r)) output)
    by (apply path_suffix_diverge; [exact Ho | discriminate]).
  repeat split; auto. exact (diverge_nonempty _ _ Hd).
Qed.

(** A failing [commit] has not touched [output]: once the rename has
    succeeded nothing after it can fail. *)
Lemma commit_failure_keeps stream b output tmp w e w' :
  output <> [] -> diverge tmp output ->
  commit stream b output tmp w = (Err e, w') ->
  lookup output (fs w') = lookup output (fs w).
Proof.
  intros Ho Hd H. unfold commit in H. unfold bind at 1 in H.
  pose proof (keeps_tarExtract output tmp stream Hd w) as K1.
  destruct (tarExtract tmp ignore stream w) as [[[]|e1] w1]; cbn [snd] in K1;
    [|injection H as _ <-; exact K1].
  unfold bind at 1 in H. unfold existsSync at 1 in H. unfold bind at 1 in H.
  set (blk := if match lookup output (fs w1) with Some _ => true | None => false end
              then backup output tmp else ret tt) in H.
  assert (K2 : keeps output blk).
  { subst blk. destruct (lookup output (fs w1));
      [now apply keeps_backup | apply keeps_ret]. }
  specialize (K2 w1). destruct (blk w1) as [[[]|e2] w2]; cbn [snd] in K2;
    [|injection H as _ <-; congruence].
  unfold bind at 1 in H. unfold debug at 1, emit at 1 in H.
  unfold bind at 1 in H. unfold rename at 1, fs_step at 1 in H.
  cbn [fs clock with_log log] in H.
  destruct (rename_fs (join tmp b) output (fs w2)) as [r3|e3] eqn:E3.
  - exfalso. apply rename_fs_lands in E3 as [n Hn].
    unfold bind at 1, catch_with, try_catch, rm, fs_step in H. cbn in H.
    unfold bind at 1, Util.touch, bind at 1, now, utimes, fs_step in H. cbn in H.
    replace (lookup output (remove tmp r3)) with (Some n) in H
      by (unfold remove; now rewrite lookup_update_diverge).
    discriminate.
  - injection H as _ <-. cbn. congruence.
Qed.

(** A call of [extract] that does not succeed leaves [output] as it
    was; and when it is rejected, no staging directory is left behind. *)
Lemma extract_failure_keeps stream b output w e w' :
  output <> [] ->
  extract stream b output w = (Err e, w') ->
  lookup output (fs w') = lookup output (fs w)
  /\ (e <> Pending -> lookup (fst (staging output w)) (fs w') = None).
Proof.
  intros Ho H. destruct (staging_spec output w Ho) as (Hd & Hfs & Hne).
  unfold extract, bind in H. unfold staging in *.
  destruct (pick_tmp output w) as [[tmp|?] w1]; cbn [fst snd] in *;
    [|inversion Hd].
  unfold debug at 1 in H. unfold emit at 1 in H. unfold try_catch in H.
  set (w2 := with_log _ w1) in *.
  destruct (commit stream b output tmp w2) as [[[]|e1] w3] eqn:Ec;
    [discriminate|].
  apply commit_failure_keeps in Ec; auto.
  destruct e1;
    unfold bind, catch_with, try_catch, rm, fs_step, throw in H; cbn in H;
    injection H as <- <-; cbn.
  1,2: split;
    [unfold remove; rewrite lookup_update_diverge by exact Hd; congruence
    |intros _; now apply lookup_remove_same].
  split; [congruence | intros Hp; now destruct Hp].
Qed.

(** While [extract] stays pending the staging directory is not cleared:
    the world is the one the steps of the [try] block left. *)
Lemma extract_pending stream b output w w1 :
  commit stream b output (fst (staging output w)) (snd (staging output w))
  = (Err Pending, w1) ->
  extract stream b output w = (Err Pending, w1).
Proof.
  unfold staging, extract. unfold bind at 1.
  destruct (pick_tmp_spec output w) as (r & wp & -> & _). cbn [fst snd].
  intros H. unfold bind at 1, debug at 1, emit at 1, try_catch. now rewrite H.
Qed.

(** An error of the tar extraction reaches the caller of [extract] as
    it is. *)
Lemma extract_reraises stream b output w e0 w1 :
  tarExtract (fst (staging output w)) ignore stream (snd (staging output w)) = (Err e0, w1) ->
  exists w', extract stream b output w = (Err e0, w').
Proof.
  unfold staging, extract. unfold bind at 1.
  destruct (pick_tmp_spec output w) as (r & wp & -> & _). cbn [fst snd].
  intros H. unfold bind at 1, debug at 1, emit at 1, try_catch, commit.
  unfold bind at 1. rewrite H.
  destruct e0; unfold bind, catch_with, try_catch, rm, fs_step, throw; cbn; eauto.
Qed.

Lemma ignore_accepts nm h w :
  type h = "directory" \/ type h = "file" ->
  exists w1, ignore nm (Some h) w = (Ok false, w1) /\ fs w1 = fs w.
Proof.
  intros H. unfold ignore.
  replace ((type h =? "directory") || (type h =? "file"))%string with true
    by (destruct H as [-> | ->]; reflexivity).
  unfold bind, debug, emit, ret.
  destruct (debug_files w); eexists; split; reflexivity.
Qed.

Lemma ignore_skips nm h w :
  type h = "symlink" -> ignore nm (Some h) w = (Ok true, w).
Proof. intros H. unfold ignore. rewrite H. reflexivity. Qed.

Lemma ignore_throws nm h w :
  supported (type h) = false ->
  ignore nm (Some h) w = (Err (JsError (type h)), w).
Proof.
  unfold supported, ignore. intros H.
  apply orb_false_iff in H as [H ->]. now rewrite H.
Qed.

Lemma tarExtract_drops_symlinks cwd s : forall w,
  tarExtract cwd ignore s w
  = tarExtract cwd ignore (filter (fun c => negb (is_symlink_entry c)) s) w.
Proof.
  induction s as [|[h body|e] rest IH]; intros w; [reflexivity| |reflexivity].
  cbn [filter is_symlink_entry]. rewrite tarExtract_entry. unfold filtered.
  destruct (_ || _)%bool eqn:Et.
  - assert (Es : (type h =? "symlink")%string = false).
    { apply orb_true_iff in Et as [Et|Et]; apply String.eqb_eq in Et;
        now rewrite Et. }
    rewrite Es. cbn [negb]. rewrite tarExtract_entry. unfold filtered.
    rewrite Et. unfold bind.
    destruct (accepted cwd h body w) as [[[]|e] w1]; [apply IH | reflexivity].
  - destruct (type h =? "symlink")%string eqn:Es; cbn [negb]; [apply IH|].
    rewrite tarExtract_entry. unfold filtered. now rewrite Et, Es.
Qed.

Lemma tarExtract_app cwd pre s : forall w,
  tarExtract cwd ignore (pre ++ s) w
  = match tarExtract cwd ignore pre w with
    | (Ok _, w1) => tarExtract cwd ignore s w1
    | (Err e, w1) => (Err e, w1)
    end.
Proof.
  induction pre as [|[h body|e] rest IH]; intros w; [reflexivity| |reflexivity].
  cbn [app]. rewrite !tarExtract_entry. unfold filtered.
  destruct (_ || _)%bool.
  - unfold bind. destruct (accepted cwd h body w) as [[[]|e] w1];
      [apply IH | reflexivity].
  - destruct (_ =? _)%string; [apply IH | reflexivity].
Qed.

Lemma not_supported ty :
  supported ty = false ->
  ((ty =? "directory") || (ty =? "file"))%string = false
  /\ (ty =? "symlink")%string = false.
Proof. unfold supported. intros H. now apply orb_false_iff in H. Qed.

Lemma tarExtract_unsupported cwd s h body :
  In (Entry h body) s -> supported (type h) = false ->
  forall w, exists e w1, tarExtract cwd ignore s w = (Err e, w1).
Proof.
  intros Hin Hu. induction s as [|c rest IH]; [contradiction|]. intros w.
  destruct Hin as [-> | Hin].
  - rewrite tarExtract_entry. unfold filtered.
    destruct (not_supported _ Hu) as [-> ->]. unfold throw. eauto.
  - destruct c as [h' body'|e]; [|cbn [tarExtract]; unfold throw; eauto].
    rewrite tarExtract_entry. unfold filtered.
    destruct (_ || _)%bool.
    + unfold bind. destruct (accepted cwd h' body' w) as [[[]|e] w1]; eauto.
    + destruct (_ =? _)%string; [eauto | unfold throw; eauto].
Qed.

(** An entry of a type [ignore] has no case for leaves the extraction
    pending, in the world the entries before it have made. *)
Lemma tarExtract_pending cwd pre h body post w w1 :
  tarExtract cwd ignore pre w = (Ok tt, w1) ->
  supported (type h) = false ->
  tarExtract cwd ignore (pre ++ Entry h body :: post) w = (Err Pending, w1).
Proof.
  intros Hpre Hu. rewrite tarExtract_app, Hpre, tarExtract_entry.
  unfold filtered. now destruct (not_supported _ Hu) as [-> ->].
Qed.

Lemma join_empty p : join p "" = p.
Proof. unfold join. cbn. apply rev_involutive. Qed.

Lemma backup_over_directory output tmp w :
  is_dir (lookup output (fs w)) = true ->
  exists w1, backup output tmp w = (Ok tt, w1) /\ fs w1 = remove tmp (fs w).
Proof.
  intros Hdir.
  unfold backup, try_catch, getTmp, bind, random_digits, ret, cp, fs_step,
    emit, catch_with, try_catch, rm, fs_step.
  cbn [fs with_rand_ix with_log with_fs clock log].
  destruct (lookup output (fs w)) as [[| es t |]|]; try discriminate.
  eexists. split; reflexivity.
Qed.

(** With an empty [basename], as the updater calls it, [extract] cannot
    succeed over a destination that is a directory: the copy of the
    directory is refused, the [catch] block removes the staging
    directory, and the rename finds nothing to move. *)
Lemma extract_over_directory_fails stream output w :
  output <> [] -> is_dir (lookup output (fs w)) = true ->
  exists e w',
    extract stream "" output w = (Err e, w')
    /\ lookup output (fs w') = lookup output (fs w).
Proof.
  intros Ho Hdir.
  assert (Hfail : exists e w', extract stream "" output w = (Err e, w')).
  { destruct (staging_spec output w Ho) as (Hd & Hfs & Hne).
    unfold extract, bind at 1. unfold staging in *.
    destruct (pick_tmp output w) as [[tmp|?] w1]; cbn [fst snd] in *;
      [|inversion Hd].
    unfold bind at 1, debug at 1, emit at 1, try_catch.
    set (w2 := with_log _ w1).
    assert (Hc : exists e w3, commit stream "" output tmp w2 = (Err e, w3)).
    { unfold commit, bind at 1.
      pose proof (keeps_tarExtract output tmp stream Hd w2) as K.
      destruct (tarExtract tmp ignore stream w2) as [[[]|e1] w3]; [|eauto].
      cbn [snd] in K. assert (Hw2 : fs w2 = fs w) by exact Hfs.
      rewrite Hw2 in K. rewrite <- K in Hdir.
      destruct (backup_over_directory output tmp w3 Hdir) as (w4 & Hb & Hfs4).
      unfold bind, existsSync.
      destruct (lookup output (fs w3)); [|discriminate]. rewrite Hb.
      unfold debug, emit, rename, fs_step, rename_fs.
      cbn [fs with_log with_fs clock log].
      rewrite join_empty, Hfs4, lookup_remove_same by exact Hne. eauto. }
    destruct Hc as (e & w3 & ->).
    destruct e; unfold bind, catch_with, try_catch, rm, fs_step, throw; cbn;
      eauto. }
  destruct Hfail as (e & w' & H). exists e, w'. split; [exact H|].
  now apply extract_failure_keeps in H.
Qed.

(** * The claims about the extractor *)

Lemma tarExtract_broken cwd pre e post w w1 :
  tarExtract cwd ignore pre w = (Ok tt, w1) ->
  tarExtract cwd ignore (pre ++ Broken e :: post) w = (Err Pending, w1).
Proof. intros Hpre. now rewrite tarExtract_app, Hpre. Qed.

Lemma commit_tar_error stream b output tmp w e w1 :
  tarExtract tmp ignore stream w = (Err e, w1) ->
  commit stream b output tmp w = (Err e, w1).
Proof. intros H. unfold commit. unfold bind at 1. now rewrite H. Qed.

(** C1.  A call of [extract] that is rejected leaves the destination as
    it was and no staging directory behind, and the error of the [try]
    block, a refused write or a refused rename, is the error the caller
    receives.  But two of the failures before the rename do not reject
    the call: when the stream breaks, and when it holds an entry of a
    type that [ignore] throws on, the promise around the tar extraction
    never settles; the [catch] block does not run, the caller receives
    nothing, and the staging directory stays as the extraction left it.
    The destination is as it was in either case. *)
Theorem extract_failure_is_clean stream basename output :
  output <> [] -> forall w,
  (forall e w',
      extract stream basename output w = (Err e, w') ->
      lookup output (fs w') = lookup output (fs w)
      /\ (e <> Pending -> lookup (fst (staging output w)) (fs w') = None))
  /\ (forall e w1,
        commit stream basename output (fst (staging output w))
               (snd (staging output w)) = (Err e, w1) ->
        exists w',
          extract stream basename output w = (Err e, w')
          /\ (e = Pending -> w' = w1))
  /\ (forall e w1,
        tarExtract (fst (staging output w)) ignore stream (snd (staging output w))
        = (Err e, w1) ->
        commit stream basename output (fst (staging output w))
               (snd (staging output w)) = (Err e, w1))
  /\ (forall pre post w1,
        tarExtract (fst (staging output w)) ignore pre (snd (staging output w))
        = (Ok tt, w1) ->
        (forall e,
            stream = pre ++ Broken e :: post ->
            extract stream basename output w = (Err Pending, w1))
        /\ (forall h body,
              stream = pre ++ Entry h body :: post ->
              supported (type h) = false ->
              extract stream basename output w = (Err Pending, w1))).
Proof.
  intros Ho w. split; [|split; [|split]].
  - intros e w' H. now apply extract_failure_keeps in H.
  - intros e w1 H. destruct e.
    1,2: unfold staging, extract in *; unfold bind at 1;
      destruct (pick_tmp_spec output w) as (r & wp & Hp & _);
      rewrite Hp in *; cbn [fst snd] in H;
      unfold bind at 1, debug at 1, emit at 1, try_catch; rewrite H;
      unfold bind, catch_with, try_catch, rm, fs_step, throw; cbn;
      eexists; split; [reflexivity | discriminate].
    exists w1. split; [now apply extract_pending | reflexivity].
  - intros e w1 H. now apply commit_tar_error.
  - intros pre post w1 Hpre. split.
    + intros e ->. apply extract_pending, commit_tar_error.
      now apply tarExtract_broken.
    + intros h body -> Hu. apply extract_pending, commit_tar_error.
      now apply tarExtract_pending.
Qed.

Lemma extract_failure_is_clean_witness :
  let output := ["data"; "client"; "2.0.0"] in
  let stream := Demo.archive ++ [Broken (JsError "aborted")] in
  let r := extract stream "" output (Demo.world_at 0) in
  fst r = Err Pending
  /\ lookup output (fs (snd r)) = None
  /\ lookup (fst (staging output (Demo.world_at 0))) (fs (snd r))
     = Some (Dir [("bin", Dir [("xata", File "#!/bin/sh" 0)] 0)] 0).
Proof.
  cbv zeta.
  set (output := ["data"; "client"; "2.0.0"]).
  set (w := Demo.world_at 0).
  assert (Ho : output <> []) by discriminate.
  destruct (extract_failure_is_clean
              (Demo.archive ++ [Broken (JsError "aborted")]) "" output Ho w)
    as (Hclean & _ & _ & Hpend).
  destruct (Hpend Demo.archive []
              (snd (tarExtract (fst (staging output w)) ignore Demo.archive
                               (snd (staging output w)))) eq_refl)
    as (Hbroken & _).
  specialize (Hbroken (JsError "aborted") eq_refl).
  rewrite Hbroken. cbn [fst snd]. split; [reflexivity|].
  destruct (Hclean _ _ Hbroken) as (Hout & _).
  split; [rewrite Hout; reflexivity | reflexivity].
Defined.

(** C1, as the claim states it, fails when the stream breaks.  An
    archive is extracted to the free path /data/client/2.0.0 and the
    download is aborted after two entries: the call never settles, no
    [rm] is issued, and the staging directory is left in the client
    root with what had been extracted. *)
Lemma broken_stream_leaves_staging :
  let output := ["data"; "client"; "2.0.0"] in
  let stream := Demo.archive ++ [Broken (JsError "aborted")] in
  let r := extract stream "" output (Demo.world_at 0) in
  fst r = Err Pending
  /\ lookup ["data"; "client"; "2.0.0.partial.01234"] (fs (snd r))
     = Some (Dir [("bin", Dir [("xata", File "#!/bin/sh" 0)] 0)] 0)
  /\ rev (log (snd r))
     = [EDebug "extracting to /data/client/2.0.0.partial.01234";
        EFs (OpMkdir ["data"; "client"; "2.0.0.partial.01234"; "bin"]);
        EFs (OpMkdir ["data"; "client"; "2.0.0.partial.01234"; "bin"]);
        EFs (OpWriteFile ["data"; "client"; "2.0.0.partial.01234"; "bin"; "xata"]
                         "#!/bin/sh")].
Proof. vm_compute. repeat split; reflexivity. Qed.

(** * The debounce gate *)

Lemma stat_at_missing p r : lookup p r = None -> stat_at p r = None.
Proof. intros H. unfold stat_at. cbn. now rewrite H. Qed.

Lemma debounce_step cacheDir w :
  debounce cacheDir w =
  match mtime (join cacheDir "lastrun") w with
  | (Err e, w1) => (Err e, w1)
  | (Ok m0, w1) =>
      if addHours (env w1) 1 m0 >? clock w1 then
        debounce cacheDir
          (snd (Util.wait (60 * 1000)
                  (snd (ux_log ("waiting until "
                                +++ toISOString (env w1) (addHours (env w1) 1 m0)
                                +++ " to update") w1))))
      else ux_log "time to update" w1
  end.
Proof.
  funelim (debounce cacheDir w);
    repeat match goal with
           | E : mtime _ _ = _ |- _ => rewrite E
           | E : (_ >? _) = _ |- _ => rewrite E
           end; reflexivity.
Qed.

Lemma debounce_waits cacheDir w m :
  stat_at (join cacheDir "lastrun") (fs w) = Some m ->
  clock w < addHours (env w) 1 m ->
  debounce cacheDir w
  = debounce cacheDir (a_minute_later w (addHours (env w) 1 m)).
Proof.
  intros Hl Hlt. rewrite debounce_step at 1. unfold mtime, stat. rewrite Hl.
  apply Z.gtb_lt in Hlt. now rewrite Hlt.
Qed.

Lemma debounce_passes cacheDir w m :
  stat_at (join cacheDir "lastrun") (fs w) = Some m ->
  addHours (env w) 1 m <= clock w ->
  debounce cacheDir w = (Ok tt, with_log (EUxLog "time to update" :: log w) w).
Proof.
  intros Hl Hle. rewrite debounce_step. unfold mtime, stat. rewrite Hl.
  destruct (Z.gtb_spec (addHours (env w) 1 m) (clock w)); [lia | reflexivity].
Qed.

Lemma waits_left_zero f w m :
  stat_at f (fs w) = Some m ->
  (waits_left f w = 0%nat <-> addHours (env w) 1 m <= clock w).
Proof.
  intros Hl. unfold waits_left. rewrite Hl.
  set (x := addHours (env w) 1 m - clock w).
  assert (E : x <= 0 <-> addHours (env w) 1 m <= clock w) by (subst x; lia).
  rewrite <- E. clear E. split; intros H.
  - destruct (Z.leb_spec x 0); [assumption|].
    assert (0 < (x + 59999) / 60000) by (apply Z.div_str_pos; lia). lia.
  - assert ((x + 59999) / 60000 <= 0); [|lia].
    apply Z.lt_succ_r. apply Z.div_lt_upper_bound; lia.
Qed.

Lemma waits_left_later f w m :
  stat_at f (fs w) = Some m ->
  clock w < addHours (env w) 1 m ->
  waits_left f w = S (waits_left f (a_minute_later w (addHours (env w) 1 m))).
Proof.
  intros Hl Hlt. unfold waits_left, a_minute_later, Util.wait, ux_log, emit.
  cbn [snd fs clock env with_clock with_log]. rewrite Hl.
  set (x := addHours (env w) 1 m - clock w).
  replace (addHours (env w) 1 m - (clock w + 60 * 1000) + 59999)
    with (x + 59999 + (-1) * 60000) by (subst x; lia).
  rewrite Z.div_add by lia.
  assert (0 < (x + 59999) / 60000) by (apply Z.div_str_pos; subst x; lia).
  lia.
Qed.

Lemma debounce_returns cacheDir : forall k w m,
  waits_left (join cacheDir "lastrun") w = k ->
  stat_at (join cacheDir "lastrun") (fs w) = Some m ->
  exists w',
    debounce cacheDir w = (Ok tt, w')
    /\ addHours (env w) 1 m <= clock w'
    /\ fs w' = fs w
    /\ clock w' = clock w + 60000 * Z.of_nat k.
Proof.
  induction k as [|k IH]; intros w m Hk Hl.
  - apply (waits_left_zero _ _ _ Hl) in Hk.
    rewrite (debounce_passes _ _ _ Hl Hk).
    eexists; split; [reflexivity|]. cbn.
    split; [lia | split; [reflexivity | lia]].
  - destruct (Z.lt_ge_cases (clock w) (addHours (env w) 1 m)) as [Hlt|Hge].
    + rewrite (debounce_waits _ _ _ Hl Hlt).
      rewrite (waits_left_later _ _ _ Hl Hlt) in Hk. injection Hk as Hk.
      destruct (IH (a_minute_later w (addHours (env w) 1 m)) m Hk Hl)
        as (w' & -> & Hpast & Hfs & Hclock).
      exists w'. split; [reflexivity|]. split; [exact Hpast|].
      split; [exact Hfs|].
      rewrite Hclock, Nat2Z.inj_succ. unfold a_minute_later, Util.wait, ux_log, emit.
      cbn [snd clock with_clock with_log]. lia.
    + apply (waits_left_zero _ _ _ Hl) in Hge. congruence.
Qed.

(** The offsets of a zone lie within a day, so a date moved by [n]
    hours on the wall clock lands within two days of [n] hours later. *)
Lemma addHours_near e n t :
  t + n * hour - 48 * hour <= addHours e n t <= t + n * hour + 48 * hour.
Proof. unfold addHours, LocalTZA, hour. lia. Qed.

(** Where the offset at the local time reached is the offset at the
    start, the wall clock and the elapsed time agree. *)
Lemma addHours_same_offset e n t :
  LocalTZA e (t + LocalTZA e t true + n * hour) false = LocalTZA e t true ->
  addHours e n t = t + n * hour.
Proof. unfold addHours. cbv zeta. intros ->. lia. Qed.

(** C9.  The gate does not compare the clock with [m + 1 hour], [m]
    being the modification time [stat] reports for the marker: it
    compares it with [addHours (env w) 1 m], the date of [m] moved one
    hour ahead on the local wall clock, which is [m + 1 hour] where the
    offset of the zone is the same at both ends.  With respect to that
    instant of its own the gate does what the claim says: while the
    instant is still ahead the gate logs, suspends for 60000 ms and
    evaluates again; once the instant is reached it lets the caller
    proceed at once; and whenever it lets the caller proceed the instant
    has passed, after exactly as many one-minute rounds as it takes to
    reach it. *)
Theorem debounce_gate cacheDir w m :
  stat_at (join cacheDir "lastrun") (fs w) = Some m ->
  (LocalTZA (env w) (m + LocalTZA (env w) m true + 1 * hour) false
   = LocalTZA (env w) m true ->
   addHours (env w) 1 m = m + hour)
  /\ (clock w < addHours (env w) 1 m ->
      debounce cacheDir w
      = debounce cacheDir (a_minute_later w (addHours (env w) 1 m))
      /\ clock (a_minute_later w (addHours (env w) 1 m)) = clock w + 60000
      /\ log (a_minute_later w (addHours (env w) 1 m))
         = EWait 60000
           :: EUxLog ("waiting until "
                      +++ toISOString (env w) (addHours (env w) 1 m)
                      +++ " to update")
           :: log w)
  /\ (addHours (env w) 1 m <= clock w ->
      debounce cacheDir w
      = (Ok tt, with_log (EUxLog "time to update" :: log w) w))
  /\ (exists w',
        debounce cacheDir w = (Ok tt, w')
        /\ addHours (env w) 1 m <= clock w'
        /\ clock w'
           = clock w
             + 60000 * Z.of_nat (waits_left (join cacheDir "lastrun") w)
        /\ (clock w < addHours (env w) 1 m ->
            clock w' - 60000 < addHours (env w) 1 m)).
Proof.
  intros Hl. split; [|split; [|split]].
  - intros H. rewrite (addHours_same_offset _ _ _ H). lia.
  - intros Hlt. split; [now apply debounce_waits | split; reflexivity].
  - now apply debounce_passes.
  - destruct (debounce_returns cacheDir _ w m eq_refl Hl)
      as (w' & Hrun & Hpast & _ & Hclock).
    exists w'. repeat split; auto. intros Hlt. rewrite Hclock.
    pose proof (waits_left_later _ _ _ Hl Hlt) as Hs.
    rewrite Hs, Nat2Z.inj_succ.
    unfold waits_left, a_minute_later, Util.wait, ux_log, emit.
    cbn [snd fs clock env with_clock with_log]. rewrite Hl.
    set (x := addHours (env w) 1 m - (clock w + 60 * 1000) + 59999).
    assert (0 <= x) by (subst x; lia).
    rewrite Z2Nat.id by (apply Z.div_pos; lia).
    pose proof (Z.mul_div_le x 60000 ltac:(lia)). subst x. lia.
Qed.

Lemma debounce_gate_witness :
  addHours (env waiting_world) 1 1000 = 1000 + hour
  /\ exists w',
       debounce ["cache"] waiting_world = (Ok tt, w')
       /\ 1000 + hour <= clock w'
       /\ clock w' = 3500000 + 60000 * 2.
Proof.
  destruct (debounce_gate ["cache"] waiting_world 1000 eq_refl)
    as (Hsame & _ & _ & w' & Hrun & Hpast & Hclock & _).
  split; [exact (Hsame eq_refl)|].
  exists w'. repeat split; [exact Hrun | exact Hpast | exact Hclock].
Defined.

(** C9, as the claim states it, fails where the clocks are set back.
    In New York the marker is written at 01:30 local time on the night
    daylight saving time ends, 05:30 UTC; one hour later, at 06:30 UTC,
    the instant of the claim is reached.  The wall clock then shows
    01:30 again, and the gate, which aims at 02:30 on the wall clock,
    suspends for sixty more rounds: it lets the caller proceed two hours
    after the marker was written. *)
Lemma debounce_waits_past_the_hour :
  let m := 1793511000000 in
  stat_at ["cache"; "lastrun"] (fs fall_back_world) = Some m
  /\ m + hour <= clock fall_back_world
  /\ addHours (env fall_back_world) 1 m = m + 2 * hour
  /\ waits_left ["cache"; "lastrun"] fall_back_world = 60%nat
  /\ exists w',
       debounce ["cache"] fall_back_world = (Ok tt, w')
       /\ clock w' = m + 2 * hour
       /\ hd_error (rev (log w'))
          = Some (EUxLog ("waiting until "
                          +++ toISOString (env fall_back_world) (m + 2 * hour)
                          +++ " to update")).
Proof.
  cbv zeta.
  assert (Hs : stat_at ["cache"; "lastrun"] (fs fall_back_world)
               = Some 1793511000000) by reflexivity.
  assert (Hu : addHours (env fall_back_world) 1 1793511000000
               = 1793511000000 + 2 * hour) by (vm_compute; reflexivity).
  assert (Hk : waits_left ["cache"; "lastrun"] fall_back_world = 60%nat)
    by (vm_compute; reflexivity).
  split; [exact Hs|]. split; [vm_compute; discriminate|].
  split; [exact Hu|]. split; [exact Hk|].
  destruct (debounce_returns ["cache"] _ fall_back_world _ Hk Hs)
    as (w' & Hrun & _ & _ & Hclock).
  exists w'. split; [exact Hrun|]. split; [rewrite Hclock; reflexivity|].
  rewrite (debounce_waits ["cache"] fall_back_world _ Hs) in Hrun
    by (rewrite Hu; vm_compute; reflexivity).
  assert (Hlog : forall k w m0 w1,
             waits_left ["cache"; "lastrun"] w = k ->
             stat_at ["cache"; "lastrun"] (fs w) = Some m0 ->
             debounce ["cache"] w = (Ok tt, w1) ->
             exists evs, log w1 = evs ++ log w).
  { clear. induction k as [|k IH]; intros w m0 w1 Hk Hs Hrun.
    - apply (waits_left_zero _ _ _ Hs) in Hk.
      rewrite (debounce_passes ["cache"] _ _ Hs Hk) in Hrun. injection Hrun as <-.
      now exists [EUxLog "time to update"].
    - destruct (Z.lt_ge_cases (clock w) (addHours (env w) 1 m0)) as [Hlt|Hge].
      + rewrite (debounce_waits ["cache"] _ _ Hs Hlt) in Hrun.
        rewrite (waits_left_later _ _ _ Hs Hlt) in Hk. injection Hk as Hk.
        destruct (IH _ m0 w1 Hk Hs Hrun) as (evs & Hl).
        exists (evs ++ [EWait 60000;
                        EUxLog ("waiting until "
                                +++ toISOString (env w) (addHours (env w) 1 m0)
                                +++ " to update")]).
        rewrite Hl, <- app_assoc. reflexivity.
      + apply (waits_left_zero _ _ _ Hs) in Hge. congruence. }
  set (w2 := a_minute_later fall_back_world _) in Hrun.
  assert (Hs2 : stat_at ["cache"; "lastrun"] (fs w2) = Some 1793511000000)
    by reflexivity.
  destruct (Hlog _ w2 _ _ eq_refl Hs2 Hrun) as (evs & Hl).
  rewrite Hl. subst w2. unfold a_minute_later, Util.wait, ux_log, emit.
  cbn [snd log with_clock with_log]. rewrite rev_app_distr.
  change (log fall_back_world) with (@nil Event). cbn [rev app hd_error].
  rewrite Hu. reflexivity.
Qed.

(** C10.  An automatic update with no [lastrun] marker: the [stat] of the
    gate rejects, and [runUpdate] rejects with it, the world untouched. *)
Theorem runUpdate_without_marker this options w :
  Options.autoUpdate options = true ->
  lookup (join (Config.cacheDir (Updater.config this)) "lastrun") (fs w) = None ->
  Updater.runUpdate this options w
  = (Err (SysError "ENOENT" "stat"
                   (join (Config.cacheDir (Updater.config this)) "lastrun")),
     w).
Proof.
  intros Ha Hl. unfold Updater.runUpdate, Updater.resolve. rewrite Ha.
  unfold bind at 1. unfold bind at 1. rewrite debounce_step.
  unfold mtime, stat. rewrite (stat_at_missing _ _ Hl). reflexivity.
Qed.

Lemma runUpdate_without_marker_witness :
  Updater.runUpdate Demo.updater (Options.mk true None None None)
                    (Demo.world_at 0)
  = (Err (SysError "ENOENT" "stat" ["cache"; "lastrun"]), Demo.world_at 0).
Proof.
  apply (runUpdate_without_marker Demo.updater (Options.mk true None None None)
                                  (Demo.world_at 0)); reflexivity.
Defined.

(** * The garbage collector *)

Lemma split_on_clean sep s :
  Forall (fun seg => has_char sep seg = false) (split_on sep s).
Proof.
  induction s as [|c s IH]; simpl; [repeat constructor|].
  destruct (Ascii.eqb c sep) eqn:E; [constructor; [reflexivity | exact IH]|].
  destruct (split_on sep s) as [|h t]; [repeat constructor; simpl; now rewrite E|].
  inversion IH; subst. constructor; [simpl; now rewrite E | assumption].
Qed.

Lemma str_basename_clean s : has_char "/" (str_basename s) = false.
Proof.
  unfold str_basename.
  assert (H : Forall (fun seg => has_char "/" seg = false)
                     (filter (fun x => negb (x =? "")%string) (split_on "/" s))).
  { apply Forall_forall. intros x Hx. apply filter_In in Hx as [Hx _].
    revert x Hx. apply Forall_forall. apply split_on_clean. }
  induction H as [|x l Hx Hl IH]; [reflexivity|].
  destruct l; [exact Hx | exact IH].
Qed.

(** At the call site of [tidy] the arguments of [isNotSpecial] are
    swapped: the test never looks at the entry, whose printed path can
    not equal a base name. *)
Lemma isNotSpecial_ignores_entry version p :
  Updater.isNotSpecial version (show p)
  = negb (includes ["bin"; "current"] (str_basename version)).
Proof.
  unfold Updater.isNotSpecial, includes. cbn [existsb].
  replace (str_basename version =? show p)%string with false; [reflexivity|].
  symmetry. apply String.eqb_neq. intros E.
  pose proof (str_basename_clean version) as H. rewrite E in H. discriminate.
Qed.

(** C2.  The protection test of [tidy] is called with its arguments
    swapped and so never looks at the entry: it depends on the version
    of the configuration alone.  On day 100 of an installation made on
    day 0, [tidy] removes the shim directory [bin], the pointer
    [current] and the directory of the active version 1.0.0 from the
    client root; and an update that finds the CLI up to date, which
    touches the active version first (and with it what [current] leads
    to), still removes [bin]. *)
Theorem tidy_removes_protected_entries :
  (forall version p,
      Updater.isNotSpecial version (show p)
      = negb (includes ["bin"; "current"] (str_basename version)))
  /\ (let w := Demo.world_at (100 * Demo.day) in
      let r := Updater.tidy Demo.updater w in
      Config.version (Updater.config Demo.updater) = "1.0.0"
      /\ lookup ["data"; "client"] (fs w)
         = Some (Dir [("bin", Dir [] 0);
                      ("current", Symlink "./1.0.0" 0);
                      ("1.0.0", Dir [("bin", Dir [("xata", File "#!/bin/sh" 0)] 0)] 0)]
                     0)
      /\ fst r = Ok tt
      /\ lookup ["data"; "client"] (fs (snd r)) = Some (Dir [] 0)
      /\ rev (log (snd r))
         = [EUxDebug ["tidy"];
            EFs (OpRm ["data"; "client"; "1.0.0"]);
            EFs (OpRm ["data"; "client"; "bin"]);
            EFs (OpRm ["data"; "client"; "current"])])
  /\ (let w1 := Demo.world_in (Demo.env_of "1.0.0") (100 * Demo.day) in
      let r1 := Updater.runUpdate Demo.updater (Options.mk false None None None) w1 in
      fst r1 = Ok tt
      /\ lookup ["data"; "client"] (fs (snd r1))
         = Some (Dir [("current", Symlink "./1.0.0" 0);
                      ("1.0.0",
                       Dir [("bin", Dir [("xata", File "#!/bin/sh" 0)] 0)]
                           (100 * Demo.day))] 0)).
Proof.
  split; [exact isNotSpecial_ignores_entry|].
  vm_compute. repeat split; reflexivity.
Qed.

(** * The channel resolver *)

Lemma determineChannel_run config version w persisted :
  persisted_channel config w = Some persisted ->
  fst (determineChannel config version w)
  = match dist_tags (env w) (registry_url config) with
    | Ok tags =>
        let tag := match matching_tag tags version with
                   | Some t => t
                   | None => persisted
                   end in
        Ok (if (tag =? "latest")%string then "stable"
            else if (tag =? "latest-rc")%string then "stable-rc"
            else tag)
    | Err Pending => Err Pending
    | Err _ => Ok persisted
    end.
Proof.
  unfold persisted_channel, determineChannel, matching_tag.
  unfold bind at 1, existsSync at 1. intros Hp.
  destruct (lookup (join (Config.dataDir config) "channel") (fs w))
    as [[s t| |]|] eqn:Hl; try discriminate; injection Hp as <-.
  - unfold bind at 1. unfold bind at 1, readFile. rewrite Hl. cbn [ret].
    unfold try_catch, bind, request. cbn [env with_log].
    destruct (dist_tags (env w) (registry_url config)) as [tags|e];
      [|now destruct e].
    cbn zeta. repeat destruct (_ =? _)%string; reflexivity.
  - unfold bind at 1. cbn [ret].
    unfold try_catch, bind, request. cbn [env with_log].
    destruct (dist_tags (env w) (registry_url config)) as [tags|e];
      [|now destruct e].
    cbn zeta. repeat destruct (_ =? _)%string; reflexivity.
Qed.

(** C8.  With a channel file that is absent or readable: the tag that
    the remote mapping gives for the target version becomes [stable] when
    it is [latest], [stable-rc] when it is [latest-rc], and is returned
    as it is otherwise; and when the remote query is rejected, whatever
    the error, the persisted channel is returned, the trimmed content of
    the channel file or [stable] when there is no channel file, and
    nothing is raised. *)
Theorem determineChannel_resolves config version w persisted :
  persisted_channel config w = Some persisted ->
  (forall tags tag,
      dist_tags (env w) (registry_url config) = Ok tags ->
      matching_tag tags version = Some tag ->
      dict_get tag tags = version
      /\ (tag = "latest" ->
          fst (determineChannel config version w) = Ok "stable")
      /\ (tag = "latest-rc" ->
          fst (determineChannel config version w) = Ok "stable-rc")
      /\ (tag <> "latest" -> tag <> "latest-rc" ->
          fst (determineChannel config version w) = Ok tag))
  /\ (forall e,
        dist_tags (env w) (registry_url config) = Err e -> e <> Pending ->
        fst (determineChannel config version w) = Ok persisted)
  /\ (lookup (join (Config.dataDir config) "channel") (fs w) = None ->
      persisted = "stable")
  /\ (forall s t,
        lookup (join (Config.dataDir config) "channel") (fs w) = Some (File s t) ->
        persisted = trim s).
Proof.
  intros Hp. pose proof (determineChannel_run config version w persisted Hp) as Hrun.
  split; [|split; [|split]].
  - intros tags tag Ht Hm. rewrite Ht, Hm in Hrun. cbn zeta in Hrun.
    split; [|split; [|split]].
    + unfold matching_tag in Hm. apply find_some in Hm as [_ Hm].
      unfold opt_eqb in Hm. destruct (dict_get tag tags), version;
        try discriminate; [|reflexivity].
      apply String.eqb_eq in Hm. now subst.
    + intros ->. exact Hrun.
    + intros ->. exact Hrun.
    + intros H1 H2. apply String.eqb_neq in H1, H2. now rewrite H1, H2 in Hrun.
  - intros e He Hne. rewrite He in Hrun. now destruct e.
  - intros Hl. unfold persisted_channel in Hp. rewrite Hl in Hp. congruence.
  - intros s t Hl. unfold persisted_channel in Hp. rewrite Hl in Hp. congruence.
Qed.

Lemma determineChannel_resolves_witness :
  fst (determineChannel (Demo.config_at "1.0.0") (Some "2.0.0") (Demo.world_at 0))
  = Ok "stable"
  /\ fst (determineChannel (Demo.config_at "1.0.0") (Some "2.0.0") offline_world)
     = Ok "beta".
Proof.
  split.
  - destruct (determineChannel_resolves (Demo.config_at "1.0.0") (Some "2.0.0")
                (Demo.world_at 0) "stable" eq_refl) as (Hremote & _).
    destruct (Hremote [("latest", "2.0.0"); ("next", "3.0.0")] "latest"
                eq_refl eq_refl) as (_ & Hlatest & _).
    exact (Hlatest eq_refl).
  - destruct (determineChannel_resolves (Demo.config_at "1.0.0") (Some "2.0.0")
                offline_world "beta" eq_refl) as (_ & Hoffline & _).
    apply (Hoffline (JsError "offline")); [reflexivity | discriminate].
Defined.

(** * Traces of the updater *)

Section Steady.
Variable ro : bool.
Variable P : Event -> Prop.

Lemma steady_still A (m : M A) : (forall w, snd (m w) = w) -> steady ro P m.
Proof.
  intros H w. rewrite H. repeat split. exists []. split; [reflexivity | constructor].
Qed.

Lemma steady_ret A (a : A) : steady ro P (ret a).
Proof. now apply steady_still. Qed.

Lemma steady_throw A e : steady ro P (@throw A e).
Proof. now apply steady_still. Qed.

Lemma steady_now : steady ro P now.
Proof. now apply steady_still. Qed.

Lemma steady_host : steady ro P host.
Proof. now apply steady_still. Qed.

Lemma steady_existsSync p : steady ro P (existsSync p).
Proof. now apply steady_still. Qed.

Lemma steady_readFile p : steady ro P (readFile p).
Proof.
  apply steady_still. intros w. unfold readFile.
  destruct (lookup p (fs w)) as [[]|]; reflexivity.
Qed.

Lemma steady_readdir p : steady ro P (readdir p).
Proof.
  apply steady_still. intros w. unfold readdir.
  destruct (lookup p (fs w)) as [[]|]; reflexivity.
Qed.

Lemma steady_stat p : steady ro P (stat p).
Proof.
  apply steady_still. intros w. unfold stat.
  destruct (stat_at p (fs w)); reflexivity.
Qed.

Lemma steady_unsettle A (r : result A) : steady ro P (unsettle r).
Proof. destruct r; now apply steady_still. Qed.

Lemma steady_emit e : P e -> steady ro P (emit e).
Proof.
  intros H w. repeat split. exists [e]. split; [reflexivity | now constructor].
Qed.

Lemma steady_request A ev (answer : Env -> result A) :
  P ev -> steady ro P (request ev answer).
Proof.
  intros H w. repeat split. exists [ev]. split; [reflexivity | now constructor].
Qed.

Lemma steady_runHook h c v : P (EHook h c v) -> steady ro P (runHook h c v).
Proof.
  intros H w. unfold runHook. cbn [env with_log].
  destruct (hook_outcome _ _ _ _); repeat split;
    exists [EHook h c v]; (split; [reflexivity | now constructor]).
Qed.

Lemma steady_Config_load root :
  P (EConfigLoad root) -> steady ro P (Config_load root).
Proof.
  intros H w. repeat split. exists [EConfigLoad root].
  split; [reflexivity | now constructor].
Qed.

Lemma steady_wait ms : P (EWait ms) -> steady ro P (Util.wait ms).
Proof.
  intros H w. repeat split. exists [EWait ms].
  split; [reflexivity | now constructor].
Qed.

Lemma steady_bind A B (m : M A) (k : A -> M B) :
  steady ro P m -> (forall a, steady ro P (k a)) -> steady ro P (bind m k).
Proof.
  intros Hm Hk w. unfold bind. destruct (Hm w) as (He & Hf & evs & Hl & Hp).
  destruct (m w) as [[a|e] w1]; cbn [snd] in *.
  - destruct (Hk a w1) as (He' & Hf' & evs' & Hl' & Hp').
    split; [congruence|]. split; [intros E; rewrite Hf', Hf; auto|].
    exists (evs' ++ evs). split; [now rewrite Hl', Hl, app_assoc|].
    apply Forall_app. auto.
  - repeat split; eauto.
Qed.

Lemma steady_bind_with A B (Q : A -> Prop) (m : M A) (k : A -> M B) :
  steady ro P m ->
  (forall w a w1, m w = (Ok a, w1) -> Q a) ->
  (forall a, Q a -> steady ro P (k a)) ->
  steady ro P (bind m k).
Proof.
  intros Hm HQ Hk w. unfold bind. destruct (Hm w) as (He & Hf & evs & Hl & Hp).
  destruct (m w) as [[a|e] w1] eqn:E; cbn [snd] in *.
  - destruct (Hk a (HQ _ _ _ E) w1) as (He' & Hf' & evs' & Hl' & Hp').
    split; [congruence|]. split; [intros E'; rewrite Hf', Hf; auto|].
    exists (evs' ++ evs). split; [now rewrite Hl', Hl, app_assoc|].
    apply Forall_app. auto.
  - repeat split; eauto.
Qed.

Lemma steady_try_catch A (m : M A) h :
  steady ro P m -> (forall e, steady ro P (h e)) -> steady ro P (try_catch m h).
Proof.
  intros Hm Hh w. unfold try_catch. destruct (Hm w) as (He & Hf & evs & Hl & Hp).
  destruct (m w) as [[a|e] w1]; cbn [snd] in *.
  - repeat split; eauto.
  - destruct (Hh e w1) as (He' & Hf' & evs' & Hl' & Hp').
    destruct e; cbn [snd]; [| |repeat split; eauto].
    all: split; [congruence|]; split; [intros E; rewrite Hf', Hf; auto|];
      exists (evs' ++ evs); (split; [now rewrite Hl', Hl, app_assoc|]);
      apply Forall_app; auto.
Qed.

Lemma steady_settle A (m : M A) : steady ro P m -> steady ro P (settle m).
Proof.
  intros Hm w. unfold settle. specialize (Hm w).
  destruct (m w) as [r w1]. exact Hm.
Qed.

Lemma steady_stats dir names : steady ro P (Util.stats dir names).
Proof.
  induction names as [|f rest IH]; cbn [Util.stats]; [apply steady_ret|].
  apply steady_bind; [apply steady_stat|]. intros t.
  apply steady_bind; [exact IH|]. intros l. apply steady_ret.
Qed.

Lemma steady_debounce cacheDir :
  (forall s, P (EUxLog s)) -> (forall ms, P (EWait ms)) ->
  steady ro P (debounce cacheDir).
Proof.
  intros Hlog Hwait w.
  remember (waits_left (join cacheDir "lastrun") w) as k eqn:Hk.
  revert w Hk. induction k as [|k IH]; intros w Hk; rewrite debounce_step;
    unfold mtime, stat;
    destruct (stat_at (join cacheDir "lastrun") (fs w)) as [m|] eqn:Hl;
    try (repeat split; exists []; split; [reflexivity | constructor]).
  - symmetry in Hk. apply (waits_left_zero _ _ _ Hl) in Hk.
    destruct (Z.gtb_spec (addHours (env w) 1 m) (clock w)); [lia|].
    apply (steady_emit _ (Hlog _)).
  - destruct (Z.gtb_spec (addHours (env w) 1 m) (clock w)) as [Hgt|Hle];
      [|apply (steady_emit _ (Hlog _))].
    assert (Hlt : clock w < addHours (env w) 1 m) by lia.
    pose proof (waits_left_later _ _ _ Hl Hlt) as Hs.
    rewrite <- Hk in Hs. injection Hs as Hs.
    destruct (IH (a_minute_later w (addHours (env w) 1 m)) Hs)
      as (He & Hf & evs & Hlg & Hp).
    fold (a_minute_later w (addHours (env w) 1 m)).
    split; [exact He|]. split; [exact Hf|].
    exists (evs ++ [EWait (60 * 1000);
                    EUxLog ("waiting until "
                            +++ toISOString (env w) (addHours (env w) 1 m)
                            +++ " to update")]).
    split; [rewrite Hlg, <- app_assoc; reflexivity|].
    apply Forall_app. split; [exact Hp|]. repeat constructor; auto.
Qed.
End Steady.

Lemma steady_fs_step P op f : P (EFs op) -> steady false P (fs_step op f).
Proof.
  intros H w. unfold fs_step.
  destruct (f (fs w) (clock w)); (split; [reflexivity|]);
    (split; [discriminate|]); exists [EFs op];
    (split; [reflexivity | now constructor]).
Qed.

Lemma steady_weaken A ro P Q (m : M A) :
  (forall e, P e -> Q e) -> steady true P m -> steady ro Q m.
Proof.
  intros HPQ Hm w. destruct (Hm w) as (He & Hf & evs & Hl & Hp).
  split; [exact He|]. split; [auto|]. exists evs. split; [exact Hl|].
  eapply Forall_impl; eauto.
Qed.

Lemma steady_promise_all ro P ms :
  Forall (steady ro P) ms -> steady ro P (promise_all ms).
Proof.
  induction 1 as [|m rest Hm Hrest IH]; cbn [promise_all]; [apply steady_ret|].
  intros w. destruct (Hm w) as (He & Hf & evs & Hl & Hp).
  destruct (m w) as [[a|e] w1]; cbn [snd] in *;
    destruct (IH w1) as (He' & Hf' & evs' & Hl' & Hp');
    destruct (promise_all rest w1) as [r w2]; cbn [snd] in *;
    (split; [congruence|]); (split; [intros E; rewrite Hf', Hf; auto|]);
    exists (evs' ++ evs); (split; [now rewrite Hl', Hl, app_assoc|]);
    apply Forall_app; auto.
Qed.

Ltac steady_step :=
  match goal with
  | |- steady _ _ (bind _ _) => apply steady_bind; [|intros ?]
  | |- steady _ _ (try_catch _ _) => apply steady_try_catch; [|intros ?]
  | |- steady _ _ (ret _) => apply steady_ret
  | |- steady _ _ (throw _) => apply steady_throw
  | |- steady _ _ now => apply steady_now
  | |- steady _ _ host => apply steady_host
  | |- steady _ _ (emit _) => apply steady_emit
  | |- steady _ _ (existsSync _) => apply steady_existsSync
  | |- steady _ _ (readFile _) => apply steady_readFile
  | |- steady _ _ (readdir _) => apply steady_readdir
  | |- steady _ _ (stat _) => apply steady_stat
  | |- steady _ _ (unsettle _) => apply steady_unsettle
  | |- steady _ _ (settle _) => apply steady_settle
  | |- steady _ _ (request _ _) => apply steady_request
  | |- steady _ _ (runHook _ _ _) => apply steady_runHook
  | |- steady _ _ (Config_load _) => apply steady_Config_load
  | |- steady _ _ (Util.wait _) => apply steady_wait
  | |- steady _ _ (Util.stats _ _) => apply steady_stats
  | |- steady false _ (fs_step _ _) => apply steady_fs_step
  | |- steady _ _ (if ?b then _ else _) => destruct b
  | |- steady _ _ (match ?x with _ => _ end) => destruct x
  | |- quiet _ => exact I
  end.

Ltac steady_tac :=
  unfold ux_log, ux_debug, ux_warn, ux_warn_msg, ux_action_start,
    ux_action_stop, debug, catch_with, rm, mkdir, writeFile, utimes, symlink,
    mtime;
  repeat steady_step.

Lemma steady_ext A ro P (m m' : M A) :
  (forall w, m w = m' w) -> steady ro P m' -> steady ro P m.
Proof. intros E H w. rewrite E. apply H. Qed.

(** The tar extraction under the filter of tar.ts makes directories and
    writes files, and prints the names when asked to. *)
Lemma steady_tarExtract (P : Event -> Prop) cwd s :
  (forall m, P (EDebug m)) -> (forall p, P (EFs (OpMkdir p))) ->
  (forall p d, P (EFs (OpWriteFile p d))) ->
  steady false P (tarExtract cwd ignore s).
Proof.
  intros Hd Hm Hw. induction s as [|[h body|e] rest IH].
  - apply steady_ret.
  - apply (steady_ext _ _ _ _ _ (tarExtract_entry cwd h body rest)).
    unfold filtered, accepted. steady_tac; try exact IH; auto.
    intros w. destruct (debug_files w).
    + apply (steady_emit false P (EDebug (name h)) (Hd _)).
    + repeat split. exists []. split; [reflexivity | constructor].
  - apply steady_throw.
Qed.

(** The calls of the file system and the terminal always settle. *)
Lemma settles_ret A (a : A) : settles (ret a).
Proof. intros w w'. discriminate. Qed.

Lemma settles_throw A e : e <> Pending -> settles (@throw A e).
Proof. intros H w w' E. injection E as E _. contradiction. Qed.

Lemma settles_bind A B (m : M A) (k : A -> M B) :
  settles m -> (forall a, settles (k a)) -> settles (bind m k).
Proof.
  intros Hm Hk w w'. unfold bind. destruct (m w) as [[a|e] w1] eqn:E.
  - apply Hk.
  - intros [= -> ->]. now apply Hm in E.
Qed.

Lemma settles_try_catch A (m : M A) h :
  settles m -> (forall e, e <> Pending -> settles (h e)) ->
  settles (try_catch m h).
Proof.
  intros Hm Hh w w'. unfold try_catch. destruct (m w) as [[a|e] w1] eqn:E.
  - discriminate.
  - destruct e; [apply Hh; discriminate | apply Hh; discriminate |].
    now apply Hm in E.
Qed.

Lemma settles_still A (m : M A) :
  (forall w, fst (m w) <> Err Pending) -> settles m.
Proof. intros H w w' E. apply (H w). now rewrite E. Qed.

Lemma settles_emit e : settles (emit e).
Proof. now apply settles_still. Qed.

Lemma settles_fs_step op f :
  (forall r t, f r t <> Err Pending) -> settles (fs_step op f).
Proof.
  intros H w w'. unfold fs_step. destruct (f (fs w) (clock w)) as [r|e] eqn:E;
    [discriminate|].
  intros [= -> _]. now apply H in E.
Qed.

Ltac fs_settles :=
  apply settles_fs_step; intros ? ? H;
  repeat match type of H with
         | context [match ?x with _ => _ end] => destruct x
         | context [if ?x then _ else _] => destruct x
         end;
  discriminate.

Lemma settles_rm p : settles (rm p).
Proof. unfold rm. fs_settles. Qed.

Lemma settles_mkdir p : settles (mkdir p).
Proof. unfold mkdir. fs_settles. Qed.

Lemma settles_writeFile p data : settles (writeFile p data).
Proof. unfold writeFile. fs_settles. Qed.

Lemma settles_utimes p t : settles (utimes p t).
Proof. unfold utimes. fs_settles. Qed.

Lemma settles_symlink target p : settles (symlink target p).
Proof. unfold symlink. fs_settles. Qed.

Lemma settles_rename src dst : settles (rename src dst).
Proof. unfold rename, rename_fs. fs_settles. Qed.

Lemma settles_cp src dst : settles (cp src dst).
Proof. unfold cp. fs_settles. Qed.

Lemma settles_existsSync p : settles (existsSync p).
Proof. now apply settles_still. Qed.

Lemma settles_readFile p : settles (readFile p).
Proof.
  apply settles_still. intros w. unfold readFile.
  destruct (lookup p (fs w)) as [[]|]; discriminate.
Qed.

Lemma settles_readdir p : settles (readdir p).
Proof.
  apply settles_still. intros w. unfold readdir.
  destruct (lookup p (fs w)) as [[]|]; discriminate.
Qed.

Lemma settles_stat p : settles (stat p).
Proof.
  apply settles_still. intros w. unfold stat.
  destruct (stat_at p (fs w)); discriminate.
Qed.

Lemma settles_now : settles now.
Proof. now apply settles_still. Qed.

Lemma settles_host : settles host.
Proof. now apply settles_still. Qed.

Lemma settles_stats dir names : settles (Util.stats dir names).
Proof.
  induction names as [|f rest IH]; cbn [Util.stats]; [apply settles_ret|].
  apply settles_bind; [apply settles_stat|]. intros t.
  apply settles_bind; [exact IH|]. intros l. apply settles_ret.
Qed.

Lemma settles_promise_all ms :
  Forall (fun m : M unit => settles m) ms -> settles (promise_all ms).
Proof.
  induction 1 as [|m rest Hm Hrest IH]; cbn [promise_all]; [apply settles_ret|].
  intros w w'. destruct (m w) as [[a|e] w1] eqn:E; [apply IH|].
  destruct (promise_all rest w1) as [r w2].
  destruct e; try discriminate. now apply Hm in E.
Qed.

Ltac settles_step :=
  match goal with
  | |- settles (bind _ _) => apply settles_bind; [|intros ?]
  | |- settles (try_catch _ _) => apply settles_try_catch; [|intros ? ?]
  | |- settles (ret _) => apply settles_ret
  | |- settles (throw _) => apply settles_throw; (discriminate || assumption)
  | |- settles now => apply settles_now
  | |- settles host => apply settles_host
  | |- settles (emit _) => apply settles_emit
  | |- settles (existsSync _) => apply settles_existsSync
  | |- settles (readFile _) => apply settles_readFile
  | |- settles (readdir _) => apply settles_readdir
  | |- settles (stat _) => apply settles_stat
  | |- settles (Util.stats _ _) => apply settles_stats
  | |- settles (rm _) => apply settles_rm
  | |- settles (mkdir _) => apply settles_mkdir
  | |- settles (writeFile _ _) => apply settles_writeFile
  | |- settles (utimes _ _) => apply settles_utimes
  | |- settles (symlink _ _) => apply settles_symlink
  | |- settles (rename _ _) => apply settles_rename
  | |- settles (cp _ _) => apply settles_cp
  | |- settles (if ?b then _ else _) => destruct b
  | |- settles (match ?x with _ => _ end) => destruct x
  end.

Ltac settles_tac :=
  unfold ux_log, ux_debug, ux_warn, ux_warn_msg, ux_action_start,
    ux_action_stop, debug, catch_with, mtime;
  repeat settles_step.

Lemma quiet_debounce ro cacheDir : steady ro quiet (debounce cacheDir).
Proof. apply steady_debounce; intros; exact I. Qed.

Lemma quiet_notUpdatable ro config : steady ro quiet (notUpdatable config).
Proof. unfold notUpdatable. steady_tac. Qed.

Lemma quiet_determineChannel ro config version :
  steady ro quiet (determineChannel config version).
Proof. unfold determineChannel. steady_tac. Qed.

Lemma quiet_determineCurrentVersion ro clientBin version :
  steady ro quiet (determineCurrentVersion clientBin version).
Proof. unfold determineCurrentVersion. steady_tac. Qed.

Lemma quiet_resolve_both ro this options :
  steady ro quiet (Updater.resolve_both this options).
Proof.
  unfold Updater.resolve_both. steady_tac.
  - apply quiet_determineChannel.
  - apply quiet_determineCurrentVersion.
Qed.

Lemma quiet_resolve ro this options :
  steady ro quiet (Updater.resolve this options).
Proof.
  unfold Updater.resolve. steady_tac;
    auto using quiet_debounce, quiet_notUpdatable, quiet_resolve_both.
Qed.

Lemma quiet_ensureClientDir root : steady false quiet (ensureClientDir root).
Proof. unfold ensureClientDir. steady_tac. Qed.

Lemma quiet_createBin this version :
  steady false quiet (Updater.createBin this version).
Proof. unfold Updater.createBin. steady_tac. Qed.

Lemma quiet_refreshConfig this version :
  steady false quiet (Updater.refreshConfig this version).
Proof. unfold Updater.refreshConfig. steady_tac. Qed.

Lemma quiet_updateToExistingVersion this current updated :
  steady false quiet (Updater.updateToExistingVersion this current updated).
Proof.
  unfold Updater.updateToExistingVersion. steady_tac;
    auto using quiet_ensureClientDir, quiet_refreshConfig, quiet_createBin.
Qed.

Lemma quiet_findLocalVersion this version :
  steady false quiet (Updater.findLocalVersion this version).
Proof.
  unfold Updater.findLocalVersion, Updater.findLocalVersions. steady_tac.
  apply quiet_ensureClientDir.
Qed.

Lemma tidy_event_quiet e : tidy_event e -> quiet e.
Proof. destruct e; simpl; auto. Qed.

Lemma tidy_run this w :
  exists w' tidied,
    Updater.tidy this w = (Ok tt, w')
    /\ env w' = env w
    /\ log w' = tidied ++ EUxDebug ["tidy"] :: log w
    /\ Forall tidy_event tidied.
Proof.
  unfold Updater.tidy, ux_debug. unfold bind at 1, emit at 1.
  set (w1 := with_log _ w).
  match goal with
  | |- context [try_catch ?m ?h w1] =>
      assert (Hm : steady false tidy_event m);
      [|assert (Hh : forall e, steady false tidy_event (h e))]
  end.
  - unfold rm, Util.ls. repeat steady_step.
    apply steady_promise_all. apply Forall_forall. intros m Hin.
    apply in_map_iff in Hin as (f & <- & _). apply steady_fs_step. exact I.
  - intros e. apply steady_emit. exact I.
  - unfold try_catch.
    destruct (Hm w1) as (He & _ & evs & Hl & Hp).
    match goal with
    | |- context [let (r, w') := ?m w1 in _] =>
        assert (Hs : settles m);
        [|destruct (m w1) as [[[]|e] w2] eqn:Em; cbn [snd] in *]
    end.
    + unfold Util.ls. settles_tac. apply settles_promise_all.
      apply Forall_forall. intros m Hin.
      apply in_map_iff in Hin as (f & <- & _). apply settles_rm.
    + exists w2, evs. repeat split; auto.
    + assert (Hw : (match e with
                    | Pending => (Err Pending, w2)
                    | _ => ux_warn e w2
                    end) = ux_warn e w2)
        by (destruct e; try reflexivity; now apply Hs in Em).
      rewrite Hw. eexists _, (EUxWarn e :: evs). split; [reflexivity|].
      cbn [env log with_log]. repeat split; auto.
      * now rewrite Hl.
      * constructor; [exact I | exact Hp].
Qed.

Lemma touch_run this w :
  exists w' touched,
    Updater.touch this w = (Ok tt, w')
    /\ env w' = env w
    /\ log w'
       = touched
         ++ EUxDebug ["touching client at";
                      show (join (Updater.clientRoot this)
                                 (Config.version (Updater.config this)))]
         :: log w
    /\ touch_of (join (Updater.clientRoot this)
                      (Config.version (Updater.config this)))
                touched.
Proof.
  unfold Updater.touch, try_catch, bind, ux_debug, emit, existsSync, ret, now,
    utimes, fs_step.
  cbn [fs clock log with_log with_fs env].
  destruct (lookup _ (fs w)) as [n|] eqn:Hl; cbn [negb].
  - cbn [fs clock log with_log with_fs env]. rewrite Hl.
    eexists _, [_]. split; [reflexivity|]. cbn [env log with_fs with_log].
    repeat split. right. eauto.
  - eexists _, []. split; [reflexivity|]. repeat split. now left.
Qed.

Lemma finish_run this w :
  exists w',
    Updater.finish this w = (Ok tt, w')
    /\ env w' = env w
    /\ ends_with_cleanup (log w')
    /\ exists evs, log w' = evs ++ log w /\ Forall quiet evs.
Proof.
  unfold Updater.finish.
  destruct (touch_run this w) as (w1 & touched & Ht & He1 & Hl1 & Hp1).
  destruct (tidy_run this w1) as (w2 & tidied & Hg & He2 & Hl2 & Hp2).
  unfold bind. rewrite Ht, Hg. unfold ux_debug, emit.
  eexists. split; [reflexivity|]. cbn [env log with_log].
  split; [congruence|]. split.
  - exists (join (Updater.clientRoot this)
                 (Config.version (Updater.config this))),
      touched, tidied, (log w).
    rewrite Hl2, Hl1. repeat split; auto.
  - exists (EUxDebug ["done"] :: tidied ++ EUxDebug ["tidy"]
            :: touched ++ [EUxDebug ["touching client at";
                 show (join (Updater.clientRoot this)
                            (Config.version (Updater.config this)))]]).
    split.
    + rewrite Hl2, Hl1. cbn [app]. f_equal. rewrite <- app_assoc. cbn [app].
      do 2 f_equal. now rewrite <- app_assoc.
    + constructor; [exact I|]. apply Forall_app. split.
      * eapply Forall_impl; [apply tidy_event_quiet | exact Hp2].
      * constructor; [exact I|]. apply Forall_app. split.
        -- destruct Hp1 as [-> | (t & ->)]; repeat constructor.
        -- repeat constructor.
Qed.

(** * The orchestrator *)

Lemma bind_Ok A B (m : M A) (k : A -> M B) w b w' :
  bind m k w = (Ok b, w') ->
  exists a w1, m w = (Ok a, w1) /\ k a w1 = (Ok b, w').
Proof.
  unfold bind. destruct (m w) as [[a|e] w1]; [eauto | discriminate].
Qed.

Lemma bind_inv A B (m : M A) (k : A -> M B) w r w' :
  bind m k w = (r, w') ->
  (exists e, m w = (Err e, w') /\ r = Err e)
  \/ (exists a w1, m w = (Ok a, w1) /\ k a w1 = (r, w')).
Proof.
  unfold bind. destruct (m w) as [[a|e] w1]; [eauto|].
  intros [= <- <-]. eauto.
Qed.

Lemma fs_step_log op f w r w' :
  fs_step op f w = (r, w') -> log w' = EFs op :: log w.
Proof.
  unfold fs_step. destruct (f (fs w) (clock w)); now intros [= <- <-].
Qed.














Lemma mkdirp_existing t p : forall r es m,
  get p (Some r) = Some (Dir es m) -> mkdirp t p r = inr r.
Proof.
  induction p as [|c p IH]; intros r es m H.
  - injection H as ->. reflexivity.
  - destruct r as [| es0 m0 |]; try discriminate. cbn [get] in H. cbn [mkdirp].
    destruct (child c es0) as [k|] eqn:Hk; [|now rewrite get_None in H].
    rewrite (IH k es m H). now rewrite put_child_present.
Qed.

Lemma split_on_absent sep s : has_char sep s = false -> split_on sep s = [s].
Proof.
  induction s as [|c s IH]; [reflexivity|]. cbn [has_char split_on]. intros H.
  apply orb_false_iff in H as [Hc Hs]. rewrite Hc, (IH Hs). reflexivity.
Qed.

Lemma join_segment p f : segment f = true -> join p f = p ++ [f].
Proof.
  unfold segment. intros H. repeat (apply andb_true_iff in H as [H ?]).
  repeat match goal with Hn : negb _ = true |- _ => apply negb_true_iff in Hn end.
  unfold join. rewrite split_on_absent by assumption. cbn [resolve].
  repeat match goal with Hn : (_ =? _)%string = false |- _ => rewrite Hn; clear Hn end.
  cbn [rev]. now rewrite rev_involutive.
Qed.

Lemma ascii_compare_refl a : Ascii.compare a a = Eq.
Proof. apply N.compare_refl. Qed.

Lemma string_leb_trans a : forall b c,
  String.leb a b = true -> String.leb b c = true -> String.leb a c = true.
Proof.
  unfold String.leb.
  induction a as [|x a IH]; intros [|y b] [|z c]; cbn [String.compare];
    try (intros; reflexivity); try discriminate.
  unfold Ascii.compare.
  destruct (N.compare_spec (N_of_ascii x) (N_of_ascii y)) as [E1|E1|E1];
    destruct (N.compare_spec (N_of_ascii y) (N_of_ascii z)) as [E2|E2|E2];
    try discriminate; intros H1 H2.
  - rewrite E1, E2, N.compare_refl. now apply IH with b.
  - rewrite E1. now apply N.compare_lt_iff in E2 as ->.
  - rewrite <- E2. now apply N.compare_lt_iff in E1 as ->.
  - assert (E : (N_of_ascii x < N_of_ascii z)%N) by lia.
    now apply N.compare_lt_iff in E as ->.
Qed.

Lemma prefix_leb v : forall x, String.prefix v x = true -> String.leb v x = true.
Proof.
  unfold String.leb.
  induction v as [|a v IH]; intros [|b x]; cbn [String.prefix String.compare];
    try reflexivity; try discriminate.
  destruct (ascii_dec a b) as [->|]; [|discriminate].
  rewrite ascii_compare_refl. apply IH.
Qed.

Lemma In_insert_name x y l : In y (insert_name x l) <-> y = x \/ In y l.
Proof.
  induction l as [|z l IH]; cbn [insert_name].
  - cbn. intuition.
  - destruct (String.leb x z); cbn [In]; [intuition|]. rewrite IH. intuition.
Qed.

Lemma In_sort_names y l : In y (sort_names l) <-> In y l.
Proof.
  induction l as [|x l IH]; [reflexivity|].
  cbn [sort_names fold_right]. rewrite In_insert_name. fold (sort_names l).
  rewrite IH. cbn. intuition.
Qed.

Lemma insert_name_sorted x l : sorted_names l -> sorted_names (insert_name x l).
Proof.
  unfold sorted_names.
  induction 1 as [|z l Hs IH Hz]; cbn [insert_name].
  - repeat constructor.
  - destruct (String.leb x z) eqn:E.
    + constructor; [now constructor|]. constructor; [exact E|].
      rewrite Forall_forall in *. intros y Hy.
      apply string_leb_trans with z; [exact E | auto].
    + constructor; [exact IH|]. rewrite Forall_forall in *. intros y Hy.
      apply In_insert_name in Hy as [->|Hy]; [|auto].
      destruct (String.leb_total x z) as [H|H]; [congruence | exact H].
Qed.

Lemma sort_names_sorted l : sorted_names (sort_names l).
Proof.
  induction l as [|x l IH]; [constructor|].
  cbn [sort_names fold_right]. now apply insert_name_sorted.
Qed.

(** In a sorted list of names the first one that starts with [v] is [v]
    itself, when [v] is among them. *)
Lemma find_prefix_sorted (keep : string -> bool) v l :
  sorted_names l -> In v l -> keep v = true ->
  find (fun x => String.prefix v x) (filter keep l) = Some v.
Proof.
  intros Hs. induction Hs as [|z l Hs IH Hz]; intros Hin Hk; [destruct Hin|].
  cbn [filter].
  assert (Hv : String.prefix v v = true).
  { clear. induction v as [|a v IH]; [reflexivity|]. cbn.
    destruct (ascii_dec a a); [exact IH | congruence]. }
  destruct (String.eqb_spec z v) as [->|Hne].
  - rewrite Hk. cbn [find]. now rewrite Hv.
  - destruct Hin as [->|Hin]; [congruence|].
    assert (Hp : String.prefix v z = false).
    { destruct (String.prefix v z) eqn:E; [|reflexivity].
      exfalso. apply Hne. apply String.leb_antisym.
      - rewrite Forall_forall in Hz. now apply Hz.
      - now apply prefix_leb. }
    destruct (keep z); cbn [find]; rewrite ?Hp; now apply IH.
Qed.

Lemma In_listing y es : In y (listing es) <-> In y (map fst es).
Proof. apply In_sort_names. Qed.

Lemma basename_join_segment p f : segment f = true -> basename (join p f) = f.
Proof.
  intros H. rewrite (join_segment _ _ H). unfold basename. apply last_last.
Qed.

(** With the names sorted, the lookup of a version that has an entry of
    its own under the client root finds that entry. *)
Lemma local_match_exact this names v :
  forallb segment names = true -> In v names -> not_reserved v = true ->
  local_match this (sort_names names) v = Some v.
Proof.
  intros Hseg Hin Hk. unfold local_match. rewrite map_map.
  rewrite (map_ext_in _ (fun x => x)), map_id.
  - apply (find_prefix_sorted not_reserved);
      [apply sort_names_sorted | now apply In_sort_names | exact Hk].
  - intros x Hx. apply filter_In in Hx as [Hx _].
    apply (proj1 (In_sort_names _ _)) in Hx. apply basename_join_segment.
    rewrite forallb_forall in Hseg. now apply Hseg.
Qed.

Lemma ensureClientDir_existing root w es m :
  lookup root (fs w) = Some (Dir es m) ->
  ensureClientDir root w = (Ok tt, with_log (EFs (OpMkdir root) :: log w) w).
Proof.
  intros H. unfold ensureClientDir, try_catch, mkdir, fs_step.
  now rewrite (mkdirp_existing _ _ _ _ _ H).
Qed.

Lemma findLocalVersion_run this version w es m :
  lookup (Updater.clientRoot this) (fs w) = Some (Dir es m) ->
  Updater.findLocalVersion this version w
  = (Ok (local_match this (listing es) version),
     with_log (EFs (OpMkdir (Updater.clientRoot this)) :: log w) w).
Proof.
  intros H. unfold Updater.findLocalVersion, Updater.findLocalVersions.
  unfold bind at 1. unfold bind at 1.
  rewrite (ensureClientDir_existing _ _ _ _ H).
  unfold bind, readdir. cbn [fs with_log]. rewrite H. reflexivity.
Qed.

Lemma notUpdatable_updatable config :
  truthy (Config.binPath config) = true -> notUpdatable config = ret false.
Proof. intros H. unfold notUpdatable. now rewrite H. Qed.

Lemma resolve_updatable this options w w1 :
  truthy (Config.binPath (Updater.config this)) = true ->
  Updater.resolve this options w <> (Ok None, w1).
Proof.
  intros Hu H. unfold Updater.resolve in H.
  rewrite (notUpdatable_updatable _ Hu) in H.
  apply bind_Ok in H as (? & w2 & _ & H).
  apply bind_Ok in H as (? & w3 & _ & H).
  apply bind_Ok in H as (stuck & w4 & Hs & H).
  injection Hs as <- <-.
  apply bind_Ok in H as (? & w5 & _ & H). discriminate H.
Qed.

Lemma createBin_writes this version w w' :
  Updater.createBin this version w = (Ok tt, w') ->
  In (EFs (OpWriteFile (Updater.clientBin this)
                       (Updater.shim (Updater.config this) version)))
     (log w').
Proof.
  unfold Updater.createBin. intros H.
  apply bind_Ok in H as (? & w1 & _ & H).
  destruct (Config.windows (Updater.config this)).
  - unfold writeFile in H. apply fs_step_log in H. rewrite H. now left.
  - apply bind_Ok in H as (? & w2 & Hw & H).
    unfold writeFile in Hw. apply fs_step_log in Hw.
    assert (Hs : steady false quiet
                   (rm (join (Updater.clientRoot this) "current") ;;
                    symlink ("./" +++ version)
                            (join (Updater.clientRoot this) "current")))
      by steady_tac.
    destruct (Hs w2) as (_ & _ & evs & Hl & _). rewrite H in Hl.
    cbn [snd] in Hl. rewrite Hl, Hw. apply in_or_app. right. now left.
Qed.

Lemma updateToExistingVersion_writes this current updated w this' w' es m :
  lookup (Updater.clientRoot this) (fs w) = Some (Dir es m) ->
  Updater.updateToExistingVersion this current updated w = (Ok this', w') ->
  load (env w) (join (Updater.clientRoot this) updated) (fs w)
  = Ok (Updater.config this')
  /\ In (EFs (OpWriteFile (Updater.clientBin this)
                          (Updater.shim (Updater.config this') updated)))
        (log w').
Proof.
  unfold Updater.updateToExistingVersion. intros Hroot H.
  apply bind_Ok in H as (? & w1 & Hs & H).
  unfold ux_action_start, emit in Hs. injection Hs as _ <-.
  apply bind_Ok in H as (? & w2 & He & H).
  rewrite (ensureClientDir_existing _ _ es m) in He by exact Hroot.
  injection He as _ <-.
  apply bind_Ok in H as (this1 & w3 & Hc & H).
  apply bind_Ok in H as ([] & w4 & Hb & H).
  injection H as <- <-.
  unfold Updater.refreshConfig in Hc.
  apply bind_Ok in Hc as (c & w5 & Hload & Hc). injection Hc as <- <-.
  unfold Config_load in Hload. cbn [env fs with_log] in Hload.
  injection Hload as Hload _.
  apply createBin_writes in Hb. split; [exact Hload | exact Hb].
Qed.

Lemma requested_switches this channel current version w es m l :
  lookup (Updater.clientRoot this) (fs w) = Some (Dir es m) ->
  local_match this (listing es) version = Some l -> l <> "" ->
  Updater.requested this false channel current version w
  = switch_local this channel current version l w.
Proof.
  intros Hroot Hm Hl. unfold Updater.requested, switch_local.
  unfold bind at 1. rewrite (findLocalVersion_run _ _ _ _ _ Hroot), Hm.
  unfold bind at 3. unfold emit at 1.
  assert (Ht : truthy (Some l) = true).
  { cbn. apply String.eqb_neq in Hl. now rewrite Hl. }
  rewrite Ht. reflexivity.
Qed.

Lemma quiet_switch_local this channel current version l :
  steady false quiet (switch_local this channel current version l).
Proof.
  unfold switch_local. steady_tac. apply quiet_updateToExistingVersion.
Qed.

Lemma switch_local_writes this channel current version l w o w' es m :
  lookup (Updater.clientRoot this) (fs w) = Some (Dir es m) ->
  switch_local this channel current version l w = (Ok o, w') ->
  (alreadyOnVersion current (Some l) = true
   /\ o = None
   /\ fs w' = fs w
   /\ hd_error (log w') = Some (EActionStop (Updater.already_message this current)))
  \/ (exists this',
        o = Some this'
        /\ load (env w) (join (Updater.clientRoot this) l) (fs w)
           = Ok (Updater.config this')
        /\ In (EFs (OpWriteFile (Updater.clientBin this)
                                (Updater.shim (Updater.config this') l)))
              (log w')).
Proof.
  unfold switch_local. intros Hroot H.
  apply bind_Ok in H as (? & w1 & He & H).
  unfold emit in He. injection He as _ <-.
  destruct (alreadyOnVersion current (Some l)).
  - left. apply bind_Ok in H as (? & w2 & Hs & H).
    unfold ux_action_stop, emit in Hs. injection Hs as _ <-.
    injection H as <- <-. repeat split.
  - right.
    apply bind_Ok in H as (? & w2 & Hh & H).
    assert (Hw2 : fs w2 = fs w /\ env w2 = env w).
    { unfold runHook in Hh. cbn [env with_log] in Hh.
      destruct (hook_outcome _ _ _ _); [discriminate|].
      injection Hh as _ <-. split; reflexivity. }
    destruct Hw2 as (Hfs2 & Henv2).
    apply bind_Ok in H as (this' & w3 & Hu & H).
    apply updateToExistingVersion_writes with (es := es) (m := m) in Hu
      as (Hload & Hin); [|now rewrite Hfs2].
    rewrite Hfs2, Henv2 in Hload.
    match type of H with
    | ?k w3 = _ => assert (Hs : steady false quiet k) by steady_tac
    end.
    destruct (Hs w3) as (_ & _ & evs & Hl & _). rewrite H in Hl. cbn [snd] in Hl.
    apply bind_Ok in H as (? & w4 & _ & H).
    apply bind_Ok in H as (? & w5 & _ & H).
    apply bind_Ok in H as (? & w6 & _ & H).
    apply bind_Ok in H as (? & w7 & _ & H).
    injection H as <- _. exists this'. split; [reflexivity|].
    split; [exact Hload|].
    rewrite Hl. apply in_or_app. now right.
Qed.

Lemma quiet_keeps_streams evs l url :
  Forall quiet evs -> In (EHttpStream url) (evs ++ l) -> In (EHttpStream url) l.
Proof.
  intros Hq Hin. apply in_app_or in Hin as [Hin|Hin]; [|exact Hin].
  rewrite Forall_forall in Hq. destruct (Hq _ Hin).
Qed.

(** C6, as the code has it.  An explicit version is requested without
    force on an updatable CLI, and the client root has an entry of that
    name, other than [bin] and [current].  Then no archive is
    downloaded; and when the run completes, either the CLI was on that
    version already, the run has stopped with the message that says so
    and the file system is as it was, or the shim has been written with
    a body that refers to the requested version. *)
Theorem switch_to_installed_version this options w v es m r w' :
  Options.version options = Some v -> v <> "" ->
  Updater.forced options = false ->
  truthy (Config.binPath (Updater.config this)) = true ->
  lookup (Updater.clientRoot this) (fs w) = Some (Dir es m) ->
  forallb segment (map fst es) = true ->
  In v (map fst es) -> not_reserved v = true ->
  Updater.runUpdate this options w = (r, w') ->
  (forall url, In (EHttpStream url) (log w') -> In (EHttpStream url) (log w))
  /\ (r = Ok tt ->
      (exists channel w1,
          Updater.resolve this options w = (Ok (Some (channel, v)), w1)
          /\ fs w' = fs w
          /\ hd_error (log w')
             = Some (EActionStop (Updater.already_message this v)))
      \/ (exists c,
            load (env w) (join (Updater.clientRoot this) v) (fs w) = Ok c
            /\ In (EFs (OpWriteFile (Updater.clientBin this) (Updater.shim c v)))
                  (log w'))).
Proof.
  intros Hv Hne Hf Hu Hroot Hseg Hin Hk H.
  pose proof (local_match_exact this _ _ Hseg Hin Hk) as Hm.
  fold (listing es) in Hm.
  unfold Updater.runUpdate in H.
  destruct (quiet_resolve true this options w) as (Henv & Hfs & evs1 & Hl1 & Hq1).
  specialize (Hfs eq_refl).
  apply bind_inv in H as [(e & Hr & ->) | (r0 & w1 & Hr & H)].
  - rewrite Hr in Hl1. cbn [snd] in Hl1. split; [|discriminate].
    intros url. rewrite Hl1. now apply quiet_keeps_streams.
  - rewrite Hr in Hl1, Hfs, Henv. cbn [snd] in Hl1, Hfs, Henv.
    destruct r0 as [[channel current]|];
      [|now apply resolve_updatable in Hr].
    assert (Hd : Updater.decide this options channel current
                 = Updater.requested this false channel current v).
    { unfold Updater.decide. rewrite Hv, Hf. cbn [truthy].
      apply String.eqb_neq in Hne. now rewrite Hne. }
    rewrite Hd in H. clear Hd.
    rewrite <- Hfs in Hroot.
    apply bind_inv in H as [(e & Hq & ->) | (o & w2 & Hq & H)];
      rewrite (requested_switches _ _ _ _ _ _ _ _ Hroot Hm Hne) in Hq;
      destruct (quiet_switch_local this channel current v v w1)
        as (_ & _ & evs2 & Hl2 & Hq2);
      rewrite Hq in Hl2; cbn [snd] in Hl2.
    + split; [|discriminate]. intros url. rewrite Hl2, Hl1. intros Hin'.
      apply quiet_keeps_streams in Hin'; [|exact Hq2].
      now apply quiet_keeps_streams in Hin'.
    + apply switch_local_writes with (es := es) (m := m) in Hq
        as [(Ha & -> & Hfs2 & Hhd) | (this' & -> & Hload & Hin')];
        [| |exact Hroot].
      * injection H as <- <-. split.
        -- intros url. rewrite Hl2, Hl1. intros Hin'.
           apply quiet_keeps_streams in Hin'; [|exact Hq2].
           now apply quiet_keeps_streams in Hin'.
        -- intros _. left. cbn [alreadyOnVersion] in Ha.
           apply String.eqb_eq in Ha. subst current.
           exists channel, w1. rewrite Hfs2, Hfs. auto.
      * destruct (finish_run this' w2) as (w3 & Hfin & _ & _ & evs3 & Hl3 & Hq3).
        rewrite Hfin in H. injection H as <- <-. split.
        -- intros url. rewrite Hl3, Hl2, Hl1. intros Hin2.
           apply quiet_keeps_streams in Hin2; [|exact Hq3].
           apply quiet_keeps_streams in Hin2; [|exact Hq2].
           now apply quiet_keeps_streams in Hin2.
        -- intros _. right. exists (Updater.config this').
           rewrite Hfs, Henv in Hload. split; [exact Hload|].
           rewrite Hl3. apply in_or_app. now right.
Qed.

Lemma switch_to_installed_version_witness :
  let w := with_fs Demo.disk_with_beta (Demo.world_at 0) in
  let r := Updater.runUpdate Demo.updater
             (Options.mk false None None (Some "1.0.0")) w in
  (forall url, In (EHttpStream url) (log (snd r)) -> In (EHttpStream url) (log w))
  /\ (fst r = Ok tt ->
      (exists channel w1,
          Updater.resolve Demo.updater (Options.mk false None None (Some "1.0.0")) w
          = (Ok (Some (channel, "1.0.0")), w1)
          /\ fs (snd r) = fs w
          /\ hd_error (log (snd r))
             = Some (EActionStop (Updater.already_message Demo.updater "1.0.0")))
      \/ (exists c,
            load (env w) (join (Updater.clientRoot Demo.updater) "1.0.0") (fs w)
            = Ok c
            /\ In (EFs (OpWriteFile (Updater.clientBin Demo.updater)
                                    (Updater.shim c "1.0.0")))
                  (log (snd r)))).
Proof.
  cbv zeta.
  set (w := with_fs Demo.disk_with_beta (Demo.world_at 0)).
  set (o := Options.mk false None None (Some "1.0.0")).
  apply (switch_to_installed_version Demo.updater o w "1.0.0"
           [("bin", Dir [("xata", File (Updater.shim (Demo.config_at "2.0.0") "2.0.0") 0)] 0);
            ("current", Symlink "./2.0.0" 0);
            ("1.0.0-beta", Dir [] 0);
            ("1.0.0", Dir [] 0);
            ("2.0.0", Dir [] 0)]
           0).
  - reflexivity.
  - discriminate.
  - reflexivity.
  - reflexivity.
  - vm_compute. reflexivity.
  - vm_compute. reflexivity.
  - cbn. tauto.
  - reflexivity.
  - apply surjective_pairing.
Defined.

(** C6, as the claim states it, fails.  The version 1.0.0 is installed,
    no shim exists yet, so that the CLI takes itself to be on the version
    of its configuration, 1.0.0; and 1.0.0 is requested without force.
    The run stops at [already on version 1.0.0]: it completes, the file
    system is as it was, and no shim has been written. *)
Lemma installed_version_not_activated :
  let w := Demo.world_at 0 in
  let r := Updater.runUpdate Demo.updater
             (Options.mk false None None (Some "1.0.0")) w in
  is_dir (lookup ["data"; "client"; "1.0.0"] (fs w)) = true
  /\ fst r = Ok tt
  /\ fs (snd r) = fs w
  /\ lookup (Updater.clientBin Demo.updater) (fs (snd r)) = None
  /\ hd_error (log (snd r)) = Some (EActionStop (Some "already on version 1.0.0"))
  /\ forall p data, ~ In (EFs (OpWriteFile p data)) (log (snd r)).
Proof.
  vm_compute. repeat split; try reflexivity.
  intros p data H. repeat (destruct H as [H|H]; [discriminate|]). exact H.
Qed.

(** C7.  An explicit version is requested, the run reaches the decision,
    the version has to be downloaded (the update is forced or the local
    lookup finds nothing), the [preupdate] hook completes, and the index
    just fetched has no entry for the version.  The code tests
    [!index[version]] on a plain object, a read that goes on to the
    prototype of the object; where the version is not one of the names
    every object inherits, [runUpdate] fails with the message that names
    the version and then lists the versions of the index, separated by
    commas. *)
Theorem index_miss_is_reported this options v w channel current w1 found w2 tags :
  Options.version options = Some v -> v <> "" ->
  Updater.resolve this options w = (Ok (Some (channel, current)), w1) ->
  (if Updater.forced options then ret None
   else Updater.findLocalVersion this v) w1 = (Ok found, w2) ->
  truthy found = false ->
  hook_outcome (env w) "preupdate" channel v = None ->
  releases (env w) = Ok tags ->
  dict_get v (Updater.index_of tags) = None ->
  includes object_prototype v = false ->
  exists w',
    Updater.runUpdate this options w
    = (Err (JsError (v +++ " not found in index:" +++ nl
                     +++ String.concat ", " (dict_keys (Updater.index_of tags)))),
       w').
Proof.
  intros Hv Hne Hr Hf Ht Hhook Hrel Habs Hinh.
  assert (He1 : env w1 = env w).
  { destruct (quiet_resolve false this options w) as (He & _). now rewrite Hr in He. }
  assert (He2 : env w2 = env w1).
  { destruct (Updater.forced options).
    - now injection Hf as _ <-.
    - destruct (quiet_findLocalVersion this v w1) as (He & _). now rewrite Hf in He. }
  unfold Updater.runUpdate. unfold bind at 1. rewrite Hr.
  unfold bind at 1, Updater.decide. rewrite Hv. cbn [truthy].
  apply String.eqb_neq in Hne. rewrite Hne. cbn [negb].
  unfold Updater.requested. unfold bind at 1. rewrite Hf, Ht.
  cbn [alreadyOnVersion]. unfold bind at 1, runHook at 1.
  cbn [env with_log]. rewrite He2, He1, Hhook.
  unfold bind at 1. unfold bind at 1.
  unfold Updater.fetchVersionIndex, try_catch, bind at 1, request.
  cbn [env with_log]. rewrite He2, He1, Hrel. cbn [ret].
  unfold prop_get. rewrite Habs, Hinh. cbn [js_truthy negb]. unfold throw. eauto.
Qed.

Lemma index_miss_is_reported_witness :
  exists w',
    Updater.runUpdate Demo.updater (Options.mk false None None (Some "9.9.9"))
                      (Demo.world_at 0)
    = (Err (JsError ("9.9.9 not found in index:" +++ nl +++ "1.0.0, 2.0.0")), w').
Proof.
  set (o := Options.mk false None None (Some "9.9.9")).
  set (w := Demo.world_at 0).
  refine (index_miss_is_reported Demo.updater o "9.9.9" w "stable" "1.0.0"
            (snd (Updater.resolve Demo.updater o w)) None
            (snd (Updater.findLocalVersion Demo.updater "9.9.9"
                    (snd (Updater.resolve Demo.updater o w))))
            ["@xata.io/cli@1.0.0"; "@xata.io/cli@2.0.0"; "@xata.io/client@0.30.0"]
            eq_refl _ _ _ eq_refl eq_refl eq_refl eq_refl eq_refl);
    [discriminate | vm_compute; reflexivity | vm_compute; reflexivity].
Defined.

(** C7, as the claim states it, fails for a version named like a
    property that every object inherits.  The registry lists the
    versions 1.0.0 and 2.0.0 and the version [constructor] is requested:
    the read [index["constructor"]] finds the function every object
    inherits under that name, no error is raised, and the run downloads
    an archive and installs it as the version [constructor]. *)
Lemma inherited_name_passes_the_index :
  let w := Demo.world_at 0 in
  let r := Updater.runUpdate Demo.updater
             (Options.mk false None None (Some "constructor")) w in
  (exists tags,
      releases (env w) = Ok tags
      /\ dict_keys (Updater.index_of tags) = ["1.0.0"; "2.0.0"]
      /\ dict_get "constructor" (Updater.index_of tags) = None
      /\ prop_get "constructor" (Updater.index_of tags) = Some JsInherited)
  /\ fst r = Ok tt
  /\ In (EHttpStream "https://www.dwsamplefiles.com/?dl_id=553") (log (snd r))
  /\ is_dir (lookup ["data"; "client"; "constructor"] (fs (snd r))) = true
  /\ match lookup (Updater.clientBin Demo.updater) (fs (snd r)) with
     | Some (File body _) => match_version body
     | _ => None
     end = Some "constructor".
Proof.
  cbv zeta. split; [|split; [|split; [|split]]].
  - eexists. split; [reflexivity|]. vm_compute. repeat split.
  - vm_compute. reflexivity.
  - vm_compute. repeat (first [left; reflexivity | right]).
  - vm_compute. reflexivity.
  - vm_compute. reflexivity.
Qed.

(** * The commit step of the extractor *)

Lemma diverge_irrefl p : ~ diverge p p.
Proof. induction p as [|c p IH]; intros H; inversion H; subst; auto. Qed.

Lemma footprint_tarExtract output cwd s :
  steady false (footprint output) (tarExtract cwd ignore s).
Proof. apply steady_tarExtract; intros; exact I. Qed.

Lemma getTmp_diverges output :
  output <> [] ->
  forall w tmp w1, getTmp output w = (Ok tmp, w1) -> diverge tmp output.
Proof.
  intros Ho w tmp w1 H. unfold getTmp, bind, random_digits, ret in H.
  injection H as <- _. apply path_suffix_diverge; [exact Ho | discriminate].
Qed.

Lemma steady_getTmp ro P output : steady ro P (getTmp output).
Proof.
  intros w. unfold getTmp, bind, random_digits, ret. cbn.
  repeat split. exists []. split; [reflexivity | constructor].
Qed.

Lemma footprint_commit output stream b tmp :
  output <> [] -> diverge tmp output ->
  steady false (footprint output) (commit stream b output tmp).
Proof.
  intros Ho Hd. unfold commit, backup, Util.touch.
  apply steady_bind; [apply footprint_tarExtract|]. intros _.
  apply steady_bind; [apply steady_existsSync|]. intros present.
  apply steady_bind.
  - destruct present; [|apply steady_ret].
    apply steady_try_catch.
    + apply steady_bind_with with (Q := fun tmp' => diverge tmp' output);
        [apply steady_getTmp | now apply getTmp_diverges |].
      intros tmp' Hd'. unfold cp. steady_tac; try exact I; try exact Hd'.
      split; [reflexivity | exact Hd'].
    + intros e. steady_tac; try exact I; exact Hd.
  - intros _. unfold rename. steady_tac;
      try exact I; try exact Hd; reflexivity.
Qed.

Lemma footprint_extract stream b output :
  output <> [] -> steady false (footprint output) (extract stream b output).
Proof.
  intros Ho. unfold extract.
  apply steady_bind_with with (Q := fun tmp => diverge tmp output).
  - unfold pick_tmp. apply steady_bind; [apply steady_getTmp|]. intros tmp.
    apply steady_bind; [apply steady_existsSync|]. intros [|];
      [apply steady_getTmp | apply steady_ret].
  - intros w tmp w1 H.
    destruct (pick_tmp_spec output w) as (r & w2 & Hp & _).
    rewrite Hp in H. injection H as <- _.
    apply path_suffix_diverge; [exact Ho | discriminate].
  - intros tmp Hd. apply steady_bind; [now apply steady_emit|]. intros _.
    apply steady_try_catch; [now apply footprint_commit|].
    intros e. steady_tac; try exact I; exact Hd.
Qed.

(** C4.  What the code does with a destination that exists: whatever
    the archive and the inner root name, no removal that [extract]
    issues reaches the destination (each one targets a temporary
    sibling), so the destination is still in place when the rename
    runs; and with the empty inner root name of the updater, a
    destination that is a directory makes the call fail and stays as it
    was. *)
Theorem extract_never_clears_destination stream basename output w :
  output <> [] ->
  (forall p,
      In (EFs (OpRm p)) (log (snd (extract stream basename output w))) ->
      In (EFs (OpRm p)) (log w) \/ diverge p output)
  /\ (is_dir (lookup output (fs w)) = true ->
      exists e w',
        extract stream "" output w = (Err e, w')
        /\ lookup output (fs w') = lookup output (fs w)).
Proof.
  intros Ho. split.
  - intros p Hin.
    destruct (footprint_extract stream basename output Ho w)
      as (_ & _ & evs & Hl & Hp).
    rewrite Hl in Hin. apply in_app_or in Hin as [Hin|Hin]; [|now left].
    right. rewrite Forall_forall in Hp. exact (Hp _ Hin).
  - intros Hdir. now apply extract_over_directory_fails.
Qed.

(** Re-installing 1.0.0 over its populated directory: the copy of the
    directory is refused, the staging directory is removed instead, the
    rename fails, and the old tree is still where it was. *)
Lemma extract_over_installed_version :
  let w := Demo.world_at 0 in
  let r := extract Demo.archive "" Demo.installed w in
  let staged := ["data"; "client"; "1.0.0.partial.01234"] in
  (fst r = Err (SysError "ENOENT" "rename" staged)
   /\ lookup Demo.installed (fs (snd r)) = lookup Demo.installed Demo.disk
   /\ lookup staged (fs (snd r)) = None
   /\ rev (log (snd r))
      = [EDebug "extracting to /data/client/1.0.0.partial.01234";
         EFs (OpMkdir (staged ++ ["bin"]));
         EFs (OpMkdir (staged ++ ["bin"]));
         EFs (OpWriteFile (staged ++ ["bin"; "xata"]) "#!/bin/sh");
         EFs (OpCp Demo.installed ["data"; "client"; "1.0.0.partial.11234"]);
         EDebugError (SysError "ERR_FS_EISDIR" "cp" Demo.installed);
         EFs (OpRm staged);
         EDebug "moving /data/client/1.0.0.partial.01234 to /data/client/1.0.0";
         EFs (OpRename staged Demo.installed);
         EFs (OpRm staged)])
  /\ ~ In (EFs (OpRm Demo.installed)) (log (snd r)).
Proof.
  cbv zeta. split; [vm_compute; repeat split; reflexivity|].
  intros Hin.
  assert (Ho : Demo.installed <> []) by discriminate.
  destruct (extract_never_clears_destination Demo.archive "" Demo.installed
              (Demo.world_at 0) Ho) as (Hrm & _).
  destruct (Hrm _ Hin) as [[]|Hd]. exact (diverge_irrefl _ Hd).
Defined.

Lemma writeFile_Ok p data w w' :
  writeFile p data w = (Ok tt, w') ->
  w' = with_fs (place p (File data (clock w)) (fs w))
               (with_log (EFs (OpWriteFile p data) :: log w) w)
  /\ lookup p (fs w') = Some (File data (clock w)).
Proof.
  unfold writeFile, fs_step. destruct p as [|c p]; [discriminate|].
  destruct (lookup (dirname (c :: p)) (fs w)) as [[| es m |]|] eqn:Hd;
    try discriminate.
  assert (Hl : lookup (c :: p) (place (c :: p) (File data (clock w)) (fs w))
               = Some (File data (clock w))).
  { apply lookup_place_same; [discriminate | now rewrite Hd]. }
  destruct (lookup (c :: p) (fs w)) as [[| es' m' |]|]; try discriminate;
    intros [= <-]; split; auto.
Qed.

Lemma mkdirp_is_dir t p : forall r r',
  mkdirp t p r = inr r' -> is_dir (get p (Some r')) = true.
Proof.
  induction p as [|c p IH]; intros r r' H.
  - destruct r; cbn in H; try discriminate. now injection H as <-.
  - destruct r as [| es m |]; cbn [mkdirp] in H; try discriminate.
    destruct (child c es) as [k|] eqn:Hc.
    + destruct (mkdirp t p k) as [|k'] eqn:Hk; [discriminate|].
      injection H as <-. cbn [get]. rewrite child_put_same. now apply IH with k.
    + injection H as <-. cbn [get]. rewrite child_put_same.
      clear. induction p as [|d p IH]; cbn; [reflexivity|].
      now rewrite String.eqb_refl.
Qed.

Lemma accepted_lands cwd h body w w1 :
  accepted cwd h body w = (Ok tt, w1) ->
  (type h = "directory" ->
   is_dir (lookup (cwd ++ join [] (name h)) (fs w1)) = true)
  /\ (type h = "file" ->
      exists t, lookup (cwd ++ join [] (name h)) (fs w1) = Some (File body t)).
Proof.
  unfold accepted. intros H. apply bind_Ok in H as ([] & w0 & _ & H). split.
  - intros E. rewrite E in H.
    change (("directory" =? "directory")%string) with true in H.
    cbv iota in H. unfold mkdir, fs_step in H.
    destruct (mkdirp _ _ _) as [|r'] eqn:Em; [discriminate|].
    injection H as <-. cbn [fs with_fs]. unfold lookup. now apply mkdirp_is_dir in Em.
  - intros E. rewrite E in H.
    change (("file" =? "directory")%string) with false in H.
    cbv iota in H. apply bind_Ok in H as ([] & w2 & _ & H).
    apply writeFile_Ok in H as [_ H]. eauto.
Qed.

(** C5.  The entry filter lets directories and regular files through,
    passes over symbolic links without a trace, and throws on any other
    type.  What it lets through is extracted: a directory is made, a
    file is written with its content.  An archive extracts exactly as
    the same archive without its symbolic links does, and no call of
    [extract] makes a symbolic link, although the extractor would make
    one for an entry that a filter lets through.  An entry of another
    type never lets [extract] succeed, and the destination is as it was;
    but the exception of the filter is thrown inside the listener of the
    stream, where no [catch] reaches it: when the entries before it
    were extracted, the call stays pending in the world they made, with
    the staging directory in place. *)
Theorem entry_filter :
  (forall nm h w,
      type h = "directory" \/ type h = "file" ->
      exists w1, ignore nm (Some h) w = (Ok false, w1) /\ fs w1 = fs w)
  /\ (forall nm h w,
        type h = "symlink" -> ignore nm (Some h) w = (Ok true, w))
  /\ (forall nm h w,
        supported (type h) = false ->
        ignore nm (Some h) w = (Err (JsError (type h)), w))
  /\ (forall cwd h body rest w,
        type h = "directory" \/ type h = "file" ->
        tarExtract cwd ignore (Entry h body :: rest) w
        = (accepted cwd h body ;; tarExtract cwd ignore rest) w)
  /\ (forall cwd h body w w1,
        accepted cwd h body w = (Ok tt, w1) ->
        (type h = "directory" ->
         is_dir (lookup (cwd ++ join [] (name h)) (fs w1)) = true)
        /\ (type h = "file" ->
            exists t,
              lookup (cwd ++ join [] (name h)) (fs w1) = Some (File body t)))
  /\ (forall cwd s w,
        tarExtract cwd ignore s w
        = tarExtract cwd ignore (filter (fun c => negb (is_symlink_entry c)) s) w)
  /\ (forall stream b output w target p,
        output <> [] ->
        In (EFs (OpSymlink target p)) (log (snd (extract stream b output w))) ->
        In (EFs (OpSymlink target p)) (log w))
  /\ (let link := [Entry (mkHeaders "etc" "symlink" "/etc") ""] in
      let w := Demo.world_at 0 in
      lookup ["data"; "etc"] (fs (snd (tarExtract ["data"] ignore link w))) = None
      /\ lookup ["data"; "etc"]
                (fs (snd (tarExtract ["data"] (fun _ _ => ret false) link w)))
         = Some (Symlink "/etc" 0))
  /\ (forall stream b output w h body,
        output <> [] -> In (Entry h body) stream -> supported (type h) = false ->
        exists e w',
          extract stream b output w = (Err e, w')
          /\ lookup output (fs w') = lookup output (fs w))
  /\ (forall pre h body post b output w w1,
        supported (type h) = false ->
        tarExtract (fst (staging output w)) ignore pre (snd (staging output w))
        = (Ok tt, w1) ->
        extract (pre ++ Entry h body :: post) b output w = (Err Pending, w1)).
Proof.
  split; [|split; [|split; [|split; [|split; [|split; [|split; [|split; [|split]]]]]]]].
  - intros nm h w H. now apply ignore_accepts.
  - intros nm h w H. now apply ignore_skips.
  - intros nm h w H. now apply ignore_throws.
  - intros cwd h body rest w H. rewrite tarExtract_entry. unfold filtered.
    now destruct H as [-> | ->].
  - intros cwd h body w w1 H. exact (accepted_lands cwd h body w w1 H).
  - intros cwd s w. apply tarExtract_drops_symlinks.
  - intros stream b output w target p Ho Hin.
    destruct (footprint_extract stream b output Ho w) as (_ & _ & evs & Hl & Hp).
    rewrite Hl in Hin. apply in_app_or in Hin as [Hin|Hin]; [|exact Hin].
    rewrite Forall_forall in Hp. destruct (Hp _ Hin).
  - vm_compute. split; reflexivity.
  - intros stream b output w h body Ho Hin Hu.
    pose proof (tarExtract_unsupported (fst (staging output w)) stream h body
                  Hin Hu (snd (staging output w))) as (e & w1 & Ht).
    apply (extract_reraises stream b output w) in Ht as (w' & Hw').
    apply extract_failure_keeps in Hw' as Hk; [|assumption].
    destruct Hk. eauto.
  - intros pre h body post b output w w1 Hu Hpre.
    apply extract_pending, commit_tar_error. now apply tarExtract_pending.
Qed.

Lemma entry_filter_witness :
  let output := ["data"; "client"; "2.0.0"] in
  let r := extract fifo_archive "" output (Demo.world_at 0) in
  fst r = Err Pending
  /\ lookup (fst (staging output (Demo.world_at 0)) ++ ["bin"; "xata"]) (fs (snd r))
     = Some (File "#!/bin/sh" 0).
Proof.
  cbv zeta. unfold fifo_archive.
  destruct entry_filter as (_ & _ & _ & _ & _ & _ & _ & _ & _ & Hpending).
  rewrite (Hpending Demo.archive (mkHeaders "pipe" "fifo" "") "" [] ""
             ["data"; "client"; "2.0.0"] (Demo.world_at 0)
             (snd (tarExtract (fst (staging ["data"; "client"; "2.0.0"]
                                            (Demo.world_at 0)))
                              ignore Demo.archive
                              (snd (staging ["data"; "client"; "2.0.0"]
                                            (Demo.world_at 0)))))
             eq_refl eq_refl).
  split; reflexivity.
Defined.

(** C5, as the claim states it, fails at its last part.  An archive
    that holds a named pipe after a directory and a file is extracted to
    the free path /data/client/2.0.0: [ignore] throws [Error("fifo")]
    inside the listener, the call never settles, no [rm] is issued, and
    the staging directory stays behind with the two entries extracted
    before the pipe. *)
Lemma unsupported_entry_leaves_staging :
  let output := ["data"; "client"; "2.0.0"] in
  let r := extract fifo_archive "" output (Demo.world_at 0) in
  ignore "/data/client/2.0.0.partial.01234/pipe"
         (Some (mkHeaders "pipe" "fifo" "")) (Demo.world_at 0)
  = (Err (JsError "fifo"), Demo.world_at 0)
  /\ fst r = Err Pending
  /\ lookup output (fs (snd r)) = None
  /\ lookup ["data"; "client"; "2.0.0.partial.01234"] (fs (snd r))
     = Some (Dir [("bin", Dir [("xata", File "#!/bin/sh" 0)] 0)] 0)
  /\ rev (log (snd r))
     = [EDebug "extracting to /data/client/2.0.0.partial.01234";
        EFs (OpMkdir ["data"; "client"; "2.0.0.partial.01234"; "bin"]);
        EFs (OpMkdir ["data"; "client"; "2.0.0.partial.01234"; "bin"]);
        EFs (OpWriteFile ["data"; "client"; "2.0.0.partial.01234"; "bin"; "xata"]
                         "#!/bin/sh")].
Proof. vm_compute. repeat split; reflexivity. Qed.

(** * The version index *)

Lemma dict_get_None k d : dict_get k d = None <-> ~ In k (dict_keys d).
Proof.
  unfold dict_keys. induction d as [|[k' v'] d IH]; cbn [dict_get map fst In].
  - tauto.
  - destruct (String.eqb_spec k' k) as [->|Hne].
    + split; [discriminate | intros H; exfalso; apply H; now left].
    + rewrite IH. tauto.
Qed.

Lemma dict_keys_replace k v d : dict_keys (dict_replace k v d) = dict_keys d.
Proof.
  unfold dict_keys. induction d as [|[k' v'] d IH]; cbn [dict_replace map fst];
    [reflexivity|].
  destruct (String.eqb_spec k' k) as [->|Hne]; cbn [map fst]; [reflexivity|].
  now rewrite IH.
Qed.

Lemma dict_get_replace_same k v d :
  dict_get k d <> None -> dict_get k (dict_replace k v d) = Some v.
Proof.
  induction d as [|[k' v'] d IH]; cbn [dict_get dict_replace]; [congruence|].
  destruct (String.eqb_spec k' k) as [->|Hne]; cbn [dict_get].
  - now rewrite String.eqb_refl.
  - apply String.eqb_neq in Hne. rewrite Hne. exact IH.
Qed.

Lemma dict_get_replace_other k k0 v d :
  k <> k0 -> dict_get k0 (dict_replace k v d) = dict_get k0 d.
Proof.
  intros Hk. induction d as [|[k' v'] d IH]; cbn [dict_get dict_replace];
    [reflexivity|].
  destruct (String.eqb_spec k' k) as [->|Hne]; cbn [dict_get].
  - apply String.eqb_neq in Hk. now rewrite Hk.
  - now rewrite IH.
Qed.

Lemma dict_keys_insert k k0 v d :
  In k0 (dict_keys (dict_insert k v d)) <-> k0 = k \/ In k0 (dict_keys d).
Proof.
  unfold dict_keys. induction d as [|[k' v'] d IH]; cbn [dict_insert map fst In].
  - intuition.
  - destruct (key_before k k'); cbn [map fst In]; [intuition|].
    rewrite IH. intuition.
Qed.

Lemma dict_get_insert_same k v d :
  dict_get k d = None -> dict_get k (dict_insert k v d) = Some v.
Proof.
  induction d as [|[k' v'] d IH]; cbn [dict_get dict_insert].
  - now rewrite String.eqb_refl.
  - destruct (String.eqb_spec k' k) as [->|Hne]; [discriminate|]. intros H.
    destruct (key_before k k'); cbn [dict_get].
    + now rewrite String.eqb_refl.
    + apply String.eqb_neq in Hne. rewrite Hne. now apply IH.
Qed.

Lemma dict_get_insert_other k k0 v d :
  k <> k0 -> dict_get k0 (dict_insert k v d) = dict_get k0 d.
Proof.
  intros Hk. apply String.eqb_neq in Hk.
  induction d as [|[k' v'] d IH]; cbn [dict_get dict_insert].
  - now rewrite Hk.
  - destruct (key_before k k'); cbn [dict_get]; [now rewrite Hk|].
    now rewrite IH.
Qed.

Lemma dict_insert_NoDup k v d :
  dict_get k d = None -> NoDup (dict_keys d) -> NoDup (dict_keys (dict_insert k v d)).
Proof.
  unfold dict_keys. induction d as [|[k' v'] d IH]; cbn [dict_get dict_insert map fst].
  - intros _ _. repeat constructor. intros [].
  - destruct (String.eqb_spec k' k) as [->|Hne]; [discriminate|].
    intros Hg Hn. inversion Hn as [|? ? Hin Hnd]; subst.
    destruct (key_before k k'); cbn [map fst].
    + constructor; [|exact Hn]. intros [E|Hc]; [congruence|].
      now apply dict_get_None in Hg.
    + constructor; [|now apply IH].
      intros Hc. apply (dict_keys_insert k k' v d) in Hc as [E|Hc]; auto.
Qed.

Lemma dict_get_set_same k v d :
  k <> "__proto__" -> dict_get k (dict_set k v d) = Some v.
Proof.
  intros Hk. unfold dict_set. apply String.eqb_neq in Hk. rewrite Hk.
  destruct (dict_get k d) eqn:E.
  - apply dict_get_replace_same. congruence.
  - now apply dict_get_insert_same.
Qed.

Lemma dict_get_set_other k k0 v d :
  k <> k0 -> dict_get k0 (dict_set k v d) = dict_get k0 d.
Proof.
  intros Hk. unfold dict_set. destruct (k =? "__proto__")%string; [reflexivity|].
  destruct (dict_get k d).
  - now apply dict_get_replace_other.
  - now apply dict_get_insert_other.
Qed.

Lemma dict_set_NoDup k v d :
  NoDup (dict_keys d) -> NoDup (dict_keys (dict_set k v d)).
Proof.
  intros H. unfold dict_set. destruct (k =? "__proto__")%string; [exact H|].
  destruct (dict_get k d) eqn:E.
  - now rewrite dict_keys_replace.
  - now apply dict_insert_NoDup.
Qed.

Lemma key_before_irrefl k : key_before k k = false.
Proof.
  unfold key_before. destruct (array_index k); [apply N.ltb_irrefl | reflexivity].
Qed.

Lemma key_before_next k y z :
  key_before k y = true -> key_before z y = false -> key_before z k = false.
Proof.
  unfold key_before.
  destruct (array_index k) as [i|], (array_index y) as [j|], (array_index z) as [n|];
    try discriminate; try reflexivity.
  intros H1 H2. apply N.ltb_lt in H1. apply N.ltb_ge in H2. apply N.ltb_ge. lia.
Qed.

Lemma dict_insert_ordered k v d :
  key_ordered (dict_keys d) -> key_ordered (dict_keys (dict_insert k v d)).
Proof.
  unfold key_ordered, dict_keys.
  induction d as [|[k' v'] d IH]; cbn [dict_insert map fst]; intros H.
  - repeat constructor.
  - inversion H as [|? ? Hs Hall]; subst.
    destruct (key_before k k') eqn:E; cbn [map fst].
    + constructor; [exact H|]. constructor.
      * unfold key_before in *.
        destruct (array_index k), (array_index k'); try discriminate; try reflexivity.
        apply N.ltb_lt in E. apply N.ltb_ge. lia.
      * rewrite Forall_forall in *. intros z Hz.
        apply (key_before_next k k' z E). now apply Hall.
    + constructor; [now apply IH|]. rewrite Forall_forall in *. intros z Hz.
      apply (dict_keys_insert k z v d) in Hz as [->|Hz]; [exact E | now apply Hall].
Qed.

Lemma dict_set_ordered k v d :
  key_ordered (dict_keys d) -> key_ordered (dict_keys (dict_set k v d)).
Proof.
  intros H. unfold dict_set. destruct (k =? "__proto__")%string; [exact H|].
  destruct (dict_get k d).
  - now rewrite dict_keys_replace.
  - now apply dict_insert_ordered.
Qed.

Lemma index_fold body : forall acc,
  let step := fun acc version =>
    if str_includes version "@xata.io/cli@" then
      dict_set (remove_first version "@xata.io/cli@")
               "LINK_TO_DOWNLOAD_BINARY" acc
    else acc in
  (NoDup (dict_keys acc) -> NoDup (dict_keys (fold_left step body acc)))
  /\ (key_ordered (dict_keys acc) -> key_ordered (dict_keys (fold_left step body acc)))
  /\ forall k,
       dict_get k (fold_left step body acc)
       = if existsb (cli_release k) body && negb (k =? "__proto__")%string
         then Some "LINK_TO_DOWNLOAD_BINARY"
         else dict_get k acc.
Proof.
  induction body as [|tag body IH]; intros acc step; [split; [|split]; auto|].
  cbn [fold_left existsb]. destruct (IH (step acc tag)) as (IHn & IHo & IHg).
  fold step in IHn, IHo, IHg. split; [|split].
  - intros Hn. apply IHn. subst step. cbv beta.
    destruct (str_includes tag "@xata.io/cli@"); [now apply dict_set_NoDup | exact Hn].
  - intros Hn. apply IHo. subst step. cbv beta.
    destruct (str_includes tag "@xata.io/cli@"); [now apply dict_set_ordered | exact Hn].
  - intros k. rewrite IHg. unfold cli_release at 2.
    destruct (String.eqb_spec k "__proto__") as [->|Hp]; cbn [negb].
    + rewrite !andb_false_r. subst step. cbv beta.
      destruct (str_includes tag "@xata.io/cli@"); [|reflexivity].
      destruct (String.eqb_spec (remove_first tag "@xata.io/cli@") "__proto__")
        as [E|Hne].
      * unfold dict_set. now rewrite E.
      * now apply dict_get_set_other.
    + rewrite !andb_true_r.
      destruct (existsb (cli_release k) body); [now rewrite orb_true_r|].
      rewrite orb_false_r. subst step. cbv beta.
      destruct (str_includes tag "@xata.io/cli@"); cbn [andb]; [|reflexivity].
      destruct (String.eqb_spec (remove_first tag "@xata.io/cli@") k) as [<-|Hne].
      * now apply dict_get_set_same.
      * now apply dict_get_set_other.
Qed.

Lemma fetchVersionIndex_world this w :
  snd (Updater.fetchVersionIndex this w)
  = with_log
      (EHttpGet "https://api.github.com/repos/xataio/client-ts/releases" :: log w) w.
Proof.
  unfold Updater.fetchVersionIndex, try_catch, bind, request, ret, throw.
  cbn [env with_log]. now destruct (releases (env w)) as [body|[]].
Qed.

(** X1.  [fetchVersionIndex] makes one request and writes nothing.  When
    the request is answered, the object it returns has a property of
    its own under a version exactly when some release tag contains
    [@xata.io/cli@] and reads as that version once the first occurrence
    of the marker is cut out, the name [__proto__] apart, which never
    becomes a property; each such property holds the placeholder link;
    the keys are pairwise distinct and in the order of [Object.keys],
    array indices first; and a read of any other name finds what every
    object inherits under it, if anything.  When the request is
    rejected, whatever the error, the error raised is
    [No version indices exist for <name>.]; and while the request stays
    pending, so does the call. *)
Theorem fetchVersionIndex_answers this w :
  snd (Updater.fetchVersionIndex this w)
  = with_log
      (EHttpGet "https://api.github.com/repos/xataio/client-ts/releases" :: log w) w
  /\ match releases (env w) with
     | Ok body =>
         exists index,
           fst (Updater.fetchVersionIndex this w) = Ok index
           /\ NoDup (dict_keys index)
           /\ key_ordered (dict_keys index)
           /\ forall k,
                let listed := existsb (cli_release k) body
                              && negb (k =? "__proto__")%string in
                (In k (dict_keys index) <-> listed = true)
                /\ dict_get k index
                   = (if listed then Some "LINK_TO_DOWNLOAD_BINARY" else None)
                /\ prop_get k index
                   = (if listed then Some (JsString "LINK_TO_DOWNLOAD_BINARY")
                      else if includes object_prototype k then Some JsInherited
                      else None)
     | Err Pending => fst (Updater.fetchVersionIndex this w) = Err Pending
     | Err _ =>
         fst (Updater.fetchVersionIndex this w)
         = Err (JsError ("No version indices exist for "
                         +++ Config.name (Updater.config this) +++ "."))
     end.
Proof.
  unfold Updater.fetchVersionIndex, try_catch, bind, request, ret, throw.
  cbn [env with_log]. destruct (releases (env w)) as [body|[]]; cbn [fst snd].
  - split; [reflexivity|]. exists (Updater.index_of body).
    destruct (index_fold body []) as (Hn & Ho & Hg).
    split; [reflexivity|]. split; [apply Hn; constructor|].
    split; [apply Ho; constructor|].
    intros k. cbv zeta. specialize (Hg k). cbn [dict_get] in Hg.
    fold (Updater.index_of body) in Hg. split; [|split].
    + destruct (dict_get_None k (Updater.index_of body)) as [H1 H2].
      rewrite Hg in H1, H2.
      destruct (existsb (cli_release k) body && negb (k =? "__proto__")%string).
      * split; [reflexivity|]. intros _.
        destruct (in_dec string_dec k (dict_keys (Updater.index_of body)))
          as [Hin|Hout]; [exact Hin|]. now specialize (H2 Hout).
      * split; [|discriminate]. intros Hin. now destruct (H1 eq_refl).
    + exact Hg.
    + unfold prop_get. rewrite Hg.
      now destruct (existsb (cli_release k) body && negb (k =? "__proto__")%string).
  - split; reflexivity.
  - split; reflexivity.
  - split; reflexivity.
Qed.

(** * The client directory *)

Lemma get_mkdirs_same t p : get p (Some (mkdirs t p)) = Some (Dir [] t).
Proof.
  induction p as [|c p IH]; simpl; [reflexivity|].
  now rewrite String.eqb_refl.
Qed.

(** Where [mkdir -p] finds no directory and succeeds, it leaves an
    empty directory dated [t]. *)
Lemma mkdirp_new t p : forall r r',
  mkdirp t p r = inr r' -> is_dir (get p (Some r)) = false ->
  get p (Some r') = Some (Dir [] t).
Proof.
  induction p as [|c p IH]; intros r r' H Hd;
    destruct r as [| es m |]; simpl in H; try discriminate.
  cbn [get] in Hd. destruct (child c es) as [k|] eqn:Hk.
  - destruct (mkdirp t p k) as [|k'] eqn:Hr; [discriminate|].
    injection H as <-. cbn [get]. rewrite child_put_same. now apply (IH k).
  - injection H as <-. cbn [get]. rewrite child_put_same.
    apply get_mkdirs_same.
Qed.

(** [mkdir -p] reports [EEXIST] only for a path that leads to something
    other than a directory. *)
Lemma mkdirp_EEXIST t p : forall r,
  mkdirp t p r = inl "EEXIST" ->
  exists n, get p (Some r) = Some n /\ is_dir (Some n) = false.
Proof.
  induction p as [|c p IH]; intros r H.
  - destruct r; simpl in H; try discriminate; eexists; split; reflexivity.
  - destruct r as [| es m |]; simpl in H; try discriminate.
    destruct (child c es) as [k|] eqn:Hk; [|discriminate].
    destruct (mkdirp t p k) as [code|] eqn:Hr; [|discriminate].
    injection H as ->. cbn [get]. rewrite Hk. now apply IH.
Qed.

(** Once the obstacle at [p] is removed, [mkdir -p] goes through. *)
Lemma mkdirp_after_remove t p : forall r n,
  p <> [] -> get p (Some r) = Some n ->
  exists r', mkdirp t p (update (fun _ => None) p r) = inr r'.
Proof.
  induction p as [|c p IH]; intros r n Hp H; [congruence|].
  destruct r as [| es m |]; try discriminate. cbn [get] in H.
  unfold update. cbn [alter]. cbn [mkdirp].
  destruct (child c es) as [k|] eqn:Hk; [|now rewrite get_None in H].
  rewrite child_set_same. destruct p as [|c' p].
  - cbn [alter]. eauto.
  - destruct k as [| es' m' |]; try discriminate.
    destruct (IH (Dir es' m') n ltac:(discriminate) H) as (r' & Hr').
    unfold update in Hr'. cbn [alter] in Hr'. cbn [alter].
    rewrite Hr'. eauto.
Qed.

Lemma ensureClientDir_run root w :
  match ensureClientDir root w with
  | (Ok _, w') =>
      exists es m,
        lookup root (fs w') = Some (Dir es m)
        /\ (is_dir (lookup root (fs w)) = true -> fs w' = fs w)
        /\ (is_dir (lookup root (fs w)) = false -> es = [] /\ m = clock w)
  | (Err _, w') => fs w' = fs w
  end.
Proof.
  unfold ensureClientDir, try_catch, mkdir at 1, fs_step.
  destruct (mkdirp (clock w) root (fs w)) as [code|r'] eqn:Hm.
  - destruct (opt_eqb (error_code (SysError code "mkdir" root)) (Some "EEXIST"))
      eqn:Hc; [|reflexivity].
    cbn [error_code opt_eqb] in Hc. apply String.eqb_eq in Hc. subst code.
    apply mkdirp_EEXIST in Hm as (n & Hn & Hnd).
    unfold bind, rm, mkdir, fs_step. cbn [fs clock log with_log with_fs].
    destruct root as [|c root].
    + cbn [get] in Hn. injection Hn as ->.
      destruct n; try discriminate; reflexivity.
    + destruct (mkdirp_after_remove (clock w) (c :: root) (fs w) n
                  ltac:(discriminate) Hn) as (r' & Hr').
      unfold remove. rewrite Hr'. cbn [fs with_fs].
      assert (Hnew : get (c :: root) (Some r') = Some (Dir [] (clock w))).
      { apply (mkdirp_new _ _ _ _ Hr').
        change (is_dir (lookup (c :: root) (remove (c :: root) (fs w))) = false).
        rewrite lookup_remove_same by discriminate. reflexivity. }
      exists [], (clock w). split; [exact Hnew|]. split; [|auto].
      unfold lookup. rewrite Hn. intros Hd. rewrite Hd in Hnd. discriminate.
  - cbn [fs with_fs].
    destruct (is_dir (lookup root (fs w))) eqn:Hd.
    + unfold lookup in Hd.
      destruct (get root (Some (fs w))) as [[| es m |]|] eqn:Hg; try discriminate.
      rewrite (mkdirp_existing _ _ _ _ _ Hg) in Hm. injection Hm as <-.
      exists es, m. split; [exact Hg|]. split; [reflexivity | discriminate].
    + exists [], (clock w). split; [now apply (mkdirp_new _ _ _ _ Hm)|].
      split; [discriminate | auto].
Qed.

(** X2.  When [ensureClientDir] returns, the client root is a
    directory: the one that was there, with the file system untouched,
    or else an empty one dated now, created where there was nothing or
    in place of the file that stood at the path.  When it fails, the
    file system is as it was.  (A client root that is itself a symbolic
    link is left aside.) *)
Theorem ensureClientDir_outcome root w :
  match lookup root (fs w) with
  | Some (Symlink _ _) => True
  | before =>
      match fst (ensureClientDir root w) with
      | Ok _ =>
          exists es m,
            lookup root (fs (snd (ensureClientDir root w))) = Some (Dir es m)
            /\ (is_dir before = true
                -> fs (snd (ensureClientDir root w)) = fs w)
            /\ (is_dir before = false -> es = [] /\ m = clock w)
      | Err _ => fs (snd (ensureClientDir root w)) = fs w
      end
  end.
Proof.
  pose proof (ensureClientDir_run root w) as H.
  destruct (ensureClientDir root w) as [[[]|e] w']; cbn [fst snd];
    destruct (lookup root (fs w)) as [[| |]|]; try exact I; exact H.
Qed.

(** X3.  A file standing where the client root should be is deleted
    and an empty directory takes its place, through the calls [mkdir],
    [rm], [mkdir]; nothing beside the path changes. *)
Theorem ensureClientDir_replaces_file root w data t :
  root <> [] ->
  lookup root (fs w) = Some (File data t) ->
  exists w',
    ensureClientDir root w = (Ok tt, w')
    /\ lookup root (fs w') = Some (Dir [] (clock w))
    /\ log w' = [EFs (OpMkdir root); EFs (OpRm root); EFs (OpMkdir root)] ++ log w
    /\ forall q, diverge root q -> lookup q (fs w') = lookup q (fs w).
Proof.
  intros Hr Hn.
  assert (Hm : mkdirp (clock w) root (fs w) = inl "EEXIST").
  { clear Hr. unfold lookup in Hn. revert Hn. generalize (fs w).
    induction root as [|c root IH]; intros r Hn.
    - now injection Hn as ->.
    - destruct r as [| es m |]; try discriminate. cbn [get] in Hn. cbn [mkdirp].
      destruct (child c es) as [k|]; [|now rewrite get_None in Hn].
      now rewrite (IH k Hn). }
  destruct (mkdirp_after_remove (clock w) root (fs w) _ Hr Hn) as (r' & Hr').
  unfold ensureClientDir, try_catch, mkdir at 1, fs_step. rewrite Hm.
  cbn [error_code opt_eqb]. rewrite String.eqb_refl.
  unfold bind, rm, mkdir, fs_step. cbn [fs clock log with_log with_fs].
  unfold remove. rewrite Hr'. eexists. split; [reflexivity|].
  cbn [fs log with_fs with_log]. split; [|split; [reflexivity|]].
  - apply (mkdirp_new _ _ _ _ Hr').
    change (is_dir (lookup root (remove root (fs w))) = false).
    now rewrite lookup_remove_same.
  - intros q Hq. unfold lookup. rewrite (mkdirp_diverge _ _ _ Hq _ _ Hr').
    now apply lookup_update_diverge.
Qed.

Lemma ensureClientDir_replaces_file_witness :
  exists w',
    ensureClientDir ["data"; "client"]
      (with_fs (Dir [("data", Dir [("client", File "" 0)] 0)] 0) (Demo.world_at 7))
    = (Ok tt, w')
    /\ lookup ["data"; "client"] (fs w') = Some (Dir [] 7).
Proof.
  destruct (ensureClientDir_replaces_file ["data"; "client"]
              (with_fs (Dir [("data", Dir [("client", File "" 0)] 0)] 0)
                       (Demo.world_at 7))
              "" 0 ltac:(discriminate) eq_refl)
    as (w' & Hrun & Hl & _).
  exists w'. split; [exact Hrun | exact Hl].
Defined.

(** X4.  What [findLocalVersions] returns describes the client root as
    the call leaves it: the paths of its entries other than [bin] and
    [current], in the sorted order of a listing.  The call itself creates the client
    root when it finds no directory there, and then returns nothing.
    (A client root that is itself a symbolic link is left aside.) *)
Theorem findLocalVersions_lists this w l w' :
  (forall target t,
      lookup (Updater.clientRoot this) (fs w) <> Some (Symlink target t)) ->
  Updater.findLocalVersions this w = (Ok l, w') ->
  exists es m,
    lookup (Updater.clientRoot this) (fs w') = Some (Dir es m)
    /\ l = map (fun f => join (Updater.clientRoot this) f)
               (filter not_reserved (listing es))
    /\ (is_dir (lookup (Updater.clientRoot this) (fs w)) = true -> fs w' = fs w)
    /\ (is_dir (lookup (Updater.clientRoot this) (fs w)) = false -> l = []).
Proof.
  unfold Updater.findLocalVersions. intros _ H.
  apply bind_Ok in H as ([] & w1 & He & H).
  pose proof (ensureClientDir_run (Updater.clientRoot this) w) as Hrun.
  rewrite He in Hrun. destruct Hrun as (es & m & Hl & Hsame & Hnew).
  unfold bind, readdir, ret in H. rewrite Hl in H. injection H as <- <-.
  exists es, m. split; [exact Hl|]. split; [reflexivity|]. split; [exact Hsame|].
  intros Hd. destruct (Hnew Hd) as [-> _]. reflexivity.
Qed.

Lemma findLocalVersions_lists_witness :
  exists es m,
    lookup ["data"; "client"] (fs (snd (Updater.findLocalVersions Demo.updater
                                          (Demo.world_at 0))))
    = Some (Dir es m)
    /\ [["data"; "client"; "1.0.0"]]
       = map (fun f => join ["data"; "client"] f)
             (filter not_reserved (listing es)).
Proof.
  destruct (findLocalVersions_lists Demo.updater (Demo.world_at 0)
              [["data"; "client"; "1.0.0"]]
              (snd (Updater.findLocalVersions Demo.updater (Demo.world_at 0)))
              ltac:(discriminate) eq_refl)
    as (es & m & Hl & Heq & _).
  exists es, m. split; [exact Hl | exact Heq].
Defined.

(** * The shim and the version read back from it *)

Lemma all_chars_app f a b :
  all_chars f (a +++ b) = all_chars f a && all_chars f b.
Proof. induction a; simpl; [reflexivity|]. now rewrite IHa, andb_assoc. Qed.

Lemma capture_here_other c s : Ascii.eqb c "." = false -> capture_here (String c s) = None.
Proof.
  intros H. destruct c as [[] [] [] [] [] [] [] []]; try reflexivity. discriminate H.
Qed.

Lemma capture_here_hit c s :
  capture_here (String "." (String "." (String c s)))
  = if is_sep c then capture s else None.
Proof. reflexivity. Qed.

Lemma match_version_cons c s :
  Ascii.eqb c "." = false -> match_version (String c s) = match_version s.
Proof. intros H. cbn [match_version]. now rewrite capture_here_other. Qed.

Lemma match_version_skip pre s :
  no_dots pre = true -> match_version (pre +++ s) = match_version s.
Proof.
  induction pre as [|c pre IH]; [reflexivity|]. unfold no_dots. cbn [all_chars].
  intros H. apply andb_true_iff in H as [Hc Hp]. apply negb_true_iff in Hc.
  cbn [append]. rewrite match_version_cons by exact Hc. now apply IH.
Qed.

Lemma match_version_hit c s m :
  is_sep c = true -> capture s = Some m ->
  match_version (".." +++ String c s) = Some m.
Proof.
  intros Hc Hm. cbn [append]. cbn [match_version]. rewrite capture_here_hit, Hc, Hm.
  reflexivity.
Qed.

Lemma sep_bin_no_seps s : no_seps s = true -> sep_bin s = false.
Proof.
  destruct s as [|c s]; [reflexivity|]. unfold no_seps. cbn [all_chars sep_bin].
  intros H. apply andb_true_iff in H as [Hc _]. apply negb_true_iff in Hc.
  now rewrite Hc.
Qed.

Lemma capture_no_seps s : no_seps s = true -> capture s = None.
Proof.
  induction s as [|c s IH]; [reflexivity|]. intros H.
  assert (Hs : no_seps s = true).
  { unfold no_seps in *. cbn [all_chars] in H. now apply andb_true_iff in H as [_ H]. }
  cbn [capture]. rewrite (IH Hs), (sep_bin_no_seps s Hs).
  now destruct (line_end_at _).
Qed.

Lemma capture_cons c s :
  capture s = None -> sep_bin s = false -> capture (String c s) = None.
Proof. intros H1 H2. cbn [capture]. rewrite H1, H2. now destruct (line_end_at _). Qed.

Lemma line_end_at_plain c s :
  negb (is_line_end c) && negb (nat_of_ascii c =? 226)%nat = true ->
  line_end_at (String c s) = false.
Proof.
  intros H. apply andb_true_iff in H as [H1 H2].
  apply negb_true_iff in H1, H2. cbn [line_end_at]. rewrite H1, H2.
  now destruct s as [|b [|a s]].
Qed.

Lemma line_end_at_app s t : line_end_at s = true -> line_end_at (s +++ t) = true.
Proof.
  destruct s as [|c [|b [|a s]]]; cbn [line_end_at append]; try discriminate;
    rewrite ?orb_false_r; intros ->; reflexivity.
Qed.

(** The greedy group takes all of [v] when a separator and [bin] follow
    it and nothing further on can end the group. *)
Lemma capture_app v tail :
  v <> "" -> one_line v = true -> sep_bin tail = true -> capture tail = None ->
  capture (v +++ tail) = Some v.
Proof.
  intros Hv Hl Hs Hc. induction v as [|c v IH]; [congruence|].
  unfold one_line in Hl. cbn [all_chars] in Hl.
  apply andb_true_iff in Hl as [Hc1 Hl].
  cbn [append capture]. rewrite (line_end_at_plain _ _ Hc1). destruct v as [|c' v].
  - cbn [append]. now rewrite Hc, Hs.
  - rewrite IH; [reflexivity | discriminate | exact Hl].
Qed.

Lemma prefix_bin_app b q rest :
  String.prefix "bin" b = false ->
  (Ascii.eqb q "b" || Ascii.eqb q "i" || Ascii.eqb q "n")%bool = false ->
  String.prefix "bin" (b +++ String q rest) = false.
Proof.
  intros Hb Hq. apply orb_false_iff in Hq as [Hq Hn].
  apply orb_false_iff in Hq as [Hb' Hi].
  destruct b as [|a1 [|a2 [|a3 b]]]; cbn [append].
  - cbn [String.prefix].
    destruct (ascii_dec "b" q) as [<-|]; [discriminate | reflexivity].
  - cbn [String.prefix]. destruct (ascii_dec "b" a1); [|reflexivity].
    destruct (ascii_dec "i" q) as [<-|]; [discriminate | reflexivity].
  - cbn [String.prefix]. destruct (ascii_dec "b" a1); [|reflexivity].
    destruct (ascii_dec "i" a2); [|reflexivity].
    destruct (ascii_dec "n" q) as [<-|]; [discriminate | reflexivity].
  - cbn [String.prefix] in *. destruct (ascii_dec "b" a1); [|reflexivity].
    destruct (ascii_dec "i" a2); [|reflexivity].
    destruct (ascii_dec "n" a3); [|reflexivity].
    destruct b; discriminate.
Qed.

(** Nothing can end the greedy group in [/bin/<bin><rest>] when the
    name of the binary has no separator and does not start with [bin]
    and [rest] has no separator either. *)
Lemma capture_tail sep b q rest :
  is_sep sep = true -> no_seps b = true -> String.prefix "bin" b = false ->
  no_seps (String q rest) = true ->
  (Ascii.eqb q "b" || Ascii.eqb q "i" || Ascii.eqb q "n")%bool = false ->
  capture (String sep ("bin" +++ String sep (b +++ String q rest))) = None
  /\ sep_bin (String sep ("bin" +++ String sep (b +++ String q rest))) = true.
Proof.
  intros Hsep Hb Hp Hr Hq.
  assert (Hn : no_seps (b +++ String q rest) = true).
  { unfold no_seps in *. now rewrite all_chars_app, Hb, Hr. }
  split.
  - cbn [append]. apply capture_cons; [|reflexivity].
    apply capture_cons; [|reflexivity]. apply capture_cons; [|reflexivity].
    apply capture_cons.
    + apply capture_cons; [now apply capture_no_seps | now apply sep_bin_no_seps].
    + cbn [sep_bin]. rewrite Hsep. cbn [andb]. now apply prefix_bin_app.
  - cbn [append sep_bin]. rewrite Hsep. reflexivity.
Qed.

Lemma shim_posix_names b k1 k2 v :
  no_dots b = true -> no_dots k1 = true -> no_dots k2 = true ->
  no_seps b = true -> String.prefix "bin" b = false ->
  v <> "" -> one_line v = true ->
  match_version (Updater.shim_posix b k1 k2 v) = Some v.
Proof.
  intros Hb H1 H2 Hs Hp Hv Hl. unfold Updater.shim_posix.
  repeat rewrite match_version_skip by (first [reflexivity | assumption]).
  match goal with
  | |- context ["$DIR/../" +++ ?X] =>
      change ("$DIR/../" +++ X) with ("$DIR/" +++ (".." +++ String "/" X))
  end.
  rewrite match_version_skip by reflexivity.
  apply match_version_hit; [reflexivity|].
  match goal with
  | |- capture (v +++ "/bin/" +++ b +++ dq +++ ?Y) = _ =>
      change (capture (v +++ String "/" ("bin" +++ String "/"
                (b +++ String (ascii_of_nat 34) Y))) = Some v)
  end.
  destruct (capture_tail "/" b (ascii_of_nat 34)
              (" " +++ dq +++ "$@" +++ dq +++ nl) eq_refl Hs Hp eq_refl eq_refl)
    as [Hc Hsb].
  now apply capture_app.
Qed.

Lemma shim_windows_names b k1 k2 v :
  no_dots b = true -> no_dots k1 = true -> no_dots k2 = true ->
  no_seps b = true -> String.prefix "bin" b = false ->
  v <> "" -> one_line v = true ->
  match_version (Updater.shim_windows b k1 k2 v) = Some v.
Proof.
  intros Hb H1 H2 Hs Hp Hv Hl. unfold Updater.shim_windows.
  repeat rewrite match_version_skip by (first [reflexivity | assumption]).
  match goal with
  | |- context ["%~dp0.." +++ bs +++ ?X] =>
      change ("%~dp0.." +++ bs +++ X)
        with ("%~dp0" +++ (".." +++ String (ascii_of_nat 92) X))
  end.
  rewrite match_version_skip by reflexivity.
  apply match_version_hit; [reflexivity|].
  match goal with
  | |- capture (v +++ bs +++ "bin" +++ bs +++ b +++ ".cmd" +++ ?Y) = _ =>
      change (capture (v +++ String (ascii_of_nat 92) ("bin" +++ String (ascii_of_nat 92)
                (b +++ String "." ("cmd" +++ Y)))) = Some v)
  end.
  destruct (capture_tail (ascii_of_nat 92) b "."
              ("cmd" +++ dq +++ " %*" +++ nl) eq_refl Hs Hp eq_refl eq_refl)
    as [Hc Hsb].
  now apply capture_app.
Qed.

(** X5.  The shim names its version: for a configuration with plain
    names (no dot in the name of the binary and in the two environment
    keys, a name of the binary without separator that does not start
    with [bin]) and a version that is not empty and holds no line feed,
    no carriage return and no character from U+2000 to U+2FFF, where the
    two Unicode line terminators lie, the regular expression of
    [determineCurrentVersion] extracts from the text that [createBin]
    writes exactly that version, on both platforms. *)
Theorem shim_round_trip c v :
  plain_names c = true -> v <> "" -> one_line v = true ->
  match_version (Updater.shim c v) = Some v.
Proof.
  unfold plain_names, startsWith. intros H Hv Hl.
  repeat (apply andb_true_iff in H as [H ?]).
  match goal with Hn : negb _ = true |- _ => apply negb_true_iff in Hn end.
  unfold Updater.shim. destruct (Config.windows c).
  - now apply shim_windows_names.
  - now apply shim_posix_names.
Qed.

Lemma shim_round_trip_witness :
  match_version (Updater.shim (Demo.config_at "1.0.0") "2.1.0-beta") = Some "2.1.0-beta".
Proof.
  apply (shim_round_trip (Demo.config_at "1.0.0") "2.1.0-beta");
    [reflexivity | discriminate | reflexivity].
Defined.

Lemma symlink_Ok target p w w' :
  symlink target p w = (Ok tt, w') ->
  w' = with_fs (place p (Symlink target (clock w)) (fs w))
               (with_log (EFs (OpSymlink target p) :: log w) w)
  /\ lookup p (fs w') = Some (Symlink target (clock w)).
Proof.
  unfold symlink, fs_step. destruct (lookup p (fs w)); [discriminate|].
  destruct p as [|c p]; [discriminate|].
  destruct (lookup (dirname (c :: p)) (fs w)) as [[| es m |]|] eqn:Hd;
    try discriminate.
  intros [= <-]. split; [reflexivity|]. cbn [fs with_fs].
  apply lookup_place_same; [discriminate | now rewrite Hd].
Qed.

Lemma determineCurrentVersion_reads clientBin version w body t :
  lookup clientBin (fs w) = Some (File body t) ->
  determineCurrentVersion clientBin version w
  = (Ok (match match_version body with Some m => m | None => version end), w).
Proof.
  intros H. unfold determineCurrentVersion, try_catch, bind, readFile, ret.
  now rewrite H.
Qed.

(** What a successful [createBin] leaves: the shim at [clientBin], and,
    off Windows, the link [current]. *)
Lemma createBin_Ok this version w w' :
  diverge (join (Updater.clientRoot this) "current") (Updater.clientBin this) ->
  Updater.createBin this version w = (Ok tt, w') ->
  (exists t, lookup (Updater.clientBin this) (fs w')
             = Some (File (Updater.shim (Updater.config this) version) t))
  /\ (Config.windows (Updater.config this) = false ->
      lookup (join (Updater.clientRoot this) "current") (fs w')
      = Some (Symlink ("./" +++ version) (clock w))).
Proof.
  intros Hd H. unfold Updater.createBin in H.
  apply bind_Ok in H as ([] & w1 & Hm & H).
  assert (Hc1 : clock w1 = clock w).
  { unfold mkdir, fs_step in Hm.
    destruct (match mkdirp _ _ _ with inl _ => _ | inr _ => _ end);
      [injection Hm as <-; reflexivity | discriminate]. }
  destruct (Config.windows (Updater.config this)).
  - apply writeFile_Ok in H as [_ Hl]. split; [eauto | discriminate].
  - apply bind_Ok in H as ([] & w2 & Hw & H).
    apply writeFile_Ok in Hw as [Hw2 Hl].
    apply bind_Ok in H as ([] & w3 & Hr & H).
    unfold rm, fs_step in Hr. injection Hr as <-.
    apply symlink_Ok in H as [Hw' Hcur]. cbn [fs clock with_fs with_log] in *.
    split.
    + exists (clock w1). rewrite Hw'. cbn [fs with_fs]. unfold place, remove.
      now rewrite !lookup_update_diverge by exact Hd.
    + intros _. rewrite Hcur. rewrite Hw2. cbn [clock with_fs with_log].
      now rewrite Hc1.
Qed.

(** X6.  Writing the shim and reading the version back compose: for a
    configuration with plain names, a version that is not empty and
    holds no line feed, no carriage return and no character from U+2000
    to U+2FFF, and a shim path that parts from the path of [current],
    after a successful [createBin] for the version,
    [determineCurrentVersion] returns that version, not its fallback,
    and leaves the world alone; off Windows, [current] is then a link to
    [./<version>]. *)
Theorem createBin_records_version this version w w' fallback :
  plain_names (Updater.config this) = true ->
  version <> "" -> one_line version = true ->
  diverge (join (Updater.clientRoot this) "current") (Updater.clientBin this) ->
  Updater.createBin this version w = (Ok tt, w') ->
  determineCurrentVersion (Updater.clientBin this) fallback w' = (Ok version, w')
  /\ (Config.windows (Updater.config this) = false ->
      lookup (join (Updater.clientRoot this) "current") (fs w')
      = Some (Symlink ("./" +++ version) (clock w))).
Proof.
  intros Hp Hv Hl Hd H.
  destruct (createBin_Ok this version w w' Hd H) as [(t & Hbin) Hcur].
  split; [|exact Hcur].
  rewrite (determineCurrentVersion_reads _ _ _ _ _ Hbin).
  unfold plain_names, startsWith in Hp.
  repeat (apply andb_true_iff in Hp as [Hp ?]).
  match goal with Hn : negb _ = true |- _ => apply negb_true_iff in Hn end.
  unfold Updater.shim. destruct (Config.windows (Updater.config this)).
  - now rewrite shim_windows_names.
  - now rewrite shim_posix_names.
Qed.

Lemma createBin_records_version_witness :
  determineCurrentVersion (Updater.clientBin Demo.updater) "0.0.0"
    (snd (Updater.createBin Demo.updater "2.0.0" (Demo.world_at 5)))
  = (Ok "2.0.0", snd (Updater.createBin Demo.updater "2.0.0" (Demo.world_at 5)))
  /\ lookup ["data"; "client"; "current"]
            (fs (snd (Updater.createBin Demo.updater "2.0.0" (Demo.world_at 5))))
     = Some (Symlink "./2.0.0" 5).
Proof.
  destruct (createBin_records_version Demo.updater "2.0.0" (Demo.world_at 5)
              (snd (Updater.createBin Demo.updater "2.0.0" (Demo.world_at 5)))
              "0.0.0" eq_refl ltac:(discriminate) eq_refl
              ltac:(repeat first [ apply diverge_here; discriminate
                                 | apply diverge_next ])
              eq_refl)
    as [Hread Hcur].
  split; [exact Hread | exact (Hcur eq_refl)].
Defined.

Lemma str_append_assoc a b c : (a +++ b) +++ c = a +++ (b +++ c).
Proof. induction a; simpl; congruence. Qed.

Lemma prefix_bin_hit s : String.prefix "bin" ("bin" +++ s) = true.
Proof. destruct s; reflexivity. Qed.

Lemma capture_tail_bin sep x q rest :
  is_sep sep = true -> no_seps x = true -> no_seps (String q rest) = true ->
  capture (String sep ("bin" +++ x +++ String q rest)) = None
  /\ sep_bin (String sep ("bin" +++ x +++ String q rest)) = true.
Proof.
  intros Hsep Hx Hr.
  assert (Hn : no_seps (x +++ String q rest) = true).
  { unfold no_seps in *. now rewrite all_chars_app, Hx, Hr. }
  split.
  - cbn [append]. apply capture_cons; [|reflexivity].
    apply capture_cons; [|reflexivity]. apply capture_cons; [|reflexivity].
    apply capture_cons; [now apply capture_no_seps | now apply sep_bin_no_seps].
  - cbn [sep_bin]. now rewrite Hsep, prefix_bin_hit.
Qed.

Lemma one_line_app a b : one_line (a +++ b) = one_line a && one_line b.
Proof. apply all_chars_app. Qed.

Lemma shim_posix_misread x k1 k2 v :
  no_dots x = true -> no_dots k1 = true -> no_dots k2 = true ->
  no_seps x = true -> v <> "" -> one_line v = true ->
  match_version (Updater.shim_posix ("bin" +++ x) k1 k2 v) = Some (v +++ "/bin").
Proof.
  intros Hb H1 H2 Hs Hv Hl. unfold Updater.shim_posix.
  assert (Hbx : no_dots ("bin" +++ x) = true) by exact Hb.
  repeat rewrite match_version_skip by (first [reflexivity | assumption]).
  match goal with
  | |- context ["$DIR/../" +++ ?X] =>
      change ("$DIR/../" +++ X) with ("$DIR/" +++ (".." +++ String "/" X))
  end.
  rewrite match_version_skip by reflexivity.
  apply match_version_hit; [reflexivity|].
  match goal with
  | |- capture (v +++ "/bin/" +++ ("bin" +++ x) +++ dq +++ ?Y) = _ =>
      replace (v +++ "/bin/" +++ ("bin" +++ x) +++ dq +++ Y)
        with ((v +++ "/bin") +++ String "/" ("bin" +++ x +++ String (ascii_of_nat 34) Y))
        by (now rewrite !str_append_assoc)
  end.
  destruct (capture_tail_bin "/" x (ascii_of_nat 34)
              (" " +++ dq +++ "$@" +++ dq +++ nl) eq_refl Hs eq_refl)
    as [Hc Hsb].
  apply capture_app; auto.
  - destruct v; discriminate.
  - now rewrite one_line_app, Hl.
Qed.

Lemma shim_windows_misread x k1 k2 v :
  no_dots x = true -> no_dots k1 = true -> no_dots k2 = true ->
  no_seps x = true -> v <> "" -> one_line v = true ->
  match_version (Updater.shim_windows ("bin" +++ x) k1 k2 v)
  = Some (v +++ bs +++ "bin").
Proof.
  intros Hb H1 H2 Hs Hv Hl. unfold Updater.shim_windows.
  assert (Hbx : no_dots ("bin" +++ x) = true) by exact Hb.
  repeat rewrite match_version_skip by (first [reflexivity | assumption]).
  match goal with
  | |- context ["%~dp0.." +++ bs +++ ?X] =>
      change ("%~dp0.." +++ bs +++ X)
        with ("%~dp0" +++ (".." +++ String (ascii_of_nat 92) X))
  end.
  rewrite match_version_skip by reflexivity.
  apply match_version_hit; [reflexivity|].
  match goal with
  | |- capture (v +++ bs +++ "bin" +++ bs +++ ("bin" +++ x) +++ ".cmd" +++ ?Y) = _ =>
      replace (v +++ bs +++ "bin" +++ bs +++ ("bin" +++ x) +++ ".cmd" +++ Y)
        with ((v +++ bs +++ "bin")
              +++ String (ascii_of_nat 92) ("bin" +++ x +++ String "." ("cmd" +++ Y)))
        by (now rewrite !str_append_assoc)
  end.
  destruct (capture_tail_bin (ascii_of_nat 92) x "."
              ("cmd" +++ dq +++ " %*" +++ nl) eq_refl Hs eq_refl)
    as [Hc Hsb].
  apply capture_app; auto.
  - destruct v; discriminate.
  - now rewrite !one_line_app, Hl.
Qed.

Lemma capture_sound s : forall m,
  capture s = Some m ->
  m <> "" /\ unbroken m = true
  /\ exists rest, s = m +++ rest /\ sep_bin rest = true.
Proof.
  induction s as [|c s IH]; intros m H; [discriminate|].
  cbn [capture] in H. destruct (line_end_at (String c s)) eqn:Hc; [discriminate|].
  destruct (capture s) as [m'|] eqn:Hm.
  - injection H as <-. destruct (IH m' eq_refl) as (_ & Hl & rest & -> & Hs).
    split; [discriminate|]. split.
    + cbn [unbroken]. rewrite Hl, andb_true_r. apply negb_true_iff.
      destruct (line_end_at (String c m')) eqn:E; [|reflexivity].
      apply (line_end_at_app _ rest) in E. cbn [append] in E. congruence.
    + exists rest. split; [reflexivity | exact Hs].
  - destruct (sep_bin s) eqn:Hs; [|discriminate]. injection H as <-.
    split; [discriminate|]. split.
    + cbn [unbroken]. rewrite andb_true_r. apply negb_true_iff.
      destruct (line_end_at (String c "")) eqn:E; [|reflexivity].
      apply (line_end_at_app _ s) in E. cbn [append] in E. congruence.
    + exists s. split; [reflexivity | exact Hs].
Qed.

Lemma sep_bin_inv s :
  sep_bin s = true -> exists c post, s = String c ("bin" +++ post) /\ is_sep c = true.
Proof.
  destruct s as [|c s]; [discriminate|]. cbn [sep_bin]. intros H.
  apply andb_true_iff in H as [Hc Hp]. exists c.
  destruct s as [|a1 [|a2 [|a3 post]]]; cbn [String.prefix] in Hp; try discriminate.
  - destruct (ascii_dec "b" a1); discriminate.
  - destruct (ascii_dec "b" a1); [|discriminate].
    destruct (ascii_dec "i" a2); discriminate.
  - destruct (ascii_dec "b" a1) as [<-|]; [|discriminate].
    destruct (ascii_dec "i" a2) as [<-|]; [|discriminate].
    destruct (ascii_dec "n" a3) as [<-|]; [|discriminate].
    exists post. split; [reflexivity | exact Hc].
Qed.

Lemma capture_here_inv s m :
  capture_here s = Some m ->
  exists c s', s = ".." +++ String c s' /\ is_sep c = true /\ capture s' = Some m.
Proof.
  destruct s as [|a s]; [discriminate|].
  destruct (Ascii.eqb_spec a ".") as [->|Ha].
  2:{ rewrite capture_here_other; [discriminate|]. now apply Ascii.eqb_neq. }
  destruct s as [|b s]; [discriminate|].
  destruct (Ascii.eqb_spec b ".") as [->|Hb].
  2:{ intros H. exfalso. apply Hb.
      destruct b as [[] [] [] [] [] [] [] []]; try discriminate H; reflexivity. }
  destruct s as [|c s]; [discriminate|].
  rewrite capture_here_hit. destruct (is_sep c) eqn:Hc; [|discriminate].
  intros H. exists c, s. auto.
Qed.

Lemma match_version_sound s : forall m,
  match_version s = Some m ->
  exists pre c1 c2 post,
    s = pre +++ ".." +++ String c1 (m +++ String c2 ("bin" +++ post))
    /\ is_sep c1 = true /\ is_sep c2 = true /\ m <> "" /\ unbroken m = true.
Proof.
  induction s as [|a s IH]; intros m H.
  - discriminate.
  - cbn [match_version] in H. destruct (capture_here (String a s)) as [m'|] eqn:Hh.
    + injection H as ->. apply capture_here_inv in Hh as (c1 & s' & Hs & Hc1 & Hcap).
      apply capture_sound in Hcap as (Hne & Hl & rest & -> & Hsb).
      apply sep_bin_inv in Hsb as (c2 & post & -> & Hc2).
      exists "", c1, c2, post. auto.
    + destruct (IH m H) as (pre & c1 & c2 & post & -> & Hrest).
      exists (String a pre), c1, c2, post. auto.
Qed.

(** X7.  A binary whose name starts with [bin] is misread.  The name
    is [bin] followed by a rest without dot and without separator, the
    two environment keys of the shim have no dot, and the version is not
    empty and holds no line feed, no carriage return and no character
    from U+2000 to U+2FFF.  Then the greedy group of the regular
    expression runs on to the last separator that [bin] follows, so the
    version read back from the shim of [version] is [<version>/bin]
    ([<version>\bin] on Windows), which [alreadyOnVersion] never takes
    for [version]. *)
Theorem bin_prefixed_name_misread c x version :
  Config.bin c = "bin" +++ x ->
  no_dots x = true -> no_seps x = true ->
  no_dots (Config.scopedEnvVarKey c "BINPATH") = true ->
  no_dots (Config.scopedEnvVarKey c "REDIRECTED") = true ->
  version <> "" -> one_line version = true ->
  let current := version +++ String (shim_sep (Config.windows c)) "bin" in
  match_version (Updater.shim c version) = Some current
  /\ alreadyOnVersion current (Some version) = false.
Proof.
  intros Hb Hx Hs H1 H2 Hv Hl current. subst current. split.
  - unfold Updater.shim. rewrite Hb. destruct (Config.windows c).
    + now apply shim_windows_misread.
    + now apply shim_posix_misread.
  - cbn [alreadyOnVersion]. apply String.eqb_neq. apply append_neq. discriminate.
Qed.

Lemma bin_prefixed_name_misread_witness :
  match_version
    (Updater.shim (Config.mk "tool" "1.0.0" "bintool" false ["data"] ["cache"]
                     (Some "/usr/local/bin/bintool") None "tool"
                     (fun _ => None) (fun k => "TOOL_" +++ k))
                  "1.0.0")
  = Some "1.0.0/bin".
Proof.
  destruct (bin_prefixed_name_misread
              (Config.mk "tool" "1.0.0" "bintool" false ["data"] ["cache"]
                 (Some "/usr/local/bin/bintool") None "tool"
                 (fun _ => None) (fun k => "TOOL_" +++ k))
              "tool" "1.0.0" eq_refl eq_refl eq_refl eq_refl eq_refl
              ltac:(discriminate) eq_refl) as [H _].
  exact H.
Defined.

(** X8.  [determineCurrentVersion] never throws and never writes.  It
    answers with the fallback version, after a warning when there is no
    shim or a directory in its place; or with a stretch of the shim that
    is not empty, holds no line terminator (LF, CR, U+2028 or U+2029),
    follows [..] and a separator, and is followed by a separator and
    [bin]. *)
Theorem determineCurrentVersion_outcome clientBin version w :
  exists current w',
    determineCurrentVersion clientBin version w = (Ok current, w')
    /\ fs w' = fs w
    /\ match lookup clientBin (fs w) with
       | Some (File body _) =>
           w' = w
           /\ (match_version body = None /\ current = version
               \/ exists pre c1 c2 post,
                    body = pre +++ ".." +++ String c1
                             (current +++ String c2 ("bin" +++ post))
                    /\ is_sep c1 = true /\ is_sep c2 = true
                    /\ current <> "" /\ unbroken current = true)
       | Some (Symlink _ _) => True
       | _ =>
           current = version
           /\ exists e, w' = with_log (EUxWarn e :: log w) w
       end.
Proof.
  unfold determineCurrentVersion, try_catch, bind, readFile, ret, ux_warn, emit.
  destruct (lookup clientBin (fs w)) as [[body t | es t | l t]|] eqn:Hl.
  - destruct (match_version body) as [m|] eqn:Hm.
    + exists m, w. split; [reflexivity|]. split; [reflexivity|].
      split; [reflexivity|]. right.
      apply match_version_sound in Hm as (pre & c1 & c2 & post & Hb & Hrest).
      exists pre, c1, c2, post. auto.
    + exists version, w. repeat split; auto.
  - eexists _, _. split; [reflexivity|]. repeat split; eauto.
  - eexists _, _. split; [reflexivity|]. repeat split; eauto.
  - eexists _, _. split; [reflexivity|]. repeat split; eauto.
Qed.

(** * The clean-up steps *)

Lemma stats_run dir names : forall w,
  match Util.stats dir names w with
  | (Ok l, w') =>
      w' = w /\ map fst l = map (join dir) names
      /\ Forall (fun f => stat_at (fst f) (fs w) = Some (snd f)) l
  | (Err _, w') => w' = w
  end.
Proof.
  induction names as [|f names IH]; intros w; cbn [Util.stats].
  - unfold ret. repeat split; constructor.
  - unfold bind at 1, stat at 1.
    destruct (stat_at (join dir f) (fs w)) as [t|] eqn:Ht; [|reflexivity].
    unfold bind at 1. specialize (IH w).
    destruct (Util.stats dir names w) as [[l'|e] w1]; [|exact IH].
    destruct IH as (-> & Hm & Hf). unfold ret. split; [reflexivity|]. split.
    + cbn [map fst]. now rewrite Hm.
    + constructor; auto.
Qed.

Lemma promise_all_rm (l : list (path * Z)) : forall w,
  exists w',
    promise_all (map (fun f => rm (fst f)) l) w = (Ok tt, w')
    /\ fs w' = fold_left (fun r f => remove (fst f) r) l (fs w)
    /\ log w' = rev (map (fun f => EFs (OpRm (fst f))) l) ++ log w
    /\ clock w' = clock w /\ env w' = env w.
Proof.
  induction l as [|f l IH]; intros w; cbn [map promise_all].
  - exists w. repeat split.
  - unfold rm at 1, fs_step at 1. cbv zeta.
    set (w1 := with_fs _ _). destruct (IH w1) as (w' & Hr & Hfs & Hlog & Hc & He).
    rewrite Hr. exists w'. repeat split; auto.
    rewrite Hlog. cbn [rev map]. rewrite <- app_assoc. reflexivity.
Qed.

Lemma tidy_detail this w :
  exists w' (l : list (path * Z)) warned,
    Updater.tidy this w = (Ok tt, w')
    /\ log w' = warned ++ rev (map (fun f => EFs (OpRm (fst f))) l)
                ++ EUxDebug ["tidy"] :: log w
    /\ fs w' = fold_left (fun r f => remove (fst f) r) l (fs w)
    /\ clock w' = clock w
    /\ Forall (fun e => exists err, e = EUxWarn err) warned
    /\ Forall (fun f =>
                 stat_at (fst f) (fs w) = Some (snd f)
                 /\ Updater.isOld (env w) (snd f) (clock w) = true
                 /\ exists es m nm,
                      lookup (Updater.clientRoot this) (fs w) = Some (Dir es m)
                      /\ In nm (map fst es)
                      /\ fst f = join (Updater.clientRoot this) nm) l.
Proof.
  unfold Updater.tidy, ux_debug. unfold bind at 1, emit at 1.
  set (w1 := with_log _ w). unfold try_catch.
  unfold bind at 1, existsSync at 1.
  destruct (lookup (Updater.clientRoot this) (fs w1)) as [n|] eqn:Hroot; cbn [negb].
  2:{ exists w1, [], []. repeat split; constructor. }
  unfold bind at 1, Util.ls at 1, bind at 1, readdir at 1. rewrite Hroot.
  destruct n as [d t | es m | tg t].
  1,3: eexists _, [], [_]; split; [reflexivity|]; repeat split;
       repeat constructor; eauto.
  pose proof (stats_run (Updater.clientRoot this) (listing es) w1) as Hl.
  pose proof (settles_stats (Updater.clientRoot this) (listing es) w1) as Hs.
  destruct (Util.stats (Updater.clientRoot this) (listing es) w1) as [[l|e] w2].
  2:{ subst w2. assert (He : e <> Pending) by (intros ->; now apply (Hs w1)).
      destruct e; [| |contradiction];
        (eexists _, [], [_]; split; [reflexivity|]; repeat split;
         repeat constructor; eauto). }
  destruct Hl as (-> & Hm & Hf).
  unfold bind at 1, host at 1. unfold bind at 1, now at 1.
  set (old := filter _ l).
  destruct (promise_all_rm old w1) as (w3 & Hr & Hfs & Hlog & Hc & He).
  rewrite Hr.
  exists w3, old, []. split; [reflexivity|]. repeat split; auto.
  apply Forall_forall. intros f Hin. subst old. apply filter_In in Hin as [Hin Hold].
  apply andb_true_iff in Hold as [_ Hold].
  rewrite Forall_forall in Hf. split; [now apply Hf|]. split; [exact Hold|].
  exists es, m. assert (Hfst : In (fst f) (map fst l)) by now apply in_map.
  rewrite Hm in Hfst. apply in_map_iff in Hfst as (nm & Hnm & Hin').
  apply In_listing in Hin'. exists nm. auto.
Qed.

(** X9.  [tidy] never fails, and it removes nothing but entries of
    the client root that are old by the test of the code: every [rm] it
    issues targets the path of a listed entry whose modification time,
    as [stat] reports it, moved 42 times 24 hours ahead on the local
    wall clock, lies before the clock; and that is no less than 40 days
    back, whatever the time zone does in between. *)
Theorem tidy_removes_only_old this w :
  exists w' tidied,
    Updater.tidy this w = (Ok tt, w')
    /\ log w' = tidied ++ EUxDebug ["tidy"] :: log w
    /\ forall p, In (EFs (OpRm p)) tidied ->
         exists es m nm t,
           lookup (Updater.clientRoot this) (fs w) = Some (Dir es m)
           /\ In nm (map fst es)
           /\ p = join (Updater.clientRoot this) nm
           /\ stat_at p (fs w) = Some t
           /\ addHours (env w) (42 * 24) t < clock w
           /\ t + 40 * 24 * hour < clock w.
Proof.
  destruct (tidy_detail this w) as (w' & l & warned & Hrun & Hlog & _ & _ & Hw & Hl).
  exists w', (warned ++ rev (map (fun f => EFs (OpRm (fst f))) l)).
  split; [exact Hrun|]. split; [now rewrite <- app_assoc|].
  intros p Hin. apply in_app_or in Hin as [Hin|Hin].
  - rewrite Forall_forall in Hw. destruct (Hw _ Hin) as (err & Herr). discriminate.
  - apply in_rev, in_map_iff in Hin as (f & [= <-] & Hin).
    rewrite Forall_forall in Hl.
    destruct (Hl f Hin) as (Hs & Hold & es & m & nm & Hroot & Hnm & Hp).
    exists es, m, nm, (snd f).
    split; [exact Hroot|]. split; [exact Hnm|]. split; [exact Hp|].
    split; [exact Hs|].
    unfold Updater.isOld in Hold. apply Z.ltb_lt in Hold.
    split; [exact Hold|].
    pose proof (addHours_near (env w) (42 * 24) (snd f)). unfold hour in *. lia.
Qed.

Lemma get_alter_below f root x : forall o es m,
  get root o = Some (Dir es m) ->
  get root (alter f (root ++ x) o) = alter f x (Some (Dir es m)).
Proof.
  induction root as [|c root IH]; intros o es m H.
  - cbn [get] in H. now subst o.
  - destruct o as [[| es0 t0 |]|]; try discriminate. cbn [get] in H.
    cbn [app alter get]. rewrite child_set_same. now apply IH.
Qed.

Lemma map_fst_put_child c n es k :
  child c es = Some k -> map fst (put_child c n es) = map fst es.
Proof.
  induction es as [|[k' v'] es IH]; cbn [child put_child]; [discriminate|].
  destruct (String.eqb_spec k' c) as [->|Hne]; [reflexivity|].
  intros H. cbn [map fst]. now rewrite IH.
Qed.

Lemma lookup_child root r es m c :
  lookup root r = Some (Dir es m) -> lookup (root ++ [c]) r = child c es.
Proof. unfold lookup. intros H. rewrite get_app, H. reflexivity. Qed.

Lemma update_nonempty f p r x :
  alter f (p ++ [x]) (Some r) = Some (update f (p ++ [x]) r).
Proof. destruct p; apply alter_cons_Some. Qed.

(** Refreshing the time of a directory entry of [root]. *)
Lemma utimes_child root c t r es m ves vm :
  lookup root r = Some (Dir es m) -> child c es = Some (Dir ves vm) ->
  lookup root (update (option_map (set_mtime t)) (root ++ [c]) r)
  = Some (Dir (put_child c (Dir ves t) es) m).
Proof.
  intros Hr Hc. unfold lookup. rewrite <- update_nonempty.
  rewrite (get_alter_below _ _ _ _ _ _ Hr). cbn [alter]. now rewrite Hc.
Qed.

Lemma fold_remove_keeps p (l : list (path * Z)) : forall r,
  Forall (fun f => diverge (fst f) p) l ->
  lookup p (fold_left (fun r f => remove (fst f) r) l r) = lookup p r.
Proof.
  induction l as [|f l IH]; intros r H; [reflexivity|].
  inversion H; subst. cbn [fold_left]. rewrite IH by assumption.
  unfold remove. now apply lookup_update_diverge.
Qed.

Lemma stat_at_dir p r es m : lookup p r = Some (Dir es m) -> stat_at p r = Some m.
Proof. intros H. unfold stat_at. cbn [follow]. now rewrite H. Qed.

(** X10.  The clean-up steps compose so that the active version
    survives: when the client root lists plain names and holds a
    directory named as the version of the configuration, [finish]
    succeeds and leaves that directory in place with its content, dated
    now, however old it was; [touch] refreshes it before [tidy] looks
    at the dates. *)
Theorem finish_keeps_active_version this w es m ves vm :
  segment (Config.version (Updater.config this)) = true ->
  lookup (Updater.clientRoot this) (fs w) = Some (Dir es m) ->
  forallb segment (map fst es) = true ->
  child (Config.version (Updater.config this)) es = Some (Dir ves vm) ->
  exists w',
    Updater.finish this w = (Ok tt, w')
    /\ lookup (Updater.clientRoot this ++ [Config.version (Updater.config this)])
              (fs w')
       = Some (Dir ves (clock w)).
Proof.
  set (root := Updater.clientRoot this). set (v := Config.version (Updater.config this)).
  intros Hv Hroot Hnames Hchild.
  assert (Hp : lookup (root ++ [v]) (fs w) = Some (Dir ves vm))
    by now rewrite (lookup_child _ _ _ _ _ Hroot).
  unfold Updater.finish. unfold bind at 1.
  unfold Updater.touch at 1, try_catch, bind, ux_debug, emit, existsSync, ret, now,
    utimes, fs_step.
  fold root v. rewrite (join_segment _ _ Hv).
  cbn [fs clock log with_log with_fs]. rewrite Hp. cbn [negb].
  cbn [fs clock log with_log with_fs]. rewrite Hp.
  set (w1 := with_fs _ _).
  assert (Hroot1 : lookup root (fs w1) = Some (Dir (put_child v (Dir ves (clock w)) es) m))
    by (apply (utimes_child _ _ _ _ _ _ _ _ Hroot Hchild)).
  assert (Hp1 : lookup (root ++ [v]) (fs w1) = Some (Dir ves (clock w)))
    by (rewrite (lookup_child _ _ _ _ _ Hroot1); apply child_put_same).
  destruct (tidy_detail this w1) as (w2 & l & warned & Hrun & _ & Hfs & _ & _ & Hl).
  rewrite Hrun. eexists. split; [reflexivity|]. cbn [fs with_log]. rewrite Hfs.
  rewrite fold_remove_keeps; [exact Hp1|].
  eapply Forall_impl; [|exact Hl]. cbv beta.
  intros f (Hs & Hold & es' & m' & nm & Hr' & Hnm & Hf).
  fold root in Hr'. rewrite Hroot1 in Hr'. injection Hr' as <- <-.
  rewrite (map_fst_put_child _ _ _ _ Hchild) in Hnm.
  rewrite forallb_forall in Hnames. fold root in Hf.
  rewrite (join_segment _ _ (Hnames _ Hnm)) in Hf. rewrite Hf in *.
  apply diverge_siblings. intros ->.
  rewrite (stat_at_dir _ _ _ _ Hp1) in Hs. injection Hs as Hs.
  rewrite <- Hs in Hold.
  unfold Updater.isOld in Hold. apply Z.ltb_lt in Hold.
  change (clock w1) with (clock w) in Hold.
  pose proof (addHours_near (env w1) (42 * 24) (clock w)).
  unfold hour in *. lia.
Qed.

Lemma finish_keeps_active_version_witness :
  exists w',
    Updater.finish Demo.updater (Demo.world_at (100 * Demo.day)) = (Ok tt, w')
    /\ lookup ["data"; "client"; "1.0.0"] (fs w')
       = Some (Dir [("bin", Dir [("xata", File "#!/bin/sh" 0)] 0)] (100 * Demo.day)).
Proof.
  exact (finish_keeps_active_version Demo.updater (Demo.world_at (100 * Demo.day))
           [("bin", Dir [] 0);
            ("current", Symlink "./1.0.0" 0);
            ("1.0.0", Dir [("bin", Dir [("xata", File "#!/bin/sh" 0)] 0)] 0)]
           0 [("bin", Dir [("xata", File "#!/bin/sh" 0)] 0)] 0
           eq_refl eq_refl eq_refl eq_refl).
Defined.

(** * Downloads, forced updates, and the channel *)

Lemma settles_tarExtract cwd s :
  forallb sound_chunk s = true -> settles (tarExtract cwd ignore s).
Proof.
  induction s as [|[h body|e] rest IH]; cbn [forallb sound_chunk];
    [intros _; apply settles_ret | | discriminate].
  intros H. apply andb_true_iff in H as [Hh Hrest]. intros w w'.
  rewrite tarExtract_entry. revert w w'.
  change (settles (filtered cwd h body (tarExtract cwd ignore rest))).
  unfold filtered, accepted. unfold supported in Hh.
  destruct ((type h =? "directory") || (type h =? "file"))%string.
  - settles_tac; try (now apply IH).
    apply settles_still. intros w. destruct (debug_files w); discriminate.
  - cbn [orb] in Hh. rewrite Hh. now apply IH.
Qed.

Lemma settles_getTmp output : settles (getTmp output).
Proof. now apply settles_still. Qed.

Lemma settles_extract stream b output :
  forallb sound_chunk stream = true -> settles (extract stream b output).
Proof.
  intros H. unfold extract, pick_tmp, commit, backup, Util.touch.
  settles_tac; try apply settles_getTmp. now apply settles_tarExtract.
Qed.

(** X11.  A call of [downloadAndExtract] that is rejected is rejected
    with the one error [unabel to extract], whatever the request or the
    extraction failed with; a call that does not succeed may also stay
    pending, which it does not when the request is answered with a
    stream that arrives whole and holds only directories, files and
    symbolic links, nor when the request is rejected; and in every case
    the destination is then as it was before the call. *)
Theorem downloadAndExtract_failure output baseDir channel config w e w' :
  output <> [] ->
  downloadAndExtract output baseDir channel config w = (Err e, w') ->
  lookup output (fs w') = lookup output (fs w)
  /\ (e = JsError "unabel to extract" \/ e = Pending)
  /\ (forall stream,
        download (env w) = Ok stream -> forallb sound_chunk stream = true ->
        e = JsError "unabel to extract")
  /\ (forall e0,
        download (env w) = Err e0 -> e0 <> Pending ->
        e = JsError "unabel to extract").
Proof.
  intros Ho H. unfold downloadAndExtract in H. unfold bind at 1, emit at 1 in H.
  set (w1 := with_log _ w) in H. unfold try_catch in H. unfold bind at 1 in H.
  unfold request in H. cbv zeta in H.
  change (env (with_log _ w1)) with (env w) in H.
  destruct (download (env w)) as [stream|e0].
  - set (w2 := with_log _ w1) in H.
    destruct (extract stream baseDir output w2) as [[[]|e1] w3] eqn:He;
      [discriminate|].
    pose proof (extract_failure_keeps _ _ _ _ _ _ Ho He) as [Hk _].
    destruct e1; unfold throw in H; injection H as <- <-.
    1,2: split; [exact Hk|]; split; [now left|]; split; [reflexivity|];
      discriminate.
    split; [exact Hk|]. split; [now right|]. split; [|discriminate].
    intros s' [= <-] Hs. exfalso. exact (settles_extract _ _ _ Hs _ _ He).
  - destruct e0; unfold throw in H; injection H as <- <-.
    1,2: split; [reflexivity|]; split; [now left|]; split; [discriminate|];
      reflexivity.
    split; [reflexivity|]. split; [now right|]. split; [discriminate|].
    intros e0 [= <-] Hne. contradiction.
Qed.

Lemma downloadAndExtract_over_directory output channel config w :
  output <> [] -> is_dir (lookup output (fs w)) = true ->
  exists e w',
    downloadAndExtract output "" channel config w = (Err e, w')
    /\ lookup output (fs w') = lookup output (fs w).
Proof.
  intros Ho Hd. unfold downloadAndExtract. unfold bind at 1, emit at 1.
  set (w1 := with_log _ w). unfold try_catch. unfold bind at 1.
  unfold request. cbv zeta.
  destruct (download (env _)) as [stream|e0].
  - set (w2 := with_log _ w1).
    destruct (extract_over_directory_fails stream output w2 Ho Hd)
      as (e & w3 & He & Hk).
    rewrite He. destruct e; unfold throw; eauto.
  - destruct e0; unfold throw; eauto.
Qed.

Lemma update_forced_fails this current updated channel w es m :
  join (Updater.clientRoot this) updated <> [] ->
  lookup (Updater.clientRoot this) (fs w) = Some (Dir es m) ->
  is_dir (lookup (join (Updater.clientRoot this) updated) (fs w)) = true ->
  exists e w',
    Updater.update this current updated true channel w = (Err e, w')
    /\ lookup (join (Updater.clientRoot this) updated) (fs w')
       = lookup (join (Updater.clientRoot this) updated) (fs w).
Proof.
  intros Ho Hroot Hd. unfold Updater.update.
  unfold bind at 1, ux_action_start at 1, emit at 1. set (w1 := with_log _ w).
  unfold bind at 1. rewrite (ensureClientDir_existing _ w1 es m) by exact Hroot.
  set (w2 := with_log _ w1).
  unfold bind at 1, existsSync at 1. cbn [orb].
  unfold bind at 1.
  destruct (downloadAndExtract_over_directory
              (join (Updater.clientRoot this) updated) channel
              (Updater.config this) w2 Ho Hd) as (e & w3 & Hrun & Hk).
  rewrite Hrun. exists e, w3. split; [reflexivity | exact Hk].
Qed.

Lemma runHook_inv h c v w r w' :
  runHook h c v w = (r, w') -> fs w' = fs w /\ env w' = env w.
Proof.
  unfold runHook. cbv zeta. destruct (hook_outcome _ _ _ _);
    intros [= <- <-]; split; reflexivity.
Qed.

(** X12.  A forced update can not replace an installed version: when
    the CLI is updatable, [force] is set and the version aimed at is a
    directory of the client root, [runUpdate] does not complete, and the
    directory is left as it was.  (Where the archive is extracted, the
    copy of a directory is refused, the [catch] block removes the
    staging directory, and the rename finds nothing to move.) *)
Theorem forced_update_over_installed_fails this options w v es m :
  truthy (Config.binPath (Updater.config this)) = true ->
  Updater.forced options = true ->
  target_version options (env w) = Some v ->
  lookup (Updater.clientRoot this) (fs w) = Some (Dir es m) ->
  join (Updater.clientRoot this) v <> [] ->
  is_dir (lookup (join (Updater.clientRoot this) v) (fs w)) = true ->
  exists e w',
    Updater.runUpdate this options w = (Err e, w')
    /\ lookup (join (Updater.clientRoot this) v) (fs w')
       = lookup (join (Updater.clientRoot this) v) (fs w).
Proof.
  intros Hu Hf Ht Hroot Ho Hd. unfold Updater.runUpdate. unfold bind at 1.
  destruct (quiet_resolve true this options w) as (Henv & Hfs & _).
  specialize (Hfs eq_refl).
  destruct (Updater.resolve this options w) as [[r|e] w1] eqn:Hres;
    cbn [snd] in *; [|exists e, w1; split; [reflexivity | now rewrite Hfs]].
  destruct r as [[channel current]|];
    [|exfalso; exact (resolve_updatable _ _ _ _ Hu Hres)].
  assert (Hstep : forall w2, fs w2 = fs w ->
            exists e3 w3,
              Updater.update this current v true channel w2 = (Err e3, w3)
              /\ lookup (join (Updater.clientRoot this) v) (fs w3)
                 = lookup (join (Updater.clientRoot this) v) (fs w)).
  { intros w2 E. rewrite <- E in Hroot, Hd.
    destruct (update_forced_fails this current v channel w2 es m Ho Hroot Hd)
      as (e3 & w3 & Hrun & Hk).
    exists e3, w3. split; [exact Hrun | now rewrite Hk, E]. }
  unfold bind at 1. unfold Updater.decide. rewrite Hf. unfold target_version in Ht.
  destruct (truthy (Options.version options)) eqn:Hv.
  - rewrite Ht. unfold Updater.requested. unfold bind at 1. cbn [ret].
    unfold ret at 1. cbn [truthy alreadyOnVersion].
    unfold bind at 1.
    destruct (runHook "preupdate" channel v w1) as [[[]|e] w2] eqn:Hh;
      apply runHook_inv in Hh as [Hfs2 _];
      [|exists e, w2; split; [reflexivity | now rewrite Hfs2, Hfs]].
    unfold bind at 1. unfold bind at 1.
    pose proof (fetchVersionIndex_world this w2) as Hw3.
    destruct (Updater.fetchVersionIndex this w2) as [[index|e] w3];
      cbn [snd] in Hw3; subst w3;
      [|eexists _, _; split; [reflexivity | cbn [fs with_log]; now rewrite Hfs2, Hfs]].
    destruct (negb (js_truthy (prop_get v index)));
      [eexists _, _; split; [reflexivity | cbn [fs with_log]; now rewrite Hfs2, Hfs]|].
    destruct (Hstep (with_log
                (EHttpGet "https://api.github.com/repos/xataio/client-ts/releases"
                 :: log w2) w2)) as (e4 & w4 & Hrun & Hk);
      [cbn [fs with_log]; now rewrite Hfs2, Hfs|].
    rewrite Hrun. eauto.
  - assert (Hnew : Updater.newest this true channel current w1
                   = (let (r, w2) := runHook "preupdate" channel v
                        (with_log (EHttpGet "https://registry.npmjs.org/@xata.io/cli/latest"
                                   :: log w1) w1) in
                      match r with
                      | Ok _ =>
                          let (r', w3) := Updater.update this current v true channel w2 in
                          match r' with
                          | Ok this' => ((runHook "update" channel v ;;
                                          ux_action_stop None ;; ret (Some this')) w3)
                          | Err e => (Err e, w3)
                          end
                      | Err e => (Err e, w2)
                      end)).
    { unfold Updater.newest, bind at 1, request. cbv zeta. cbn [env with_log].
      rewrite Henv. destruct (latest (env w)) as [v0|]; [|discriminate].
      injection Ht as ->. cbn [negb andb]. unfold bind at 1. unfold bind at 1.
      destruct (runHook "preupdate" channel v _) as [[[]|e] w2]; [|reflexivity].
      destruct (Updater.update this current v true channel w2) as [[this'|e] w3];
        reflexivity. }
    assert (Hdec : match Options.version options with
                   | Some _ | _ => Updater.newest this true channel current
                   end = Updater.newest this true channel current)
      by now destruct (Options.version options).
    rewrite Hdec, Hnew.
    destruct (runHook "preupdate" channel v _) as [[[]|e] w2] eqn:Hh;
      apply runHook_inv in Hh as [Hfs2 _]; cbn [fs with_log] in Hfs2;
      [|exists e, w2; split; [reflexivity | now rewrite Hfs2, Hfs]].
    destruct (Hstep w2) as (e3 & w3 & Hrun & Hk); [now rewrite Hfs2, Hfs|].
    rewrite Hrun. eauto.
Qed.

(** X13.  A CLI without [binPath] is not updatable: [runUpdate]
    (not auto-updating) then returns at once, having only started the
    spinner, shown the update instructions of the environment when
    there are any, and stopped the spinner with [not updatable]; no
    request is made and no file is touched. *)
Theorem runUpdate_not_updatable this options w :
  Options.autoUpdate options = false ->
  truthy (Config.binPath (Updater.config this)) = false ->
  Updater.runUpdate this options w
  = (Ok tt,
     with_log
       (EActionStop (Some "not updatable")
        :: (if truthy (Config.scopedEnvVar (Updater.config this) "UPDATE_INSTRUCTIONS")
            then [EUxLog "";
                  EUxWarnMsg (match Config.scopedEnvVar (Updater.config this)
                                      "UPDATE_INSTRUCTIONS" with
                              | Some i => i
                              | None => ""
                              end)]
            else [])
        ++ EActionStart (Config.name (Updater.config this) +++ ": Updating CLI")
        :: log w) w).
Proof.
  intros Ha Hb. unfold Updater.runUpdate, Updater.resolve, notUpdatable.
  rewrite Ha, Hb. cbn [negb].
  destruct (Config.scopedEnvVar (Updater.config this) "UPDATE_INSTRUCTIONS") as [i|];
    [|reflexivity].
  cbn [truthy]. destruct (negb (i =? "")%string); reflexivity.
Qed.

(** X14.  The channel that [setChannel] persists is the one
    [determineChannel] falls back to, trimmed of the white space of
    JavaScript at both ends: as it stands when the query of the registry
    is rejected, and translated from the npm names when the registry
    answers without a tag for the version.  (While the query stays
    pending, so does the call.) *)
Theorem setChannel_round_trip channel config version w w' :
  setChannel channel (Config.dataDir config) w = (Ok tt, w') ->
  persisted_channel config w' = Some (trim channel)
  /\ fst (determineChannel config version w')
     = match dist_tags (env w') (registry_url config) with
       | Ok tags =>
           let tag := match matching_tag tags version with
                      | Some t => t
                      | None => trim channel
                      end in
           Ok (if (tag =? "latest")%string then "stable"
               else if (tag =? "latest-rc")%string then "stable-rc"
               else tag)
       | Err Pending => Err Pending
       | Err _ => Ok (trim channel)
       end.
Proof.
  unfold setChannel. intros H. apply writeFile_Ok in H as [_ Hl].
  assert (Hp : persisted_channel config w' = Some (trim channel))
    by (unfold persisted_channel; now rewrite Hl).
  split; [exact Hp|]. now apply determineChannel_run.
Qed.

Lemma downloadAndExtract_failure_witness :
  exists w',
    downloadAndExtract Demo.installed "" "stable" (Demo.config_at "1.0.0")
      (Demo.world_at 0)
    = (Err (JsError "unabel to extract"), w')
    /\ lookup Demo.installed (fs w') = lookup Demo.installed Demo.disk.
Proof.
  destruct (downloadAndExtract Demo.installed "" "stable" (Demo.config_at "1.0.0")
              (Demo.world_at 0)) as [[[]|e] w'] eqn:H;
    [vm_compute in H; discriminate|].
  destruct (downloadAndExtract_failure Demo.installed "" "stable"
              (Demo.config_at "1.0.0") (Demo.world_at 0) e w'
              ltac:(discriminate) H) as (Hk & _ & Hsound & _).
  rewrite (Hsound Demo.archive eq_refl eq_refl).
  exists w'. split; [reflexivity | exact Hk].
Defined.

Lemma forced_update_over_installed_fails_witness :
  exists e w',
    Updater.runUpdate Demo.updater (Options.mk false None (Some true) None)
      (Demo.world_in (Demo.env_of "1.0.0") 0)
    = (Err e, w')
    /\ lookup Demo.installed (fs w') = lookup Demo.installed Demo.disk.
Proof.
  exact (forced_update_over_installed_fails Demo.updater
           (Options.mk false None (Some true) None)
           (Demo.world_in (Demo.env_of "1.0.0") 0) "1.0.0"
           [("bin", Dir [] 0);
            ("current", Symlink "./1.0.0" 0);
            ("1.0.0", Dir [("bin", Dir [("xata", File "#!/bin/sh" 0)] 0)] 0)]
           0 eq_refl eq_refl eq_refl eq_refl ltac:(discriminate) eq_refl).
Defined.

Lemma runUpdate_not_updatable_witness :
  Updater.runUpdate
    (Updater.new (Config.mk "xata" "1.0.0" "xata" false ["data"] ["cache"]
                    None None "@xata.io/cli"
                    (fun k => if (k =? "UPDATE_INSTRUCTIONS")%string
                              then Some "update with: npm i -g @xata.io/cli"
                              else None)
                    (fun k => "XATA_" +++ k)))
    (Options.mk false None None None) (Demo.world_at 0)
  = (Ok tt,
     with_log [EActionStop (Some "not updatable");
               EUxLog "";
               EUxWarnMsg "update with: npm i -g @xata.io/cli";
               EActionStart "xata: Updating CLI"]
              (Demo.world_at 0)).
Proof.
  exact (runUpdate_not_updatable
           (Updater.new (Config.mk "xata" "1.0.0" "xata" false ["data"] ["cache"]
                           None None "@xata.io/cli"
                           (fun k => if (k =? "UPDATE_INSTRUCTIONS")%string
                                     then Some "update with: npm i -g @xata.io/cli"
                                     else None)
                           (fun k => "XATA_" +++ k)))
           (Options.mk false None None None) (Demo.world_at 0) eq_refl eq_refl).
Defined.

Lemma setChannel_round_trip_witness :
  persisted_channel (Demo.config_at "1.0.0")
    (snd (setChannel " beta " ["data"] (Demo.world_at 0)))
  = Some "beta".
Proof.
  destruct (setChannel_round_trip " beta " (Demo.config_at "1.0.0") None
              (Demo.world_at 0) (snd (setChannel " beta " ["data"] (Demo.world_at 0)))
              eq_refl) as [H _].
  exact H.
Defined.

(** * The extractor on a free destination *)

Lemma diverge_sym p q : diverge p q -> diverge q p.
Proof. induction 1; [apply diverge_here; congruence | now apply diverge_next]. Qed.

Lemma is_prefix_split p : forall q, is_prefix p q = true -> exists x, q = p ++ x.
Proof.
  induction p as [|c p IH]; intros q H; [now exists q|].
  destruct q as [|d q]; [discriminate|]. cbn [is_prefix] in H.
  apply andb_true_iff in H as [Hc Hp]. apply String.eqb_eq in Hc as ->.
  destruct (IH q Hp) as (x & ->). now exists x.
Qed.

Lemma get_prefix_Some p x o n : get (p ++ x) o = Some n -> exists k, get p o = Some k.
Proof.
  rewrite get_app. destruct (get p o) as [k|]; [eauto | now rewrite get_None].
Qed.

Lemma lookup_parent_dir p r n :
  p <> [] -> lookup p r = Some n -> is_dir (lookup (dirname p) r) = true.
Proof.
  intros Hp. destruct (exists_last Hp) as (q & a & ->). unfold dirname, lookup.
  rewrite removelast_last, get_app.
  destruct (get q (Some r)) as [[| es m |]|]; try discriminate; reflexivity.
Qed.

Lemma not_prefix_of_parent p q :
  is_prefix p q = false -> is_prefix p (dirname q) = false.
Proof.
  intros H. destruct (is_prefix p (dirname q)) eqn:E; [|reflexivity].
  apply is_prefix_removelast in E. congruence.
Qed.

Lemma is_prefix_own_parent p : p <> [] -> is_prefix p (dirname p) = false.
Proof.
  induction p as [|c p IH]; [congruence|]. intros _. destruct p as [|d p].
  - reflexivity.
  - change (dirname (c :: d :: p)) with (c :: dirname (d :: p)).
    cbn [is_prefix]. rewrite String.eqb_refl. cbn [andb]. apply IH. discriminate.
Qed.

Lemma lookup_update_same f p r :
  p <> [] -> is_dir (lookup (dirname p) r) = true ->
  lookup p (update f p r) = f (lookup p r).
Proof.
  intros Hp Hd. unfold lookup. destruct p as [|c p]; [congruence|].
  rewrite <- alter_cons_Some. now apply get_alter_same.
Qed.

Lemma is_dir_update f p q r :
  is_prefix p q = false -> is_dir (lookup q (update f p r)) = is_dir (lookup q r).
Proof.
  intros H. unfold lookup. destruct p as [|c p]; [discriminate|].
  rewrite <- alter_cons_Some. now apply is_dir_alter.
Qed.

Lemma dirname_path_suffix output sfx :
  output <> [] -> dirname (path_suffix output sfx) = dirname output.
Proof.
  intros Ho. destruct (exists_last Ho) as (q & a & ->).
  rewrite path_suffix_last. unfold dirname. now rewrite !removelast_last.
Qed.

(** X15.  Into a free destination [extract] installs what the tar
    extraction staged: when nothing stands at the destination and the
    extraction into the staging directory ends well with a subtree at
    the inner root name, [extract] succeeds, the destination holds that
    subtree, dated now, and the staging directory is gone. *)
Theorem extract_installs stream basename output w w1 n :
  output <> [] ->
  lookup output (fs w) = None ->
  is_prefix (fst (staging output w)) (join (fst (staging output w)) basename) = true ->
  tarExtract (fst (staging output w)) ignore stream (snd (staging output w)) = (Ok tt, w1) ->
  lookup (join (fst (staging output w)) basename) (fs w1) = Some n ->
  exists w',
    extract stream basename output w = (Ok tt, w')
    /\ lookup output (fs w') = Some (set_mtime (clock w1) n)
    /\ lookup (fst (staging output w)) (fs w') = None.
Proof.
  intros Ho Hfree Hb Htar Hn.
  unfold staging in *. unfold extract, bind at 1.
  destruct (pick_tmp_spec output w) as (r & wp & Hpick & Hfs).
  rewrite Hpick in *. cbn [fst snd] in *.
  set (tmp := path_suffix output (".partial." +++ r)) in *.
  assert (Hd : diverge tmp output)
    by (apply path_suffix_diverge; [exact Ho | discriminate]).
  assert (Hne : tmp <> []) by exact (diverge_nonempty _ _ Hd).
  assert (Hdn : dirname tmp = dirname output) by now apply dirname_path_suffix.
  unfold bind at 1, debug at 1, emit at 1, try_catch.
  set (w0 := with_log _ wp) in *.
  destruct (is_prefix_split _ _ Hb) as (x & Hx). rewrite Hx in *.
  assert (Hfrom : diverge (tmp ++ x) output) by now apply diverge_app_l.
  pose proof (keeps_tarExtract output tmp stream Hd w0) as K.
  rewrite Htar in K. cbn [snd] in K.
  assert (Hfree1 : lookup output (fs w1) = None).
  { rewrite K. change (fs w0) with (fs wp). now rewrite Hfs. }
  assert (Hpar : is_dir (lookup (dirname output) (fs w1)) = true).
  { destruct (get_prefix_Some tmp x _ _ Hn) as (k & Hk).
    rewrite <- Hdn. now apply (lookup_parent_dir tmp _ k). }
  set (r2 := place output n (remove (tmp ++ x) (fs w1))).
  assert (Hren : rename_fs (tmp ++ x) output (fs w1) = Ok r2).
  { unfold rename_fs. rewrite Hn, (diverge_not_prefix _ _ Hfrom), Hfree1.
    destruct output as [|c o]; [congruence|].
    destruct (lookup (dirname (c :: o)) (fs w1)) as [[| es m |]|];
      try discriminate.
    now destruct n. }
  assert (Hpar2 : is_dir (lookup (dirname output) r2) = true).
  { subst r2. unfold place. rewrite is_dir_update
      by (apply is_prefix_own_parent; exact Ho).
    rewrite is_dir_remove; [exact Hpar|].
    apply not_prefix_of_parent. now apply diverge_not_prefix. }
  assert (Hout2 : lookup output r2 = Some n).
  { subst r2. apply lookup_place_same; [exact Ho|].
    rewrite is_dir_remove; [exact Hpar|].
    apply not_prefix_of_parent. now apply diverge_not_prefix. }
  assert (Hout3 : lookup output (remove tmp r2) = Some n)
    by (unfold remove; now rewrite lookup_update_diverge).
  assert (Hpar3 : is_dir (lookup (dirname output) (remove tmp r2)) = true).
  { rewrite is_dir_remove; [exact Hpar2|].
    apply not_prefix_of_parent. now apply diverge_not_prefix. }
  unfold commit. unfold bind at 1. rewrite Htar.
  unfold bind at 1, existsSync at 1. rewrite Hfree1.
  unfold bind at 1, ret at 1.
  unfold bind at 1, debug at 1, emit at 1.
  unfold bind at 1, rename at 1, fs_step at 1.
  cbn [fs clock log with_log with_fs]. rewrite Hx, Hren.
  unfold bind at 1, catch_with at 1, try_catch, rm at 1, fs_step at 1.
  cbn [fs clock log with_log with_fs].
  unfold bind at 1, Util.touch at 1, bind at 1, now at 1, utimes at 1, fs_step at 1.
  cbn [fs clock log with_log with_fs]. rewrite Hout3.
  unfold debug, emit. eexists. split; [reflexivity|].
  cbn [fs clock log with_log with_fs]. split.
  - rewrite lookup_update_same by assumption. now rewrite Hout3.
  - rewrite lookup_update_diverge by now apply diverge_sym.
    now apply lookup_remove_same.
Qed.

Lemma extract_installs_witness :
  exists w',
    extract Demo.archive "" ["data"; "client"; "2.0.0"] (Demo.world_at 5)
    = (Ok tt, w')
    /\ lookup ["data"; "client"; "2.0.0"] (fs w')
       = Some (Dir [("bin", Dir [("xata", File "#!/bin/sh" 5)] 5)] 5)
    /\ lookup ["data"; "client"; "2.0.0.partial.01234"] (fs w') = None.
Proof.
  exact (extract_installs Demo.archive "" ["data"; "client"; "2.0.0"]
           (Demo.world_at 5)
           (snd (tarExtract ["data"; "client"; "2.0.0.partial.01234"] ignore Demo.archive
                   (snd (staging ["data"; "client"; "2.0.0"] (Demo.world_at 5)))))
           (Dir [("bin", Dir [("xata", File "#!/bin/sh" 5)] 5)] 5)
           ltac:(discriminate) eq_refl eq_refl eq_refl eq_refl).
Defined.

(** * What an update does before its hook *)

Ltac plain_tac :=
  steady_tac; try exact I.

Lemma any_tarExtract cwd s : steady false anything (tarExtract cwd ignore s).
Proof. apply steady_tarExtract; intros; exact I. Qed.

Lemma any_extract stream b output : steady false anything (extract stream b output).
Proof.
  unfold extract, pick_tmp, commit, backup, Util.touch, cp, rename.
  plain_tac; try apply steady_getTmp; try apply any_tarExtract.
Qed.

Lemma any_createBin this version : steady false anything (Updater.createBin this version).
Proof. unfold Updater.createBin. plain_tac. Qed.

Lemma any_ensureClientDir root : steady false anything (ensureClientDir root).
Proof. unfold ensureClientDir. plain_tac. Qed.

Lemma any_update this current updated force channel :
  steady false anything (Updater.update this current updated force channel).
Proof.
  unfold Updater.update, downloadAndExtract, Updater.refreshConfig, setChannel.
  plain_tac; try apply any_extract; try apply any_createBin;
    try apply any_ensureClientDir.
Qed.

Lemma any_updateToExistingVersion this current updated :
  steady false anything (Updater.updateToExistingVersion this current updated).
Proof.
  unfold Updater.updateToExistingVersion, Updater.refreshConfig.
  plain_tac; try apply any_createBin; try apply any_ensureClientDir.
Qed.

Lemma any_fetchVersionIndex this : steady false anything (Updater.fetchVersionIndex this).
Proof. unfold Updater.fetchVersionIndex. plain_tac. Qed.

Lemma inert_resolve this options : steady false inert (Updater.resolve this options).
Proof.
  unfold Updater.resolve, Updater.resolve_both, notUpdatable, determineChannel,
    determineCurrentVersion.
  plain_tac; apply steady_debounce; intros; exact I.
Qed.

Lemma inert_findLocalVersion this version :
  steady false inert (Updater.findLocalVersion this version).
Proof.
  unfold Updater.findLocalVersion, Updater.findLocalVersions, ensureClientDir.
  plain_tac.
Qed.

Lemma inert_finish this : steady false inert (Updater.finish this).
Proof.
  unfold Updater.finish, Updater.touch, Updater.tidy, Util.ls. plain_tac.
  apply steady_promise_all. apply Forall_forall. intros m Hin.
  apply in_map_iff in Hin as (f & <- & _). apply steady_fs_step. exact I.
Qed.

Lemma guarded_of_inert A (m : M A) : steady false inert m -> guarded m.
Proof.
  intros H w. destruct (H w) as (He & _ & evs & Hl & Hp). split; [exact He|].
  exists evs. auto.
Qed.

Lemma guarded_bind_inert A B (m : M A) (k : A -> M B) :
  steady false inert m -> (forall a, guarded (k a)) -> guarded (bind m k).
Proof.
  intros Hm Hk w. unfold bind. destruct (Hm w) as (He & _ & evs & Hl & Hp).
  destruct (m w) as [[a|e] w1]; cbn [snd] in *.
  - destruct (Hk a w1) as (He' & evs' & Hl' & Hg). split; [congruence|].
    exists (evs' ++ evs). split; [now rewrite Hl', Hl, app_assoc|].
    destruct Hg as [Hi | (later & c & v & earlier & -> & Hi & Hh)].
    + left. apply Forall_app. auto.
    + right. exists later, c, v, (earlier ++ evs). split.
      * now rewrite <- app_assoc.
      * split; [apply Forall_app; auto | now rewrite <- He].
  - split; [exact He|]. exists evs. auto.
Qed.

Lemma guarded_then_inert A B (m : M A) (k : A -> M B) :
  guarded m -> (forall a, steady false inert (k a)) -> guarded (bind m k).
Proof.
  intros Hm Hk w. unfold bind. destruct (Hm w) as (He & evs & Hl & Hg).
  destruct (m w) as [[a|e] w1]; cbn [snd] in *.
  - destruct (Hk a w1) as (He' & _ & evs' & Hl' & Hp'). split; [congruence|].
    exists (evs' ++ evs). split; [now rewrite Hl', Hl, app_assoc|].
    destruct Hg as [Hi | (later & c & v & earlier & -> & Hi & Hh)].
    + left. apply Forall_app. auto.
    + right. exists (evs' ++ later), c, v, earlier. split.
      * now rewrite <- app_assoc.
      * auto.
  - split; [exact He|]. exists evs. auto.
Qed.

Lemma guarded_hook A channel version (rest : M A) :
  steady false anything rest ->
  guarded (runHook "preupdate" channel version ;; rest).
Proof.
  intros Hr w. unfold bind, runHook. cbv zeta. cbn [env with_log].
  destruct (hook_outcome (env w) "preupdate" channel version) eqn:Hh.
  - split; [reflexivity|]. exists [EHook "preupdate" channel version].
    split; [reflexivity|]. left. repeat constructor.
  - set (w1 := with_log _ w). destruct (Hr w1) as (He & _ & evs & Hl & _).
    split; [exact He|]. exists (evs ++ [EHook "preupdate" channel version]).
    split; [now rewrite Hl, <- app_assoc|].
    right. exists evs, channel, version, []. auto.
Qed.

Lemma guarded_requested this force channel current version :
  guarded (Updater.requested this force channel current version).
Proof.
  unfold Updater.requested. apply guarded_bind_inert.
  - destruct force; [apply steady_ret | apply inert_findLocalVersion].
  - intros found. destruct (alreadyOnVersion _ _).
    + apply guarded_of_inert. plain_tac.
    + apply guarded_hook.
      unfold ux_action_stop, ux_log.
      pose proof any_updateToExistingVersion. pose proof any_fetchVersionIndex.
      pose proof any_update. plain_tac; auto.
Qed.

Lemma guarded_newest this force channel current :
  guarded (Updater.newest this force channel current).
Proof.
  unfold Updater.newest. apply guarded_bind_inert; [plain_tac|].
  intros latestVersion. apply guarded_then_inert.
  - destruct (negb force && _).
    + apply guarded_of_inert. plain_tac.
    + apply guarded_hook. apply any_update.
  - intros this'. plain_tac.
Qed.

(** X16.  Nothing is installed before the host agrees: in every run of
    [runUpdate], whatever its outcome, either the whole trace is inert
    (no download, no reload of the configuration, no file written,
    linked, renamed or copied), or the trace holds a [preupdate] hook
    that the host accepted, and everything before that hook is inert.
    An inert trace may still hold the creation of a directory, a
    removal and a change of a modification time: the client root is
    created by the lookup of a version, and the clean-up steps touch
    and remove. *)
Theorem no_change_without_preupdate this options w :
  exists evs,
    log (snd (Updater.runUpdate this options w)) = evs ++ log w
    /\ (Forall inert evs
        \/ exists later channel version earlier,
             evs = later ++ EHook "preupdate" channel version :: earlier
             /\ Forall inert earlier
             /\ hook_outcome (env w) "preupdate" channel version = None).
Proof.
  assert (H : guarded (Updater.runUpdate this options)).
  { unfold Updater.runUpdate. apply guarded_bind_inert; [apply inert_resolve|].
    intros [[channel current]|]; [|apply guarded_of_inert, steady_ret].
    apply guarded_then_inert.
    - unfold Updater.decide.
      destruct (Options.version options) as [v|];
        [destruct (truthy _)|];
        auto using guarded_requested, guarded_newest.
    - intros [this'|]; [apply inert_finish | apply steady_ret]. }
  destruct (H w) as (_ & evs & Hl & Hg). eauto.
Qed.

(** * The branches of an update *)

Lemma cleanup_finish this : steady false cleanup_event (Updater.finish this).
Proof.
  unfold Updater.finish, Updater.touch, Updater.tidy, Util.ls. plain_tac.
  apply steady_promise_all. apply Forall_forall. intros m Hin.
  apply in_map_iff in Hin as (f & <- & _). apply steady_fs_step. exact I.
Qed.

(** X17.  A CLI that is up to date is left alone, but its host is
    told: when no version is asked for, nothing is forced and the
    registry reports the current version as the latest, [runUpdate]
    stops the spinner with the [already on version] message, runs the
    [update] hook for the current version all the same, and ends with
    the clean-up steps; no [preupdate] hook runs and nothing is
    downloaded or written. *)
Theorem up_to_date_run this options w channel current w1 :
  Updater.resolve this options w = (Ok (Some (channel, current)), w1) ->
  truthy (Options.version options) = false ->
  Updater.forced options = false ->
  latest (env w) = Ok current ->
  hook_outcome (env w) "update" channel current = None ->
  exists w' cleanup,
    Updater.runUpdate this options w = (Ok tt, w')
    /\ log w'
       = cleanup
         ++ [EActionStop None;
             EHook "update" channel current;
             EActionStop (Updater.already_message this current);
             EHttpGet "https://registry.npmjs.org/@xata.io/cli/latest"]
         ++ log w1
    /\ Forall cleanup_event cleanup.
Proof.
  intros Hres Hv Hf Hlatest Hhook.
  destruct (quiet_resolve true this options w) as (Henv & _).
  rewrite Hres in Henv. cbn [snd] in Henv.
  unfold Updater.runUpdate. unfold bind at 1. rewrite Hres.
  assert (Hdec : Updater.decide this options channel current
                 = Updater.newest this false channel current).
  { unfold Updater.decide. rewrite Hv, Hf. now destruct (Options.version options). }
  rewrite Hdec. unfold bind at 1.
  assert (Hnew : exists w2,
             Updater.newest this false channel current w1 = (Ok (Some this), w2)
             /\ env w2 = env w
             /\ log w2 = [EActionStop None;
                          EHook "update" channel current;
                          EActionStop (Updater.already_message this current);
                          EHttpGet "https://registry.npmjs.org/@xata.io/cli/latest"]
                         ++ log w1).
  { unfold Updater.newest, bind, request, runHook, ux_action_stop, emit, ret.
    cbv zeta. cbn [env log with_log]. rewrite Henv, Hlatest.
    cbn [negb andb alreadyOnVersion]. rewrite String.eqb_refl.
    cbn [env log with_log]. rewrite Henv, Hhook.
    eexists. split; [reflexivity|]. split; [exact Henv | reflexivity]. }
  destruct Hnew as (w2 & -> & He2 & Hl2).
  destruct (cleanup_finish this w2) as (_ & _ & cleanup & Hl & Hp).
  destruct (finish_run this w2) as (w' & Hfin & _).
  rewrite Hfin in *. cbn [snd] in Hl. exists w', cleanup.
  split; [reflexivity|]. split; [now rewrite Hl, Hl2 | exact Hp].
Qed.


Lemma up_to_date_run_witness :
  exists w' cleanup,
    Updater.runUpdate Demo.updater (Options.mk false None None None)
      (Demo.world_in (Demo.env_of "1.0.0") 0)
    = (Ok tt, w')
    /\ log w'
       = cleanup
         ++ [EActionStop None;
             EHook "update" "stable" "1.0.0";
             EActionStop (Some "already on version 1.0.0");
             EHttpGet "https://registry.npmjs.org/@xata.io/cli/latest"]
         ++ log (snd (Updater.resolve Demo.updater (Options.mk false None None None)
                        (Demo.world_in (Demo.env_of "1.0.0") 0)))
    /\ Forall cleanup_event cleanup.
Proof.
  exact (up_to_date_run Demo.updater (Options.mk false None None None)
           (Demo.world_in (Demo.env_of "1.0.0") 0) "stable" "1.0.0"
           (snd (Updater.resolve Demo.updater (Options.mk false None None None)
                   (Demo.world_in (Demo.env_of "1.0.0") 0)))
           eq_refl eq_refl eq_refl eq_refl eq_refl).
Defined.


(** * The constructor *)







(** * The update hook *)

Lemma calm_tarExtract cwd s : steady false no_cleanup (tarExtract cwd ignore s).
Proof. apply steady_tarExtract; intros; exact I. Qed.

Lemma calm_update this current updated force channel :
  steady false no_cleanup (Updater.update this current updated force channel).
Proof.
  unfold Updater.update, downloadAndExtract, Updater.refreshConfig, setChannel,
    Updater.createBin, ensureClientDir, extract, pick_tmp, commit, backup,
    Util.touch, cp, rename.
  plain_tac; try apply steady_getTmp; try apply calm_tarExtract.
Qed.

Lemma calm_updateToExistingVersion this current updated :
  steady false no_cleanup (Updater.updateToExistingVersion this current updated).
Proof.
  unfold Updater.updateToExistingVersion, Updater.refreshConfig,
    Updater.createBin, ensureClientDir.
  plain_tac.
Qed.

Lemma calm_resolve this options : steady false no_cleanup (Updater.resolve this options).
Proof.
  unfold Updater.resolve, Updater.resolve_both, notUpdatable, determineChannel,
    determineCurrentVersion.
  plain_tac; apply steady_debounce; intros; exact I.
Qed.

Lemma calm_requested this force channel current version :
  steady false no_cleanup (Updater.requested this force channel current version).
Proof.
  unfold Updater.requested, Updater.findLocalVersion, Updater.findLocalVersions,
    ensureClientDir, Updater.fetchVersionIndex.
  pose proof calm_update. pose proof calm_updateToExistingVersion.
  plain_tac; auto.
Qed.

Lemma calm_newest this force channel current :
  steady false no_cleanup (Updater.newest this force channel current).
Proof.
  unfold Updater.newest. pose proof calm_update. plain_tac; auto.
Qed.

Lemma calm_decide this options channel current :
  steady false no_cleanup (Updater.decide this options channel current).
Proof.
  unfold Updater.decide.
  destruct (Options.version options); [destruct (truthy _)|];
    auto using calm_requested, calm_newest.
Qed.

Lemma steady_env A ro P (m : M A) w r w' :
  steady ro P m -> m w = (r, w') -> env w' = env w.
Proof. intros H E. destruct (H w) as (He & _). now rewrite E in He. Qed.

Lemma runHook_rejected h c v w (A : Type) (k : unit -> M A) a w' :
  hook_outcome (env w) h c v <> None -> bind (runHook h c v) k w <> (Ok a, w').
Proof.
  intros Hh. unfold bind, runHook. cbv zeta. cbn [env with_log].
  destruct (hook_outcome (env w) h c v); [discriminate | congruence].
Qed.

Lemma decide_rejected this options channel current w this' w' :
  (forall c v, hook_outcome (env w) "update" c v <> None) ->
  Updater.decide this options channel current w <> (Ok (Some this'), w').
Proof.
  intros Hh H.
  assert (Hreq : forall force v,
            Updater.requested this force channel current v w <> (Ok (Some this'), w')).
  { clear H. intros force v H. unfold Updater.requested in H.
    apply bind_Ok in H as (found & w1 & Hf & H).
    assert (He1 : env w1 = env w).
    { destruct force; [now injection Hf as _ <-|].
      eapply steady_env; [apply (quiet_findLocalVersion this v)|exact Hf]. }
    destruct (alreadyOnVersion _ _).
    - apply bind_Ok in H as (? & w2 & _ & H). discriminate H.
    - apply bind_Ok in H as (? & w2 & Hpre & H).
      apply runHook_inv in Hpre as [_ He2].
      apply bind_Ok in H as (this1 & w3 & Hup & H).
      assert (He3 : env w3 = env w2).
      { destruct (if truthy found then found else None).
        - eapply steady_env; [apply any_updateToExistingVersion | exact Hup].
        - apply bind_Ok in Hup as (index & w4 & Hi & Hup).
          pose proof (steady_env _ _ _ _ _ _ _ (any_fetchVersionIndex this) Hi) as He4.
          destruct (negb _); [discriminate|].
          rewrite <- He4. eapply steady_env; [apply any_update | exact Hup]. }
      apply runHook_rejected in H; [exact H|]. rewrite He3, He2, He1. apply Hh. }
  assert (Hnew : forall force,
            Updater.newest this force channel current w <> (Ok (Some this'), w')).
  { clear H. intros force H. unfold Updater.newest in H.
    apply bind_Ok in H as (latestVersion & w1 & Hl & H).
    unfold request in Hl. injection Hl as _ <-.
    apply bind_Ok in H as (this1 & w2 & Hup & H).
    assert (He2 : env w2 = env w).
    { destruct (negb force && _).
      - apply bind_Ok in Hup as (? & w3 & Hs & Hup). injection Hup as _ <-.
        unfold ux_action_stop, emit in Hs. injection Hs as _ <-. reflexivity.
      - apply bind_Ok in Hup as (? & w3 & Hpre & Hup).
        apply runHook_inv in Hpre as [_ He3].
        pose proof (steady_env _ _ _ _ _ _ _
                      (any_update this current latestVersion force channel) Hup)
          as He4.
        rewrite He4, He3. reflexivity. }
    apply runHook_rejected in H; [exact H|]. rewrite He2. apply Hh. }
  unfold Updater.decide in H.
  destruct (Options.version options); [destruct (truthy _)|];
    [eapply Hreq | eapply Hnew | eapply Hnew]; exact H.
Qed.

(** X20.  When the host rejects the [update] hook, the clean-up never
    runs: the trace of [runUpdate] holds no [ux.debug] line, neither
    the touch of the client directory nor [tidy] nor [done]; the branch
    taken ends at the hook. *)
Theorem update_hook_rejection this options w :
  (forall channel version, hook_outcome (env w) "update" channel version <> None) ->
  exists evs,
    log (snd (Updater.runUpdate this options w)) = evs ++ log w
    /\ Forall no_cleanup evs.
Proof.
  intros Hh. unfold Updater.runUpdate, bind.
  destruct (calm_resolve this options w) as (He1 & _ & evs1 & Hl1 & Hp1).
  destruct (Updater.resolve this options w) as [[[[channel current]|]|e] w1];
    cbn [snd] in *; unfold ret; cbn [snd]; eauto.
  destruct (calm_decide this options channel current w1)
    as (_ & _ & evs2 & Hl2 & Hp2).
  destruct (Updater.decide this options channel current w1)
    as [[[this'|]|e] w2] eqn:Hd; cbn [snd] in *.
  - exfalso. apply decide_rejected in Hd; [exact Hd|]. now rewrite He1.
  - exists (evs2 ++ evs1). split; [now rewrite Hl2, Hl1, app_assoc|].
    now apply Forall_app.
  - exists (evs2 ++ evs1). split; [now rewrite Hl2, Hl1, app_assoc|].
    now apply Forall_app.
Qed.

Lemma update_hook_rejection_witness :
  exists evs,
    log (snd (Updater.runUpdate Demo.updater (Options.mk false None None None)
                (Demo.world_in
                   (mkEnv (Ok []) (Ok "2.0.0") (fun _ => Ok []) (Ok Demo.archive)
                      (fun h _ _ => if (h =? "update")%string
                                    then Some (JsError "rejected") else None)
                      (fun root _ => Ok (Demo.config_at (basename root)))
                      (fun _ => "1970-01-01T00:00:00.000Z")
                      (fun _ _ => 0))
                   0)))
    = evs ++ []
    /\ Forall no_cleanup evs.
Proof.
  apply (update_hook_rejection Demo.updater (Options.mk false None None None)
           (Demo.world_in
              (mkEnv (Ok []) (Ok "2.0.0") (fun _ => Ok []) (Ok Demo.archive)
                 (fun h _ _ => if (h =? "update")%string
                               then Some (JsError "rejected") else None)
                 (fun root _ => Ok (Demo.config_at (basename root)))
                 (fun _ => "1970-01-01T00:00:00.000Z")
                 (fun _ _ => 0))
              0)).
  intros channel version. discriminate.
Defined.

(** * The head of a run and the order of an update *)

(** X21.  The head of [runUpdate] only reads: the debounce gate, the
    banner, the updatable test and the lookups of the channel and of
    the current version leave the file system as it is, and add to the
    trace nothing but terminal output, waits and GET requests; no
    hook runs and nothing is downloaded before the decision. *)
Theorem head_reads_only this options w :
  fs (snd (Updater.resolve this options w)) = fs w
  /\ exists evs,
       log (snd (Updater.resolve this options w)) = evs ++ log w
       /\ Forall head_event evs.
Proof.
  assert (H : steady true head_event (Updater.resolve this options)).
  { unfold Updater.resolve, Updater.resolve_both, notUpdatable, determineChannel,
      determineCurrentVersion.
    plain_tac; apply steady_debounce; intros; exact I. }
  destruct (H w) as (_ & Hfs & Hl). split; [now apply Hfs | exact Hl].
Qed.

Lemma extraction_tarExtract cwd s : steady false extraction_event (tarExtract cwd ignore s).
Proof. apply steady_tarExtract; intros; exact I. Qed.

Lemma extraction_extract stream b output :
  steady false extraction_event (extract stream b output).
Proof.
  unfold extract, pick_tmp, commit, backup, Util.touch, cp, rename.
  plain_tac; try apply steady_getTmp; try apply extraction_tarExtract.
Qed.

Lemma steady_log A ro P (m : M A) w r w' :
  steady ro P m -> m w = (r, w') ->
  exists evs, log w' = evs ++ log w /\ Forall P evs.
Proof. intros H E. destruct (H w) as (_ & _ & Hl). now rewrite E in Hl. Qed.

Lemma fs_events_ensureClientDir root : steady false is_fs_event (ensureClientDir root).
Proof. unfold ensureClientDir. plain_tac. Qed.

(** The trace of a successful [createBin]. *)
Lemma createBin_log this version w w' :
  Updater.createBin this version w = (Ok tt, w') ->
  log w'
  = (if Config.windows (Updater.config this) then []
     else [EFs (OpSymlink ("./" +++ version) (join (Updater.clientRoot this) "current"));
           EFs (OpRm (join (Updater.clientRoot this) "current"))])
    ++ [EFs (OpWriteFile (Updater.clientBin this)
                         (Updater.shim (Updater.config this) version));
        EFs (OpMkdir (dirname (Updater.clientBin this)))]
    ++ log w.
Proof.
  unfold Updater.createBin. intros H.
  apply bind_Ok in H as ([] & w1 & Hm & H). unfold mkdir in Hm.
  apply fs_step_log in Hm.
  destruct (Config.windows (Updater.config this)).
  - unfold writeFile in H. apply fs_step_log in H. now rewrite H, Hm.
  - apply bind_Ok in H as ([] & w2 & Hw & H). unfold writeFile in Hw.
    apply fs_step_log in Hw.
    apply bind_Ok in H as ([] & w3 & Hr & H). unfold rm in Hr.
    apply fs_step_log in Hr. unfold symlink in H.
    apply fs_step_log in H. now rewrite H, Hr, Hw, Hm.
Qed.

(** X22.  The order of the effects of a successful [update]: the
    banner; the calls that ensure the client root; the download and
    the extraction, or nothing when the version directory is reused;
    the reload of the configuration from the version directory; the
    channel written into the data directory of the reloaded
    configuration; and last the shim, written at the path fixed by the
    constructor with the names of the reloaded configuration, followed
    off Windows by the replacement of the link [current]. *)
Theorem update_order this current updated force channel w this' w' :
  Updater.update this current updated force channel w = (Ok this', w') ->
  Updater.clientRoot this' = Updater.clientRoot this
  /\ Updater.clientBin this' = Updater.clientBin this
  /\ exists fetched ensured,
       log w'
       = (if Config.windows (Updater.config this') then []
          else [EFs (OpSymlink ("./" +++ updated)
                               (join (Updater.clientRoot this) "current"));
                EFs (OpRm (join (Updater.clientRoot this) "current"))])
         ++ [EFs (OpWriteFile (Updater.clientBin this)
                              (Updater.shim (Updater.config this') updated));
             EFs (OpMkdir (dirname (Updater.clientBin this)));
             EFs (OpWriteFile (join (Config.dataDir (Updater.config this')) "channel")
                              channel);
             EConfigLoad (join (Updater.clientRoot this) updated)]
         ++ fetched ++ ensured
         ++ EActionStart
              (Config.name (Updater.config this) +++ ": Updating CLI from "
               +++ chalk current +++ " to " +++ chalk updated
               +++ (if (channel =? "stable")%string then ""
                    else " (" +++ chalk channel +++ ")"))
         :: log w
       /\ Forall is_fs_event ensured
       /\ (fetched = []
           \/ exists extracted,
                fetched
                = extracted
                  ++ [EHttpStream "https://www.dwsamplefiles.com/?dl_id=553";
                      EConsoleLog ["downlaoding......";
                                   show (join (Updater.clientRoot this) updated);
                                   ""; channel;
                                   Config.version (Updater.config this)]]
                /\ Forall extraction_event extracted).
Proof.
  unfold Updater.update. intros H.
  apply bind_Ok in H as ([] & w1 & Hs & H).
  unfold ux_action_start, emit in Hs. injection Hs as <-.
  apply bind_Ok in H as ([] & w2 & He & H).
  apply (steady_log _ _ _ _ _ _ _ (fs_events_ensureClientDir _)) in He
    as (ensured & Hl2 & Hp2).
  apply bind_Ok in H as (present & w3 & Hp & H).
  unfold existsSync in Hp. injection Hp as _ <-.
  apply bind_Ok in H as ([] & w4 & Hd & H).
  assert (Hf : exists fetched,
             log w4 = fetched ++ log w2
             /\ (fetched = []
                 \/ exists extracted,
                      fetched
                      = extracted
                        ++ [EHttpStream "https://www.dwsamplefiles.com/?dl_id=553";
                            EConsoleLog ["downlaoding......";
                                         show (join (Updater.clientRoot this) updated);
                                         ""; channel;
                                         Config.version (Updater.config this)]]
                      /\ Forall extraction_event extracted)).
  { destruct (force || negb present).
    - unfold downloadAndExtract in Hd.
      apply bind_Ok in Hd as ([] & w5 & Hc & Hd). unfold emit in Hc.
      injection Hc as <-. unfold try_catch in Hd.
      destruct (bind _ _ _) as [[[]|e] w6] eqn:Hb in Hd;
        [|destruct e; discriminate].
      injection Hd as <-.
      apply bind_Ok in Hb as (stream & w7 & Hr & Hx). unfold request in Hr.
      injection Hr as _ <-.
      apply (steady_log _ _ _ _ _ _ _ (extraction_extract _ _ _)) in Hx
        as (extracted & Hl6 & Hp6).
      exists (extracted ++ [EHttpStream "https://www.dwsamplefiles.com/?dl_id=553";
                            EConsoleLog ["downlaoding......";
                                         show (join (Updater.clientRoot this) updated);
                                         ""; channel;
                                         Config.version (Updater.config this)]]).
      split; [rewrite Hl6; cbn [log with_log]; now rewrite <- app_assoc|].
      right. exists extracted. auto.
    - injection Hd as <-. exists []. split; [reflexivity | now left]. }
  destruct Hf as (fetched & Hl4 & Hfetched).
  apply bind_Ok in H as (this1 & w5 & Hc & H).
  unfold Updater.refreshConfig in Hc.
  apply bind_Ok in Hc as (c & w6 & Hload & Hc). injection Hc as <- <-.
  unfold Config_load in Hload. injection Hload as _ <-.
  apply bind_Ok in H as ([] & w7 & Hch & H).
  unfold setChannel in Hch. apply writeFile_Ok in Hch as [Hw7 _].
  apply bind_Ok in H as ([] & w8 & Hb & H). injection H as <- <-.
  apply createBin_log in Hb.
  cbn [Updater.with_config Updater.clientRoot Updater.clientBin Updater.config] in *.
  split; [reflexivity|]. split; [reflexivity|].
  exists fetched, ensured. split; [|split; [exact Hp2 | exact Hfetched]].
  rewrite Hb, Hw7. cbn [log with_log with_fs]. rewrite Hl4, Hl2.
  reflexivity.
Qed.

Lemma update_order_witness :
  exists this' w',
    Updater.update Demo.updater "1.0.0" "2.0.0" false "stable" (Demo.world_at 0)
    = (Ok this', w')
    /\ Updater.clientBin this' = ["data"; "client"; "bin"; "xata"].
Proof.
  destruct (Updater.update Demo.updater "1.0.0" "2.0.0" false "stable"
              (Demo.world_at 0)) as [[this'|e] w'] eqn:H;
    [|vm_compute in H; discriminate].
  destruct (update_order Demo.updater "1.0.0" "2.0.0" false "stable"
              (Demo.world_at 0) this' w' H) as (_ & Hb & _).
  exists this', w'. split; [reflexivity | exact Hb].
Defined.
